(** * RedisDB::Parser (XS) -- a shallow embedding of [parser.c]

    The parser is an incremental state machine for the Redis serialization
    protocol.  This development embeds the functions of [parser.c] as Rocq
    functions over an explicit parser record, and proves the properties the
    specification states about them. *)

From Stdlib Require Import ZArith List Ascii String Bool Lia.
Import ListNotations.

Set Warnings "-register-all".

Open Scope Z_scope.

(** ** C scalar types

    [size_t] and [unsigned long] are 64-bit unsigned, [int] is 32-bit and
    [long] 64-bit two's complement; conversions are written out.  Where an
    [int] is incremented or decremented without a guard ([i++] in
    [_line_length], [mblk_level++] and [mblk_level--] in
    [rdb_parser__parse_reply]) the result is wrapped with [int_of]; C leaves
    the overflow undefined, and the theorems are stated for buffers of at
    most [INT_MAX] bytes, where it does not happen in the scan. *)

Definition size_t_of (x : Z) : Z := x mod 2 ^ 64.
Definition ulong_of (x : Z) : Z := x mod 2 ^ 64.
Definition int_of (x : Z) : Z := (x + 2 ^ 31) mod 2 ^ 32 - 2 ^ 31.
Definition INT_MAX : Z := 2 ^ 31 - 1.
Definition LONG_MAX : Z := 2 ^ 63 - 1.
Definition LONG_MIN : Z := - 2 ^ 63.

(** ** Bytes *)

Abbreviation byte := ascii (only parsing).
Abbreviation bytes := (list ascii) (only parsing).

Definition CR : byte := "013"%char.
Definition LF : byte := "010"%char.
Definition NUL : byte := "000"%char.
Definition CRLF : bytes := [CR; LF].

Definition code (c : byte) : Z := Z.of_N (N_of_ascii c).
Definition bytes_of (s : string) : bytes := list_ascii_of_string s.

(** ** Outcomes of a C function that may [croak] *)

Inductive fault : Type :=
| OutOfBounds   (* a read past the end of the string buffer *)
| NullArray.    (* [av_push] on a NULL array *)

Inductive result (A : Type) : Type :=
| Ok (a : A)
| Croak (msg : string)
| Fault (f : fault)
| OutOfFuel.

Arguments Ok {A} a.
Arguments Croak {A} msg.
Arguments Fault {A} f.
Arguments OutOfFuel {A}.

Definition bind {A B : Type} (r : result A) (k : A -> result B) : result B :=
  match r with
  | Ok a => k a
  | Croak m => Croak m
  | Fault f => Fault f
  | OutOfFuel => OutOfFuel
  end.

Notation "x <- r ;; k" := (bind r (fun x => k))
  (at level 61, r at next level, right associativity).
Notation "' pat <- r ;; k" := (bind r (fun x => match x with pat => k end))
  (at level 61, pat pattern, r at next level, right associativity).

(** Mapping over the value of an outcome, and over the parser of a pair. *)
Definition rmap {A B : Type} (f : A -> B) (r : result A) : result B :=
  match r with
  | Ok a => Ok (f a)
  | Croak m => Croak m
  | Fault f => Fault f
  | OutOfFuel => OutOfFuel
  end.

(** An outcome that is neither a missing result nor a read out of bounds. *)
Definition sound {A : Type} (r : result A) : Prop :=
  r <> OutOfFuel /\ r <> Fault OutOfBounds.

(** ** The C library's [atol]

    Modelled from the C library documentation: [atol] is [strtol] in base 10;
    it skips white space, accepts one optional sign, reads decimal digits up
    to the first byte that is not a digit (the terminating NUL included) and
    saturates at [LONG_MIN] and [LONG_MAX]. *)

Definition isspace (c : byte) : bool :=
  (code c =? 32) || ((9 <=? code c) && (code c <=? 13)).

Definition isdigit (c : byte) : bool :=
  (48 <=? code c) && (code c <=? 57).

Fixpoint skip_space (s : bytes) : bytes :=
  match s with
  | c :: tl => if isspace c then skip_space tl else s
  | [] => []
  end.

Fixpoint digits_value (acc : Z) (s : bytes) : Z :=
  match s with
  | c :: tl => if isdigit c then digits_value (acc * 10 + (code c - 48)) tl else acc
  | [] => acc
  end.

Definition saturate_long (x : Z) : Z := Z.max LONG_MIN (Z.min LONG_MAX x).

Definition atol (s : bytes) : Z :=
  match skip_space s with
  | c :: tl =>
      if (c =? "-")%char then saturate_long (- digits_value 0 tl)
      else if (c =? "+")%char then saturate_long (digits_value 0 tl)
      else saturate_long (digits_value 0 (c :: tl))
  | [] => 0
  end.

(** ** Perl values *)

Inductive SV : Type :=
| SVundef                              (* newSVpvn(NULL, 0) *)
| SVpv (s : bytes) (utf8 : bool)       (* a string and its UTF-8 flag *)
| SViv (n : Z)                         (* newSViv *)
| SVrv_av (items : list SV)            (* newRV_noinc((SV * ) av) *)
| SVerror (msg : SV).                  (* RedisDB::Error->new(msg) *)

(** Code references and the client object are opaque to the parser. *)
Definition CV := nat.
Definition client := nat.

(** One [call_sv (cb, G_VOID|G_DISCARD)] with its two arguments. *)
Record call : Type := Call { call_cb : CV; call_self : client; call_reply : SV }.

(** ** Buffer primitives of the Perl API on the string buffer *)

Definition sv_len (buffer : bytes) : Z := Z.of_nat (List.length buffer).
Definition sv_chop (buffer : bytes) (n : Z) : bytes := skipn (Z.to_nat n) buffer.
Definition newSVpvn (pv : bytes) (len : Z) : SV := SVpv (firstn (Z.to_nat len) pv) false.
Definition newAV : list SV := [].

(** [pv[len] = 0] *)
Fixpoint poke (pv : bytes) (n : nat) (c : byte) : bytes :=
  match pv, n with
  | [], _ => []
  | _ :: tl, O => c :: tl
  | x :: tl, S n' => x :: poke tl n' c
  end.

(** The C string that starts at [pv]: the bytes before the first NUL. *)
Fixpoint c_string (pv : bytes) : bytes :=
  match pv with
  | [] => []
  | c :: tl => if (c =? NUL)%char then [] else c :: c_string tl
  end.

(** ** [parser.h] *)

Inductive rdbp_state : Type :=
| RDBP_CLEAN
| RDBP_READ_LINE
| RDBP_READ_ERROR
| RDBP_READ_NUMBER
| RDBP_READ_BULK_LEN
| RDBP_READ_BULK
| RDBP_READ_MBLK_LEN
| RDBP_WAIT_BUCKS.

Record rdbp_mblk_store : Type := MblkStore {
  store_mblk_reply : option (list SV);
  store_mblk_len : Z
}.

(** [struct redisdb_parser].  The linked list [mblk_store] is a list, a NULL
    [AV*] or [SV*] is [None].  The field [thx] is left out: [parser.c] never
    reads or writes it.  [calls] is not a field of the C struct: it records
    the callback invocations made so far, oldest first. *)
Record RDB_parser : Type := Parser {
  utf8 : bool;
  redisdb : client;
  callbacks : list CV;
  default_cb : option CV;
  buffer : bytes;
  state : rdbp_state;
  mblk_level : Z;
  mblk_reply : option (list SV);
  mblk_store : list rdbp_mblk_store;
  mblk_len : Z;
  bulk_len : Z;
  calls : list call
}.

Definition set_callbacks (p : RDB_parser) (x : list CV) :=
  Parser (utf8 p) (redisdb p) x (default_cb p) (buffer p) (state p)
         (mblk_level p) (mblk_reply p) (mblk_store p) (mblk_len p) (bulk_len p) (calls p).
Definition set_default_cb (p : RDB_parser) (x : option CV) :=
  Parser (utf8 p) (redisdb p) (callbacks p) x (buffer p) (state p)
         (mblk_level p) (mblk_reply p) (mblk_store p) (mblk_len p) (bulk_len p) (calls p).
Definition set_buffer (p : RDB_parser) (x : bytes) :=
  Parser (utf8 p) (redisdb p) (callbacks p) (default_cb p) x (state p)
         (mblk_level p) (mblk_reply p) (mblk_store p) (mblk_len p) (bulk_len p) (calls p).
Definition set_state (p : RDB_parser) (x : rdbp_state) :=
  Parser (utf8 p) (redisdb p) (callbacks p) (default_cb p) (buffer p) x
         (mblk_level p) (mblk_reply p) (mblk_store p) (mblk_len p) (bulk_len p) (calls p).
Definition set_mblk_level (p : RDB_parser) (x : Z) :=
  Parser (utf8 p) (redisdb p) (callbacks p) (default_cb p) (buffer p) (state p)
         x (mblk_reply p) (mblk_store p) (mblk_len p) (bulk_len p) (calls p).
Definition set_mblk_reply (p : RDB_parser) (x : option (list SV)) :=
  Parser (utf8 p) (redisdb p) (callbacks p) (default_cb p) (buffer p) (state p)
         (mblk_level p) x (mblk_store p) (mblk_len p) (bulk_len p) (calls p).
Definition set_mblk_store (p : RDB_parser) (x : list rdbp_mblk_store) :=
  Parser (utf8 p) (redisdb p) (callbacks p) (default_cb p) (buffer p) (state p)
         (mblk_level p) (mblk_reply p) x (mblk_len p) (bulk_len p) (calls p).
Definition set_mblk_len (p : RDB_parser) (x : Z) :=
  Parser (utf8 p) (redisdb p) (callbacks p) (default_cb p) (buffer p) (state p)
         (mblk_level p) (mblk_reply p) (mblk_store p) x (bulk_len p) (calls p).
Definition set_bulk_len (p : RDB_parser) (x : Z) :=
  Parser (utf8 p) (redisdb p) (callbacks p) (default_cb p) (buffer p) (state p)
         (mblk_level p) (mblk_reply p) (mblk_store p) (mblk_len p) x (calls p).
Definition set_calls (p : RDB_parser) (x : list call) :=
  Parser (utf8 p) (redisdb p) (callbacks p) (default_cb p) (buffer p) (state p)
         (mblk_level p) (mblk_reply p) (mblk_store p) (mblk_len p) (bulk_len p) x.

Definition on_parser {T : Type} (f : RDB_parser -> RDB_parser)
  (x : T * RDB_parser) : T * RDB_parser := (fst x, f (snd x)).

(** [call_sv] with the arguments [(redisdb, reply)] pushed on the stack. *)
Definition call_sv (p : RDB_parser) (cb : CV) (reply : SV) : RDB_parser :=
  set_calls p (calls p ++ [Call cb (redisdb p) reply]).

Section Parser.

(** Perl's [is_utf8_string], which [sv_utf8_decode] uses to validate a
    string, is not part of the parser: it is a parameter. *)
Variable is_utf8_string : bytes -> bool.

(** [sv_utf8_decode]: fails on an invalid string; otherwise switches the
    UTF-8 flag on when the string has a byte above 127. *)
Definition sv_utf8_decode (sv : SV) : option SV :=
  match sv with
  | SVpv s _ =>
      if is_utf8_string s
      then Some (SVpv s (existsb (fun c => 128 <=? code c) s))
      else None
  | _ => Some sv
  end.

(** ** [rdb_parser__propagate_reply] *)

Fixpoint propagate_loop (fuel : nat) (p : RDB_parser) (reply : SV)
  : result RDB_parser :=
  match fuel with
  | O => OutOfFuel
  | S fuel' =>
      match callbacks p with
      | cb :: rest =>                          (* av_len >= 0: av_shift *)
          propagate_loop fuel' (call_sv (set_callbacks p rest) cb reply) reply
      | [] =>
          match default_cb p with
          | Some cb =>
              propagate_loop fuel' (call_sv (set_default_cb p None) cb reply) reply
          | None => Ok p                       (* break *)
          end
      end
  end.

Definition rdb_parser__propagate_reply (p : RDB_parser) (reply : SV)
  : result RDB_parser :=
  propagate_loop (List.length (callbacks p) + 2) p reply.

(** ** [_line_length]

    [pos] is the rest of the string at the pointer [pos], [off] is
    [pos - start].  The counter [i] is an [int] compared with the [size_t]
    value [length - 1]. *)

Fixpoint line_scan (pos : bytes) (off i length : Z) : result Z :=
  if size_t_of i <? size_t_of (length - 1) then
    match pos with
    | [] => Fault OutOfBounds
    | c :: tl =>
        if (c =? CR)%char then
          match tl with
          | [] => Fault OutOfBounds
          | c1 :: _ =>
              if (c1 =? LF)%char then Ok off
              else line_scan tl (off + 1) (int_of (i + 1)) length
          end
        else line_scan tl (off + 1) (int_of (i + 1)) length
    end
  else Ok (-1).

Definition _line_length (start : bytes) (length : Z) : result Z :=
  line_scan start 0 0 length.

(** ** [_read_line], [_read_number], [_read_length]

    Each returns its C result together with the buffer it leaves. *)

Definition _read_line (buffer : bytes) : result (option SV * bytes) :=
  let pv := buffer in
  len <- _line_length pv (sv_len buffer) ;;
  if 0 <=? len
  then Ok (Some (newSVpvn pv len), sv_chop buffer (len + 2))
  else Ok (None, buffer).

Definition _read_number (buffer : bytes) : result (option SV * bytes) :=
  let pv := buffer in
  len <- _line_length pv (sv_len buffer) ;;
  if 0 <=? len
  then
    let pv := poke pv (Z.to_nat len) NUL in
    Ok (Some (SViv (atol (c_string pv))), sv_chop pv (len + 2))
  else Ok (None, buffer).

Definition _read_length (buffer : bytes) : result (Z * bytes) :=
  let pv := buffer in
  len <- _line_length pv (sv_len buffer) ;;
  if 0 <=? len
  then
    let pv := poke pv (Z.to_nat len) NUL in
    Ok (atol (c_string pv), sv_chop pv (len + 2))
  else Ok (-2, buffer).

(** ** [_create_rdb_error] *)

Definition _create_rdb_error (msg : SV) : SV := SVerror msg.

(** ** [_mblk_status_store], [_mblk_status_fetch] *)

Definition _mblk_status_store (p : RDB_parser) : RDB_parser :=
  let store := MblkStore (mblk_reply p) (mblk_len p) in
  set_mblk_store (set_mblk_reply p None) (store :: mblk_store p).

Definition _mblk_status_fetch (p : RDB_parser) : result RDB_parser :=
  match mblk_store p with
  | [] => Croak "Already at the upper level of multi-bulk reply"
  | store :: next =>
      Ok (set_mblk_store
            (set_mblk_reply (set_mblk_len p (store_mblk_len store))
                            (store_mblk_reply store))
            next)
  end.

(** ** [_mblk_item]

    The C function is recursive; every recursive call follows a successful
    [_mblk_status_fetch], so the depth is bounded by the stored frames. *)

Fixpoint _mblk_item_rec (fuel : nat) (p : RDB_parser) (value : SV)
  : result (Z * RDB_parser) :=
  match fuel with
  | O => OutOfFuel
  | S fuel' =>
      match mblk_reply p with
      | None => Fault NullArray
      | Some av =>
          let p := set_mblk_reply p (Some (av ++ [value])) in
          if 1 <? mblk_len p then
            Ok (1, set_state (set_mblk_len p (mblk_len p - 1)) RDBP_WAIT_BUCKS)
          else if 1 <? mblk_level p then
            let p := set_mblk_level p (mblk_level p - 1) in
            let tmp := SVrv_av (av ++ [value]) in
            p <- _mblk_status_fetch p ;;
            _mblk_item_rec fuel' p tmp
          else Ok (0, p)
      end
  end.

Definition _mblk_item (p : RDB_parser) (value : SV) : result (Z * RDB_parser) :=
  _mblk_item_rec (S (List.length (mblk_store p))) p value.

(** ** [_reply_completed] *)

Definition _reply_completed (p : RDB_parser) (value : SV)
  : result (Z * RDB_parser) :=
  '(reply, p) <-
     (if negb (mblk_level p =? 0) then
        '(repeat, p) <- _mblk_item p value ;;
        if negb (repeat =? 0) then Ok (None, p)
        else
          match mblk_reply p with
          | Some av => Ok (Some (SVrv_av av), set_mblk_reply p None)
          | None => Fault NullArray
          end
      else Ok (Some value, p)) ;;
  match reply with
  | None => Ok (0, p)
  | Some reply =>
      let p := set_state p RDBP_CLEAN in
      match callbacks p with
      | cb :: rest => Ok (1, call_sv (set_callbacks p rest) cb reply)
      | [] =>
          match default_cb p with
          | Some cb => Ok (1, call_sv p cb reply)
          | None => Croak "No callbacks in the queue and no default callback set"
          end
      end
  end.

(** ** [rdb_parser__parse_reply] *)

(** [if (_reply_completed (parser, v)) return 1;]: [Some rv] leaves the
    function with [rv], [None] goes round the [while] loop again.

    In [RDBP_READ_BULK] the sum [2 + parser->bulk_len] is an [unsigned long].
    The state is entered with [bulk_len] set from a non-negative [long]
    ([bulk_ok] below), so the sum does not wrap and the [bulk_len + 2] bytes
    taken from the buffer are there. *)
Definition completed (r : result (Z * RDB_parser))
  : result (option Z * RDB_parser) :=
  '(done, p) <- r ;;
  if negb (done =? 0) then Ok (Some 1, p) else Ok (None, p).

Definition loop_body (p : RDB_parser) : result (option Z * RDB_parser) :=
  if sv_len (buffer p) <? 2 then Ok (Some 0, p) else
  match state p with
  | RDBP_READ_LINE =>
      '(line, buf) <- _read_line (buffer p) ;;
      let p := set_buffer p buf in
      match line with
      | None => Ok (Some 0, p)
      | Some line => completed (_reply_completed p line)
      end
  | RDBP_READ_ERROR =>
      '(line, buf) <- _read_line (buffer p) ;;
      let p := set_buffer p buf in
      match line with
      | None => Ok (Some 0, p)
      | Some line => completed (_reply_completed p (_create_rdb_error line))
      end
  | RDBP_READ_NUMBER =>
      '(line, buf) <- _read_number (buffer p) ;;
      let p := set_buffer p buf in
      match line with
      | None => Ok (Some 0, p)
      | Some line => completed (_reply_completed p line)
      end
  | RDBP_READ_BULK_LEN =>
      '(length, buf) <- _read_length (buffer p) ;;
      let p := set_buffer p buf in
      if 0 <=? length then
        Ok (None, set_bulk_len (set_state p RDBP_READ_BULK) (ulong_of length))
      else if length =? -1 then completed (_reply_completed p SVundef)
      else Ok (Some 0, p)
  | RDBP_READ_BULK =>
      if sv_len (buffer p) <? ulong_of (2 + bulk_len p) then Ok (Some 0, p) else
      let pv := buffer p in
      let bulk := newSVpvn pv (bulk_len p) in
      let p := set_buffer p (sv_chop pv (bulk_len p + 2)) in
      if utf8 p then
        match sv_utf8_decode bulk with
        | None => Croak "Received invalid UTF-8 string from the server"
        | Some bulk => completed (_reply_completed p bulk)
        end
      else completed (_reply_completed p bulk)
  | RDBP_READ_MBLK_LEN =>
      '(length, buf) <- _read_length (buffer p) ;;
      let p := set_buffer p buf in
      if 0 <? length then
        Ok (None, set_mblk_reply
                    (set_state (set_mblk_len p (ulong_of length)) RDBP_WAIT_BUCKS)
                    (Some newAV))
      else if (length =? 0) || (length =? -1) then
        let mblk := if length =? 0 then SVrv_av newAV else SVundef in
        let p := set_mblk_level p (int_of (mblk_level p - 1)) in
        p <- (if 0 <? mblk_level p then _mblk_status_fetch p else Ok p) ;;
        completed (_reply_completed p mblk)
      else Ok (Some 0, p)
  | RDBP_WAIT_BUCKS =>
      match buffer p with
      | [] => Fault OutOfBounds
      | op :: rest =>
          let p := set_buffer p rest in
          if (op =? "$")%char then Ok (None, set_state p RDBP_READ_BULK_LEN)
          else if (op =? ":")%char then Ok (None, set_state p RDBP_READ_NUMBER)
          else if (op =? "+")%char then Ok (None, set_state p RDBP_READ_LINE)
          else if (op =? "-")%char then Ok (None, set_state p RDBP_READ_ERROR)
          else if (op =? "*")%char then
            Ok (None, _mblk_status_store
                        (set_mblk_level (set_state p RDBP_READ_MBLK_LEN)
                                        (int_of (mblk_level p + 1))))
          else Croak "Invalid multi-bulk reply. Expected [$:+-*] but got something else"
      end
  | RDBP_CLEAN => Ok (None, p)      (* no branch of the if-chain applies *)
  end.

(** [while (1) { ... }] *)
Fixpoint parse_loop (fuel : nat) (p : RDB_parser) : result (Z * RDB_parser) :=
  match fuel with
  | O => OutOfFuel
  | S fuel' =>
      '(rv, p) <- loop_body p ;;
      match rv with
      | Some rv => Ok (rv, p)
      | None => parse_loop fuel' p
      end
  end.

(** The block guarded by [parser->state == RDBP_CLEAN]. *)
Definition read_op (p : RDB_parser) : result RDB_parser :=
  let p := set_mblk_level p 0 in
  match buffer p with
  | [] => Fault OutOfBounds
  | op :: rest =>
      let p := set_buffer p rest in
      if (op =? "+")%char then Ok (set_state p RDBP_READ_LINE)
      else if (op =? "-")%char then Ok (set_state p RDBP_READ_ERROR)
      else if (op =? ":")%char then Ok (set_state p RDBP_READ_NUMBER)
      else if (op =? "$")%char then Ok (set_state p RDBP_READ_BULK_LEN)
      else if (op =? "*")%char then
        Ok (set_mblk_level (set_state p RDBP_READ_MBLK_LEN) 1)
      else Croak "Got invalid reply"
  end.

(** Every pass of the loop that does not return shortens the buffer, so
    one more pass than the buffer has bytes is enough. *)
Definition rdb_parser__parse_reply (p : RDB_parser) : result (Z * RDB_parser) :=
  if sv_len (buffer p) =? 0 then Ok (0, p) else
  p <- (match state p with
        | RDBP_CLEAN => read_op p
        | _ => Ok p
        end) ;;
  parse_loop (S (List.length (buffer p))) p.

(** ** [rdb_parser__init]

    [Newx] does not clear the memory it returns and the function does not
    assign [mblk_level], [mblk_len] and [bulk_len]: their first values are
    whatever the memory held, given here as [junk]. *)
Definition rdb_parser__init (redisdb : client) (utf8 : bool) (junk : Z * Z * Z)
  : RDB_parser :=
  let '(level, len, blen) := junk in
  Parser utf8 redisdb [] None [] RDBP_CLEAN level None [] len blen [].

(** ** The loop of [rdb_parser__parse_reply] as a relation

    [loops p r]: started at [p], the [while] loop leaves the function with
    the outcome [r]. *)

Inductive loops : RDB_parser -> result (Z * RDB_parser) -> Prop :=
| loops_return p rv p' :
    loop_body p = Ok (Some rv, p') -> loops p (Ok (rv, p'))
| loops_again p p' r :
    loop_body p = Ok (None, p') -> loops p' r -> loops p r
| loops_croak p msg :
    loop_body p = Croak msg -> loops p (Croak msg)
| loops_fault p f :
    loop_body p = Fault f -> loops p (Fault f).

(** ** The driver

    The client appends what it read from the socket to the buffer and calls
    [rdb_parser__parse_reply] until it returns 0. *)

Fixpoint drain_loop (fuel : nat) (p : RDB_parser) : result RDB_parser :=
  match fuel with
  | O => OutOfFuel
  | S fuel' =>
      '(rv, p) <- rdb_parser__parse_reply p ;;
      if rv =? 0 then Ok p else drain_loop fuel' p
  end.

Definition drain (p : RDB_parser) : result RDB_parser :=
  drain_loop (S (List.length (buffer p))) p.

Definition append (p : RDB_parser) (chunk : bytes) : RDB_parser :=
  set_buffer p (buffer p ++ chunk).

Definition feed (p : RDB_parser) (chunk : bytes) : result RDB_parser :=
  drain (append p chunk).

Fixpoint feed_all (p : RDB_parser) (chunks : list bytes) : result RDB_parser :=
  match chunks with
  | [] => Ok p
  | chunk :: chunks' => p <- feed p chunk ;; feed_all p chunks'
  end.

(** What the client does with a parser, one step at a time.  Modelled from
    the spec: the glue that appends to the buffer, pushes a callback and sets
    the default callback is not in [parser.c]. *)
Inductive driver_op : Type :=
| Append (chunk : list ascii)
| PushCallback (cb : CV)
| SetDefaultCallback (cb : option CV)
| ParseReply.

(** [run ops p] performs [ops] in order and counts the calls of
    [rdb_parser__parse_reply] that returned 1. *)
Fixpoint run (ops : list driver_op) (p : RDB_parser) : result (nat * RDB_parser) :=
  match ops with
  | [] => Ok (O, p)
  | Append chunk :: ops' => run ops' (append p chunk)
  | PushCallback cb :: ops' => run ops' (set_callbacks p (callbacks p ++ [cb]))
  | SetDefaultCallback cb :: ops' => run ops' (set_default_cb p cb)
  | ParseReply :: ops' =>
      '(rv, p) <- rdb_parser__parse_reply p ;;
      '(n, p) <- run ops' p ;;
      Ok (if rv =? 0 then n else S n, p)
  end.

(** The bytes a run appends. *)
Fixpoint appended (ops : list driver_op) : Z :=
  match ops with
  | [] => 0
  | Append chunk :: ops' => sv_len chunk + appended ops'
  | _ :: ops' => appended ops'
  end.

(** ** The wire format

    [find_crlf b] is the offset of the first CR LF in [b]. *)

Fixpoint find_crlf (b : bytes) : option nat :=
  match b with
  | [] => None
  | c :: tl =>
      match tl with
      | [] => None
      | c1 :: _ =>
          if (c =? CR)%char && (c1 =? LF)%char then Some O
          else option_map S (find_crlf tl)
      end
  end.

(** A CR LF stands at offset [k] of [b]. *)
Definition crlf_at (b : bytes) (k : nat) : Prop :=
  nth_error b k = Some CR /\ nth_error b (S k) = Some LF.

(** Decimal notation, most significant digit first. *)
Definition digit_char (d : Z) : byte := ascii_of_N (Z.to_N (48 + d)).

Fixpoint dec_digits (fuel : nat) (n : Z) (acc : bytes) : bytes :=
  match fuel with
  | O => acc
  | S fuel' =>
      let acc := digit_char (n mod 10) :: acc in
      if n <? 10 then acc else dec_digits fuel' (n / 10) acc
  end.

Definition dec_fuel (n : Z) : nat := S (Z.to_nat (Z.log2 n)).

Definition decimal (n : Z) : bytes :=
  if n <? 0 then "-"%char :: dec_digits (dec_fuel (- n)) (- n) []
  else dec_digits (dec_fuel n) n [].

(** A line that is a signed base-10 integer: an optional sign and at least
    one digit; [n] is the number it denotes. *)
Definition decimal_value (digits : bytes) : Z :=
  fold_left (fun acc c => acc * 10 + (code c - 48)) digits 0.

Definition is_integer_line (line : bytes) (n : Z) : Prop :=
  exists digits,
    digits <> [] /\ forallb isdigit digits = true /\
    ((line = digits /\ n = decimal_value digits) \/
     (line = "+"%char :: digits /\ n = decimal_value digits) \/
     (line = "-"%char :: digits /\ n = - decimal_value digits)).

(** Replies, as the protocol has them. *)
Inductive reply : Type :=
| SimpleString (line : bytes)
| Error (line : bytes)
| Integer (n : Z)
| Bulk (payload : bytes)
| NilBulk
| Array (items : list reply)
| NilArray.

Fixpoint encode (r : reply) : bytes :=
  match r with
  | SimpleString line => "+"%char :: line ++ CRLF
  | Error line => "-"%char :: line ++ CRLF
  | Integer n => ":"%char :: decimal n ++ CRLF
  | Bulk payload =>
      "$"%char :: decimal (sv_len payload) ++ CRLF ++ payload ++ CRLF
  | NilBulk => "$"%char :: decimal (-1) ++ CRLF
  | Array items =>
      "*"%char :: decimal (Z.of_nat (List.length items)) ++ CRLF
               ++ List.concat (map encode items)
  | NilArray => "*"%char :: decimal (-1) ++ CRLF
  end.

Definition stream (rs : list reply) : bytes := List.concat (map encode rs).

(** What the server may send to a parser whose UTF-8 mode is [u]: lines
    hold no CR LF, integers fit a [long], and in UTF-8 mode bulk payloads
    are valid. *)
Fixpoint valid_reply (u : bool) (r : reply) : bool :=
  match r with
  | SimpleString line | Error line =>
      match find_crlf line with None => true | Some _ => false end
  | Integer n => (LONG_MIN <=? n) && (n <=? LONG_MAX)
  | Bulk payload => if u then is_utf8_string payload else true
  | NilBulk | NilArray => true
  | Array items => forallb (valid_reply u) items
  end.

(** The Perl value a reply is delivered as. *)
Fixpoint reply_sv (u : bool) (r : reply) : SV :=
  match r with
  | SimpleString line => SVpv line false
  | Error line => SVerror (SVpv line false)
  | Integer n => SViv n
  | Bulk payload =>
      SVpv payload (if u then existsb (fun c => 128 <=? code c) payload else false)
  | NilBulk | NilArray => SVundef
  | Array items => SVrv_av (map (reply_sv u) items)
  end.

(** [mblk_level] after the reply has been delivered at top level. *)
Definition level_after (r : reply) : Z :=
  match r with
  | Array (_ :: _) => 1
  | _ => 0
  end.

(** The callbacks [n] deliveries take from the queue, and the calls they
    make. *)
Fixpoint deliveries (self : client) (cbs : list CV) (dflt : option CV)
         (replies : list SV) : option (list call) :=
  match replies with
  | [] => Some []
  | v :: replies' =>
      match cbs with
      | cb :: cbs' =>
          option_map (cons (Call cb self v)) (deliveries self cbs' dflt replies')
      | [] =>
          match dflt with
          | Some cb =>
              option_map (cons (Call cb self v)) (deliveries self [] dflt replies')
          | None => None
          end
      end
  end.

(** The type tag and the state it selects. *)
Definition op_state (op : byte) : option rdbp_state :=
  if (op =? "+")%char then Some RDBP_READ_LINE
  else if (op =? "-")%char then Some RDBP_READ_ERROR
  else if (op =? ":")%char then Some RDBP_READ_NUMBER
  else if (op =? "$")%char then Some RDBP_READ_BULK_LEN
  else if (op =? "*")%char then Some RDBP_READ_MBLK_LEN
  else None.

(** A parser between two replies. *)
Definition idle (p : RDB_parser) : Prop :=
  state p = RDBP_CLEAN /\ mblk_reply p = None /\ mblk_store p = [].

(** A delivery: one call, to the head of the queue or to the default
    callback. *)
Definition delivered (p p' : RDB_parser) : Prop :=
  exists reply,
    match callbacks p with
    | cb :: rest =>
        callbacks p' = rest /\ default_cb p' = default_cb p /\
        calls p' = calls p ++ [Call cb (redisdb p) reply]
    | [] =>
        exists cb, default_cb p = Some cb /\
        callbacks p' = [] /\ default_cb p' = Some cb /\
        calls p' = calls p ++ [Call cb (redisdb p) reply]
    end.

Definition undelivered (p p' : RDB_parser) : Prop :=
  callbacks p' = callbacks p /\ default_cb p' = default_cb p /\
  calls p' = calls p.

(** [bulk_len] is meaningful in the state [RDBP_READ_BULK]: it was set
    from a non-negative [long]. *)
Definition bulk_ok (p : RDB_parser) : Prop :=
  state p = RDBP_READ_BULK -> 0 <= bulk_len p <= LONG_MAX.

(** [drains p r]: calling [rdb_parser__parse_reply] until it returns 0,
    from [p], ends with the outcome [r]. *)
Inductive drains : RDB_parser -> result RDB_parser -> Prop :=
| drains_done p p' :
    rdb_parser__parse_reply p = Ok (0, p') -> drains p (Ok p')
| drains_more p rv p' r :
    rdb_parser__parse_reply p = Ok (rv, p') -> rv <> 0 -> drains p' r ->
    drains p r
| drains_croak p msg :
    rdb_parser__parse_reply p = Croak msg -> drains p (Croak msg)
| drains_fault p f :
    rdb_parser__parse_reply p = Fault f -> drains p (Fault f).

(** The block at the head of [rdb_parser__parse_reply]. *)
Definition enter (p : RDB_parser) : result RDB_parser :=
  match state p with
  | RDBP_CLEAN => read_op p
  | _ => Ok p
  end.

(** A parser on which [rdb_parser__parse_reply] has nothing to do. *)
Definition stalled (p : RDB_parser) : Prop :=
  rdb_parser__parse_reply p = Ok (0, p).

(** [bulk_len] after a reply has been read: the length of the last bulk
    string in it, if any. *)
Fixpoint bulk_len_after (r : reply) (bl : Z) : Z :=
  match r with
  | Bulk payload => sv_len payload
  | Array items => fold_left (fun bl r => bulk_len_after r bl) items bl
  | _ => bl
  end.

(** The second half of [_reply_completed]: the parser is set to
    [RDBP_CLEAN] and the callback is called. *)
Definition deliver (p : RDB_parser) (reply : SV) : result (Z * RDB_parser) :=
  let p := set_state p RDBP_CLEAN in
  match callbacks p with
  | cb :: rest => Ok (1, call_sv (set_callbacks p rest) cb reply)
  | [] =>
      match default_cb p with
      | Some cb => Ok (1, call_sv p cb reply)
      | None => Croak "No callbacks in the queue and no default callback set"
      end
  end.

(** After a pass of the loop with the outcome [c], the function ends with
    [res]. *)
Definition then_loops (c : result (option Z * RDB_parser))
  (res : result (Z * RDB_parser)) : Prop :=
  match c with
  | Ok (Some rv, q) => res = Ok (rv, q)
  | Ok (None, q) => loops q res
  | Croak m => res = Croak m
  | Fault f => res = Fault f
  | OutOfFuel => False
  end.

(** The fields a top-level reply leaves in the parser. *)
Definition mblk_reply_after (r : reply) (mr : option (list SV)) :=
  match r with
  | Array (_ :: _) => None
  | _ => mr
  end.

Definition mblk_len_after (r : reply) (ml : Z) : Z :=
  match r with
  | Array (_ :: _) => 1
  | _ => ml
  end.

(** Reading the reply [r] as an item of an array: the loop, started in
    [RDBP_WAIT_BUCKS] at the bytes of [r], goes on as [_reply_completed]
    decides once it is given the value of [r]. *)
Definition item_ok (r : reply) : Prop :=
  forall u self cbs d rest lvl mr ms ml bl cl res,
    valid_reply u r = true ->
    1 <= lvl -> lvl + sv_len (encode r ++ rest) <= INT_MAX ->
    then_loops
      (completed
         (_reply_completed
            (Parser u self cbs d rest RDBP_WAIT_BUCKS lvl mr ms ml
                    (bulk_len_after r bl) cl)
            (reply_sv u r)))
      res ->
    loops (Parser u self cbs d (encode r ++ rest) RDBP_WAIT_BUCKS lvl mr ms ml
                  bl cl)
          res.

(** ** Well-formed parsers

    Inside a multi-bulk reply [mblk_level] counts the array that is being
    read and the frames on the stack, and every frame holds the array it
    suspended. *)
Definition frame_ok (s : rdbp_mblk_store) : bool :=
  match store_mblk_reply s with Some _ => true | None => false end.

Definition depth (p : RDB_parser) : Z := Z.of_nat (List.length (mblk_store p)).

Definition nested (p : RDB_parser) : Prop :=
  mblk_level p = 1 + depth p /\ forallb frame_ok (mblk_store p) = true.

Definition in_array (p : RDB_parser) : Prop :=
  nested p /\ mblk_reply p <> None.

Definition top_level (p : RDB_parser) : Prop :=
  mblk_level p = 0 /\ mblk_store p = [].

Definition well_formed (p : RDB_parser) : Prop :=
  bulk_ok p /\
  match state p with
  | RDBP_CLEAN => mblk_store p = []
  | RDBP_READ_MBLK_LEN => nested p
  | RDBP_WAIT_BUCKS => in_array p
  | _ => top_level p \/ in_array p
  end.

(** A well-formed parser whose stack and buffer fit in [bound]: every frame
    pushed on the stack has taken a byte from the buffer. *)
Definition within (bound : Z) (p : RDB_parser) : Prop :=
  well_formed p /\ depth p + sv_len (buffer p) <= bound.

(** The messages [rdb_parser__parse_reply] croaks with on bytes it does not
    accept, on a completed reply nobody waits for and on a bulk string that
    is not valid UTF-8. *)
Definition fatal : list string :=
  ["Got invalid reply";
   "Invalid multi-bulk reply. Expected [$:+-*] but got something else";
   "Received invalid UTF-8 string from the server";
   "No callbacks in the queue and no default callback set"]%string.

(** [safely P r]: the outcome [r] is a value that satisfies [P] or one of
    these errors; it is neither a fault nor another error. *)
Definition safely {A : Type} (P : A -> Prop) (r : result A) : Prop :=
  match r with
  | Ok a => P a
  | Croak msg => In msg fatal
  | Fault _ => False
  | OutOfFuel => False
  end.

(** ** The fields a parser reads before it assigns them

    [mblk_level] is assigned when a reply is entered from [RDBP_CLEAN],
    [bulk_len] when [RDBP_READ_BULK] is entered, [mblk_len] when the header
    of an array has been read or its frame is fetched from the stack.
    [live p] is [p] with 0 in the fields whose next use is an assignment. *)
Definition mblk_len_dead (p : RDB_parser) : bool :=
  match state p with
  | RDBP_CLEAN => true
  | RDBP_READ_MBLK_LEN => mblk_level p =? 1
  | RDBP_WAIT_BUCKS => false
  | _ => mblk_level p =? 0
  end.

Definition live (p : RDB_parser) : RDB_parser :=
  Parser (utf8 p) (redisdb p) (callbacks p) (default_cb p) (buffer p) (state p)
         (match state p with RDBP_CLEAN => 0 | _ => mblk_level p end)
         (mblk_reply p) (mblk_store p)
         (if mblk_len_dead p then 0 else mblk_len p)
         (match state p with RDBP_READ_BULK => bulk_len p | _ => 0 end)
         (calls p).

(** ** Deliveries

    [mblk_level] after a delivery of the value [v]: 1 when [v] is an array
    with items, which [_mblk_item] has completed at level 1, and 0 for any
    other value, which is delivered at level 0. *)
Definition level_of_value (v : SV) : Z :=
  match v with
  | SVrv_av (_ :: _) => 1
  | _ => 0
  end.

(** A well-formed parser that holds no array where none is being filled. *)
Definition settled (p : RDB_parser) : Prop :=
  well_formed p /\
  match state p with
  | RDBP_CLEAN | RDBP_READ_MBLK_LEN => mblk_reply p = None
  | RDBP_WAIT_BUCKS => True
  | _ => mblk_level p = 0 -> mblk_reply p = None
  end.

(** What the call that delivers the value [v] leaves of the parser [p]: the
    state [RDBP_CLEAN], no array and no frame, and one call more, with the
    client and [v], to the head of the queue, which is removed, or else to
    the default callback, which stays. *)
Definition delivers (p : RDB_parser) (v : SV) (p' : RDB_parser) : Prop :=
  state p' = RDBP_CLEAN /\ mblk_store p' = [] /\ mblk_reply p' = None /\
  mblk_level p' = level_of_value v /\
  match callbacks p with
  | cb :: rest =>
      callbacks p' = rest /\ default_cb p' = default_cb p /\
      calls p' = calls p ++ [Call cb (redisdb p) v]
  | [] =>
      exists cb, default_cb p = Some cb /\
      callbacks p' = [] /\ default_cb p' = Some cb /\
      calls p' = calls p ++ [Call cb (redisdb p) v]
  end.

(** ** Sample data

    [seven_bit] stands for [is_utf8_string] where a concrete validity test is
    needed: it accepts the strings that hold no byte above 127. *)
Definition seven_bit (s : list ascii) : bool :=
  forallb (fun c => code c <? 128) s.

(** A parser as [rdb_parser__init] returns it, with callbacks installed and
    bytes in the buffer. *)
Definition sample_parser (cbs : list CV) (dflt : option CV) (buf : list ascii)
  : RDB_parser :=
  set_buffer
    (set_default_cb (set_callbacks (rdb_parser__init 7%nat false (5, 6, 7)) cbs)
                    dflt)
    buf.

Definition sample_replies : list reply :=
  [Array [Array [Integer 1; Integer 2]; Bulk (bytes_of "foo"); NilArray];
   SimpleString (bytes_of "A"); Integer (-7)].

(** The parser after it has delivered [*1 CR LF :1 CR LF] and found [+OK]
    behind it. *)
Definition sample_after_array : RDB_parser :=
  Parser false 7%nat [] (Some 1%nat) (bytes_of "+OK") RDBP_CLEAN 1 None [] 1 7
         [Call 1%nat 7%nat (SVrv_av [SViv 1])].

(** A parser at the header [-1] of an array nested in an array that has the
    item 4 and expects two more. *)
Definition sample_nested_header : RDB_parser :=
  Parser false 7%nat [] (Some 1%nat)
         (bytes_of "-1" ++ CRLF ++ bytes_of ":5" ++ CRLF)
         RDBP_READ_MBLK_LEN 2 None [MblkStore (Some [SViv 4]) 2] 2 7 [].

(** A parser that waits for the next item of an array, at the tag of a
    nested array. *)
Definition sample_waiting : RDB_parser :=
  Parser false 7%nat [] None (bytes_of "*2" ++ CRLF) RDBP_WAIT_BUCKS 1
         (Some [SViv 4]) [] 2 7 [].

(** A parser that finds an integer reply and the start of another reply,
    and the parser after the call that delivers the integer. *)
Definition sample_integer : RDB_parser :=
  sample_parser [1%nat] None (bytes_of ":12" ++ CRLF ++ bytes_of "+O").

Definition sample_integer_done : RDB_parser :=
  Parser false 7%nat [] None (bytes_of "+O") RDBP_CLEAN 0 None [] 6 7
         [Call 1%nat 7%nat (SViv 12)].

(** A bulk header with the length -2, followed by bytes that read as the
    header and the payload of a bulk string; the parser after the call that
    drops the header, and after the next call. *)
Definition sample_bad_length : RDB_parser :=
  sample_parser [1%nat] None
    (bytes_of "$-2" ++ CRLF ++ bytes_of "3" ++ CRLF ++ bytes_of "abc" ++ CRLF).

Definition sample_bad_length_dropped : RDB_parser :=
  Parser false 7%nat [1%nat] None
         (bytes_of "3" ++ CRLF ++ bytes_of "abc" ++ CRLF)
         RDBP_READ_BULK_LEN 0 None [] 6 7 [].

Definition sample_bad_length_next : RDB_parser :=
  Parser false 7%nat [] None [] RDBP_CLEAN 0 None [] 6 3
         [Call 1%nat 7%nat (SVpv (bytes_of "abc") false)].

(** Chunks of bytes that no server sends: an integer with a plus sign, a
    length with a leading zero, a payload that is not followed by CR LF.
    The parser they leave. *)
Definition sample_chunks : list (list ascii) :=
  [bytes_of ":+1"; bytes_of "2" ++ [CR];
   [LF] ++ bytes_of "$03" ++ CRLF ++ bytes_of "abcXY"].

Definition sample_chunks_fed : RDB_parser :=
  Parser false 7%nat [] (Some 1%nat) [] RDBP_CLEAN 0 None [] 6 3
         [Call 1%nat 7%nat (SViv 12);
          Call 1%nat 7%nat (SVpv (bytes_of "abc") false)].

(** The parser after [sample_nested_header] has been completed. *)
Definition sample_nested_done : RDB_parser :=
  Parser false 7%nat [] (Some 1%nat) [] RDBP_CLEAN 1 None [] 1 7
         [Call 1%nat 7%nat (SVrv_av [SViv 4; SVundef; SViv 5])].

(** A client that gets an array of two items of which the second is no
    reply. *)
Definition sample_ops : list driver_op :=
  [PushCallback 1%nat;
   Append (bytes_of "*2" ++ CRLF ++ bytes_of ":1" ++ CRLF); ParseReply;
   Append (bytes_of "xy"); ParseReply].

(** A bulk string of two bytes that are not 7-bit, for a parser in byte
    mode. *)
Definition sample_bytes : RDB_parser :=
  sample_parser [1%nat] None
    (bytes_of "$2" ++ CRLF ++ ["195"; "169"]%char ++ CRLF).

(** [sample_waiting] after the header of the nested array has been read. *)
Definition sample_waiting_nested : RDB_parser :=
  Parser false 7%nat [] None [] RDBP_WAIT_BUCKS 2 (Some [])
         [MblkStore (Some [SViv 4]) 2] 2 7 [].

(** A parser at the last item of an array that is itself the last item of
    the array [4, ...]. *)
Definition sample_last_items : RDB_parser :=
  Parser false 7%nat [] (Some 1%nat) [] RDBP_READ_NUMBER 2 (Some [SViv 8])
         [MblkStore (Some [SViv 4]) 1] 1 7 [].

(** A client that queues a callback and gets an array of one bulk string. *)
Definition sample_ops_array : list driver_op :=
  [PushCallback 1%nat;
   Append (bytes_of "*1" ++ CRLF ++ bytes_of "$2" ++ CRLF);
   ParseReply; Append (bytes_of "ab" ++ CRLF); ParseReply].

(** * Proofs *)

Arguments decimal n : simpl never.
Arguments CRLF : simpl never.

(** ** C arithmetic *)

Lemma size_t_of_small x : 0 <= x < 2 ^ 64 -> size_t_of x = x.
Proof. intros H. unfold size_t_of. now apply Z.mod_small. Qed.

Lemma ulong_of_small x : 0 <= x < 2 ^ 64 -> ulong_of x = x.
Proof. intros H. unfold ulong_of. now apply Z.mod_small. Qed.

Lemma int_of_small x : - 2 ^ 31 <= x < 2 ^ 31 -> int_of x = x.
Proof. intros H. unfold int_of. rewrite Z.mod_small; lia. Qed.

Lemma sv_len_nonneg b : 0 <= sv_len b.
Proof. unfold sv_len. lia. Qed.

Lemma sv_len_app b c : sv_len (b ++ c) = sv_len b + sv_len c.
Proof. unfold sv_len. rewrite length_app. lia. Qed.

Lemma sv_len_cons c b : sv_len (c :: b) = 1 + sv_len b.
Proof. unfold sv_len. simpl List.length. lia. Qed.

(** ** The record *)

Lemma set_buffer_same p : set_buffer p (buffer p) = p.
Proof. now destruct p. Qed.

Lemma append_nil p : append p [] = p.
Proof. unfold append. rewrite app_nil_r. apply set_buffer_same. Qed.

Lemma append_append p b c : append (append p b) c = append p (b ++ c).
Proof. unfold append. simpl. now rewrite app_assoc. Qed.

(** ** [find_crlf] *)

Lemma find_crlf_cons c c1 tl :
  find_crlf (c :: c1 :: tl) =
  if (c =? CR)%char && (c1 =? LF)%char then Some O
  else option_map S (find_crlf (c1 :: tl)).
Proof. reflexivity. Qed.

Lemma find_crlf_bound b k : find_crlf b = Some k -> (k + 2 <= List.length b)%nat.
Proof.
  revert k. induction b as [|c tl IH]; intros k H; [discriminate|].
  destruct tl as [|c1 tl']; [discriminate|].
  rewrite find_crlf_cons in H.
  destruct ((c =? CR)%char && (c1 =? LF)%char).
  - injection H as <-. simpl. lia.
  - destruct (find_crlf (c1 :: tl')) as [j|] eqn:E; [|discriminate].
    injection H as <-. specialize (IH j eq_refl). simpl in *. lia.
Qed.

Lemma find_crlf_app b more k :
  find_crlf b = Some k -> find_crlf (b ++ more) = Some k.
Proof.
  revert k. induction b as [|c tl IH]; intros k H; [discriminate|].
  destruct tl as [|c1 tl']; [discriminate|].
  rewrite find_crlf_cons in H.
  change ((c :: c1 :: tl') ++ more) with (c :: c1 :: (tl' ++ more)).
  rewrite find_crlf_cons.
  destruct ((c =? CR)%char && (c1 =? LF)%char); [exact H|].
  destruct (find_crlf (c1 :: tl')) as [j|] eqn:E; [|discriminate].
  injection H as <-.
  change (c1 :: tl' ++ more) with ((c1 :: tl') ++ more).
  now rewrite (IH j eq_refl).
Qed.

Lemma find_crlf_line line rest :
  find_crlf line = None ->
  find_crlf (line ++ CRLF ++ rest) = Some (List.length line).
Proof.
  induction line as [|c tl IH]; intros H.
  - reflexivity.
  - destruct tl as [|c1 tl'].
    + change (find_crlf (c :: CR :: LF :: rest) = Some 1%nat).
      rewrite find_crlf_cons.
      replace ((CR =? LF)%char) with false by reflexivity.
      rewrite andb_false_r. reflexivity.
    + rewrite find_crlf_cons in H.
      change ((c :: c1 :: tl') ++ CRLF ++ rest)
        with (c :: c1 :: (tl' ++ CRLF ++ rest)).
      rewrite find_crlf_cons.
      destruct ((c =? CR)%char && (c1 =? LF)%char); [discriminate|].
      destruct (find_crlf (c1 :: tl')) eqn:E; [discriminate|].
      change (c1 :: tl' ++ CRLF ++ rest) with ((c1 :: tl') ++ CRLF ++ rest).
      now rewrite (IH eq_refl).
Qed.

Lemma crlf_at_cons c b k : crlf_at (c :: b) (S k) <-> crlf_at b k.
Proof. unfold crlf_at. simpl. tauto. Qed.

Lemma crlf_at_0 c c1 b :
  crlf_at (c :: c1 :: b) 0 <-> (c =? CR)%char && (c1 =? LF)%char = true.
Proof.
  unfold crlf_at. simpl. rewrite andb_true_iff, !Ascii.eqb_eq.
  split; intros [H1 H2]; split; congruence.
Qed.

Lemma find_crlf_some b k :
  find_crlf b = Some k <->
  crlf_at b k /\ forall j, (j < k)%nat -> ~ crlf_at b j.
Proof.
  revert k. induction b as [|c tl IH]; intros k.
  - simpl. split; [discriminate|]. intros [[H _] _]. now destruct k.
  - destruct tl as [|c1 tl'].
    + simpl. split; [discriminate|]. intros [[_ H] _]. now destruct k.
    + rewrite find_crlf_cons.
      destruct ((c =? CR)%char && (c1 =? LF)%char) eqn:E.
      * split.
        -- intros H. injection H as <-. split; [now apply crlf_at_0|]. lia.
        -- intros [H1 H2]. destruct k; [reflexivity|].
           exfalso. apply (H2 O); [lia|]. now apply crlf_at_0.
      * destruct k as [|k].
        -- split.
           ++ destruct (find_crlf (c1 :: tl')); discriminate.
           ++ intros [H _]. apply crlf_at_0 in H. congruence.
        -- specialize (IH k). split.
           ++ intros H. destruct (find_crlf (c1 :: tl')) as [j|]; [|discriminate].
              injection H as ->. destruct IH as [[IH1 IH2] _]; [reflexivity|].
              split; [now apply crlf_at_cons|].
              intros [|j] Hj.
              ** rewrite crlf_at_0. congruence.
              ** rewrite crlf_at_cons. apply IH2. lia.
           ++ intros [H1 H2]. destruct IH as [_ IH].
              rewrite IH; [reflexivity|]. split.
              ** now apply crlf_at_cons in H1.
              ** intros j Hj. rewrite <- (crlf_at_cons c). apply H2. lia.
Qed.

Lemma find_crlf_none b : find_crlf b = None <-> forall k, ~ crlf_at b k.
Proof.
  split.
  - intros H k. induction k as [k IH] using lt_wf_ind. intros Hk.
    assert (find_crlf b = Some k) by (apply find_crlf_some; split; auto).
    congruence.
  - intros H. destruct (find_crlf b) as [k|] eqn:E; [|reflexivity].
    apply find_crlf_some in E. destruct E as [E _]. now apply H in E.
Qed.

(** ** [_line_length] finds the first CR LF *)

Lemma line_scan_find pos : forall off,
  0 <= off -> 1 <= off + sv_len pos <= INT_MAX ->
  line_scan pos off off (off + sv_len pos) =
  Ok (match find_crlf pos with
      | Some k => off + Z.of_nat k
      | None => -1
      end).
Proof.
  unfold INT_MAX.
  induction pos as [|c tl IH]; intros off Hoff Hlen.
  - change (sv_len []) with 0 in *. simpl.
    rewrite !size_t_of_small by lia.
    destruct (off <? off + 0 - 1) eqn:E; [lia|reflexivity].
  - rewrite sv_len_cons in *.
    pose proof (sv_len_nonneg tl) as Htl.
    cbn [line_scan]. rewrite !size_t_of_small by lia.
    destruct tl as [|c1 tl'].
    + change (sv_len []) with 0 in *.
      destruct (off <? off + (1 + 0) - 1) eqn:E; [lia|reflexivity].
    + rewrite find_crlf_cons.
      assert (E : (off <? off + (1 + sv_len (c1 :: tl')) - 1) = true).
      { pose proof (sv_len_nonneg tl'). rewrite sv_len_cons in *. lia. }
      rewrite E. rewrite int_of_small by lia.
      replace (off + (1 + sv_len (c1 :: tl')))
        with (off + 1 + sv_len (c1 :: tl')) by lia.
      rewrite IH by lia.
      destruct (c =? CR)%char; cbn [andb].
      * destruct (c1 =? LF)%char.
        -- f_equal. change (Z.of_nat 0) with 0. lia.
        -- destruct (find_crlf (c1 :: tl')); cbn [option_map]; f_equal; lia.
      * destruct (find_crlf (c1 :: tl')); cbn [option_map]; f_equal; lia.
Qed.

Lemma _line_length_find b :
  1 <= sv_len b <= INT_MAX ->
  _line_length b (sv_len b) =
  Ok (match find_crlf b with Some k => Z.of_nat k | None => -1 end).
Proof.
  intros H. unfold _line_length.
  change (sv_len b) with (0 + sv_len b).
  rewrite line_scan_find by lia.
  now destruct (find_crlf b).
Qed.

(** ** [atol] on the line that [pv[len] = 0] cuts off *)

Lemma poke_firstn b k c :
  (k < List.length b)%nat -> poke b k c = firstn k b ++ c :: skipn (S k) b.
Proof.
  revert k. induction b as [|x tl IH]; intros k H; [simpl in H; lia|].
  destruct k as [|k]; [reflexivity|].
  simpl in H. simpl. f_equal. apply IH. lia.
Qed.

Lemma skipn_poke b k c n :
  (k < n)%nat -> skipn n (poke b k c) = skipn n b.
Proof.
  revert k n. induction b as [|x tl IH]; intros k n H.
  - now destruct k.
  - destruct n as [|n]; [lia|]. destruct k as [|k]; [reflexivity|].
    simpl. apply IH. lia.
Qed.

Lemma skip_space_c_string s : skip_space (c_string s) = c_string (skip_space s).
Proof.
  induction s as [|c tl IH]; [reflexivity|].
  simpl. destruct (c =? NUL)%char eqn:E.
  - apply Ascii.eqb_eq in E. subst c. reflexivity.
  - simpl. destruct (isspace c); [exact IH|]. simpl. now rewrite E.
Qed.

Lemma digits_value_c_string s : forall acc,
  digits_value acc (c_string s) = digits_value acc s.
Proof.
  induction s as [|c tl IH]; intros acc; [reflexivity|].
  simpl. destruct (c =? NUL)%char eqn:E.
  - apply Ascii.eqb_eq in E. subst c. reflexivity.
  - simpl. destruct (isdigit c); [apply IH|reflexivity].
Qed.

Lemma atol_c_string s : atol (c_string s) = atol s.
Proof.
  unfold atol. rewrite skip_space_c_string.
  destruct (skip_space s) as [|c tl]; [reflexivity|].
  simpl. destruct (c =? NUL)%char eqn:E.
  - apply Ascii.eqb_eq in E. subst c. reflexivity.
  - destruct (c =? "-")%char; [now rewrite digits_value_c_string|].
    destruct (c =? "+")%char; [now rewrite digits_value_c_string|].
    simpl. destruct (isdigit c); [now rewrite digits_value_c_string|reflexivity].
Qed.

Lemma digits_value_nul l r : forall acc,
  digits_value acc (l ++ NUL :: r) = digits_value acc l.
Proof.
  induction l as [|c tl IH]; intros acc; [reflexivity|].
  simpl. destruct (isdigit c); [apply IH|reflexivity].
Qed.

Lemma atol_nul l r : atol (l ++ NUL :: r) = atol l.
Proof.
  unfold atol. induction l as [|c tl IH]; [reflexivity|].
  simpl. destruct (isspace c); [exact IH|].
  destruct (c =? "-")%char; [now rewrite digits_value_nul|].
  destruct (c =? "+")%char; [now rewrite digits_value_nul|].
  simpl. destruct (isdigit c); [now rewrite digits_value_nul|reflexivity].
Qed.

Lemma atol_poke b k :
  (k < List.length b)%nat -> atol (c_string (poke b k NUL)) = atol (firstn k b).
Proof.
  intros H. rewrite atol_c_string, poke_firstn by exact H. apply atol_nul.
Qed.

(** ** The three line readers *)

Lemma _read_line_find b :
  1 <= sv_len b <= INT_MAX ->
  _read_line b =
  Ok (match find_crlf b with
      | Some k => (Some (SVpv (firstn k b) false), skipn (k + 2) b)
      | None => (None, b)
      end).
Proof.
  intros H. unfold _read_line. rewrite _line_length_find by exact H.
  destruct (find_crlf b) as [k|]; cbn [bind]; [|reflexivity].
  rewrite (proj2 (Z.leb_le 0 (Z.of_nat k))) by lia.
  unfold newSVpvn, sv_chop. rewrite Nat2Z.id.
  replace (Z.to_nat (Z.of_nat k + 2)) with (k + 2)%nat by lia. reflexivity.
Qed.

Lemma _read_number_find b :
  1 <= sv_len b <= INT_MAX ->
  _read_number b =
  Ok (match find_crlf b with
      | Some k => (Some (SViv (atol (firstn k b))), skipn (k + 2) b)
      | None => (None, b)
      end).
Proof.
  intros H. unfold _read_number. rewrite _line_length_find by exact H.
  destruct (find_crlf b) as [k|] eqn:F; cbn [bind]; [|reflexivity].
  rewrite (proj2 (Z.leb_le 0 (Z.of_nat k))) by lia.
  apply find_crlf_bound in F.
  unfold sv_chop. rewrite Nat2Z.id.
  replace (Z.to_nat (Z.of_nat k + 2)) with (k + 2)%nat by lia.
  rewrite atol_poke by lia. rewrite skipn_poke by lia. reflexivity.
Qed.

Lemma _read_length_find b :
  1 <= sv_len b <= INT_MAX ->
  _read_length b =
  Ok (match find_crlf b with
      | Some k => (atol (firstn k b), skipn (k + 2) b)
      | None => (-2, b)
      end).
Proof.
  intros H. unfold _read_length. rewrite _line_length_find by exact H.
  destruct (find_crlf b) as [k|] eqn:F; cbn [bind]; [|reflexivity].
  rewrite (proj2 (Z.leb_le 0 (Z.of_nat k))) by lia.
  apply find_crlf_bound in F.
  unfold sv_chop. rewrite Nat2Z.id.
  replace (Z.to_nat (Z.of_nat k + 2)) with (k + 2)%nat by lia.
  rewrite atol_poke by lia. rewrite skipn_poke by lia. reflexivity.
Qed.

(** ** Frame properties of the completion cascade

    [_mblk_item] and [_reply_completed] neither read nor write the buffer
    and [bulk_len]; the state they are entered in does not matter to
    [_reply_completed]. *)

Lemma _mblk_item_rec_buffer fuel : forall p v b,
  _mblk_item_rec fuel (set_buffer p b) v =
  rmap (on_parser (fun q => set_buffer q b)) (_mblk_item_rec fuel p v).
Proof.
  induction fuel as [|fuel IH]; intros p v b; [reflexivity|].
  destruct p as [u self cbs d buf st lvl mr ms ml bl cl].
  cbn -[Z.ltb]. destruct mr as [av|]; [|reflexivity].
  cbn -[Z.ltb]. destruct (1 <? ml); [reflexivity|].
  destruct (1 <? lvl); [|reflexivity].
  destruct ms as [|s next]; [reflexivity|].
  cbn -[Z.ltb]. apply (IH (Parser u self cbs d buf st (lvl - 1) (store_mblk_reply s)
                                next (store_mblk_len s) bl cl)).
Qed.

Lemma _mblk_item_rec_state fuel : forall p v s,
  _mblk_item_rec fuel (set_state p s) v =
  rmap (fun x => (fst x, if fst x =? 0 then set_state (snd x) s else snd x))
       (_mblk_item_rec fuel p v).
Proof.
  induction fuel as [|fuel IH]; intros p v s; [reflexivity|].
  destruct p as [u self cbs d buf st lvl mr ms ml bl cl].
  cbn -[Z.ltb]. destruct mr as [av|]; [|reflexivity].
  cbn -[Z.ltb]. destruct (1 <? ml); [reflexivity|].
  destruct (1 <? lvl); [|reflexivity].
  destruct ms as [|s' next]; [reflexivity|].
  cbn -[Z.ltb]. apply (IH (Parser u self cbs d buf st (lvl - 1) (store_mblk_reply s')
                                next (store_mblk_len s') bl cl)).
Qed.

(** What [_mblk_item] returns: 1 with the state [RDBP_WAIT_BUCKS], or 0
    with the state it was entered in and the finished array in
    [mblk_reply]. *)
Lemma _mblk_item_rec_result fuel : forall p v rv p',
  _mblk_item_rec fuel p v = Ok (rv, p') ->
  buffer p' = buffer p /\ bulk_len p' = bulk_len p /\
  callbacks p' = callbacks p /\ default_cb p' = default_cb p /\
  calls p' = calls p /\ redisdb p' = redisdb p /\ utf8 p' = utf8 p /\
  ((rv = 1 /\ state p' = RDBP_WAIT_BUCKS) \/
   (rv = 0 /\ state p' = state p /\ mblk_reply p' <> None)).
Proof.
  induction fuel as [|fuel IH]; intros p v rv p' H; [discriminate|].
  destruct p as [u self cbs d buf st lvl mr ms ml bl cl].
  cbn -[Z.ltb] in H. destruct mr as [av|]; [|discriminate].
  cbn -[Z.ltb] in H. destruct (1 <? ml).
  - injection H as <- <-. cbn. intuition.
  - destruct (1 <? lvl).
    + destruct ms as [|s next]; [discriminate|].
      cbn -[Z.ltb] in H. apply IH in H. cbn in H. exact H.
    + injection H as <- <-. cbn. intuition discriminate.
Qed.

Ltac break_match :=
  repeat match goal with
         | |- context [match ?x with _ => _ end] => destruct x; cbn
         end.

Lemma _reply_completed_buffer p v b :
  _reply_completed (set_buffer p b) v =
  rmap (on_parser (fun q => set_buffer q b)) (_reply_completed p v).
Proof.
  unfold _reply_completed, _mblk_item.
  change (mblk_level (set_buffer p b)) with (mblk_level p).
  change (mblk_store (set_buffer p b)) with (mblk_store p).
  destruct (negb (mblk_level p =? 0)).
  - rewrite _mblk_item_rec_buffer.
    destruct (_mblk_item_rec _ p v) as [[rv q]| | |]; try reflexivity.
    cbn -[Z.eqb]. destruct (negb (rv =? 0)); [reflexivity|].
    destruct q as [u self cbs d buf st lvl mr ms ml bl cl]. cbn.
    destruct mr; [|reflexivity]. cbn.
    destruct cbs; [|reflexivity]. destruct d; reflexivity.
  - destruct p as [u self cbs d buf st lvl mr ms ml bl cl]. cbn.
    destruct cbs; [|reflexivity]. destruct d; reflexivity.
Qed.

Lemma _reply_completed_state p v s :
  _reply_completed (set_state p s) v = _reply_completed p v.
Proof.
  unfold _reply_completed, _mblk_item.
  change (mblk_level (set_state p s)) with (mblk_level p).
  change (mblk_store (set_state p s)) with (mblk_store p).
  destruct (negb (mblk_level p =? 0)).
  - rewrite _mblk_item_rec_state.
    destruct (_mblk_item_rec _ p v) as [[rv q]| | |] eqn:E; try reflexivity.
    cbn -[Z.eqb]. destruct (rv =? 0) eqn:R; cbn -[Z.eqb]; [|reflexivity].
    destruct q as [u self cbs d buf st lvl mr ms ml bl cl]. cbn.
    break_match; reflexivity.
  - destruct p as [u self cbs d buf st lvl mr ms ml bl cl]. reflexivity.
Qed.

Lemma _reply_completed_result p v rv p' :
  _reply_completed p v = Ok (rv, p') ->
  buffer p' = buffer p /\ bulk_len p' = bulk_len p /\
  redisdb p' = redisdb p /\ utf8 p' = utf8 p /\
  ((rv = 0 /\ state p' = RDBP_WAIT_BUCKS /\ undelivered p p') \/
   (rv = 1 /\ state p' = RDBP_CLEAN /\ delivered p p')).
Proof.
  unfold _reply_completed, _mblk_item.
  destruct (negb (mblk_level p =? 0)).
  - destruct (_mblk_item_rec _ p v) as [[r q]| | |] eqn:E; try discriminate.
    apply _mblk_item_rec_result in E.
    destruct E as (E1 & E2 & E3 & E4 & E5 & E6 & E7 & E8).
    cbn -[Z.eqb]. destruct E8 as [[-> E8]|[-> [E8 E9]]]; cbn.
    + intros H. injection H as <- <-. unfold undelivered. intuition.
    + destruct q as [u self cbs d buf st lvl mr ms ml bl cl]. cbn in *.
      destruct mr as [av|]; [|congruence]. cbn.
      unfold delivered. rewrite <- E3, <- E4, <- E5, <- E6.
      destruct cbs as [|cb rest].
      * destruct d as [cb|]; [|discriminate].
        intros H. injection H as <- <-. cbn.
        repeat split; auto. right. repeat split; auto.
        exists (SVrv_av av), cb. auto.
      * intros H. injection H as <- <-. cbn.
        repeat split; auto. right. repeat split; auto.
        exists (SVrv_av av). auto.
  - destruct p as [u self cbs d buf st lvl mr ms ml bl cl]. cbn.
    unfold delivered. cbn.
    destruct cbs as [|cb rest].
    + destruct d as [cb|]; [|discriminate].
      intros H. injection H as <- <-. cbn.
      repeat split; auto. right. repeat split; auto.
      exists v, cb. auto.
    + intros H. injection H as <- <-. cbn.
      repeat split; auto. right. repeat split; auto.
      exists v. auto.
Qed.

(** ** One pass of the loop, state by state *)

Lemma atol_range s : LONG_MIN <= atol s <= LONG_MAX.
Proof.
  unfold atol, saturate_long, LONG_MIN, LONG_MAX.
  destruct (skip_space s) as [|c tl]; [lia|].
  destruct (c =? "-")%char; [lia|]. destruct (c =? "+")%char; lia.
Qed.

Lemma loop_body_short p : sv_len (buffer p) < 2 -> loop_body p = Ok (Some 0, p).
Proof.
  intros H. unfold loop_body.
  now rewrite (proj2 (Z.ltb_lt _ _) H).
Qed.

Lemma loop_body_long p :
  2 <= sv_len (buffer p) ->
  loop_body p =
  match state p with
  | RDBP_READ_LINE =>
      '(line, buf) <- _read_line (buffer p) ;;
      let p := set_buffer p buf in
      match line with
      | None => Ok (Some 0, p)
      | Some line => completed (_reply_completed p line)
      end
  | RDBP_READ_ERROR =>
      '(line, buf) <- _read_line (buffer p) ;;
      let p := set_buffer p buf in
      match line with
      | None => Ok (Some 0, p)
      | Some line => completed (_reply_completed p (_create_rdb_error line))
      end
  | RDBP_READ_NUMBER =>
      '(line, buf) <- _read_number (buffer p) ;;
      let p := set_buffer p buf in
      match line with
      | None => Ok (Some 0, p)
      | Some line => completed (_reply_completed p line)
      end
  | RDBP_READ_BULK_LEN =>
      '(length, buf) <- _read_length (buffer p) ;;
      let p := set_buffer p buf in
      if 0 <=? length then
        Ok (None, set_bulk_len (set_state p RDBP_READ_BULK) (ulong_of length))
      else if length =? -1 then completed (_reply_completed p SVundef)
      else Ok (Some 0, p)
  | RDBP_READ_BULK =>
      if sv_len (buffer p) <? ulong_of (2 + bulk_len p) then Ok (Some 0, p) else
      let pv := buffer p in
      let bulk := newSVpvn pv (bulk_len p) in
      let p := set_buffer p (sv_chop pv (bulk_len p + 2)) in
      if utf8 p then
        match sv_utf8_decode bulk with
        | None => Croak "Received invalid UTF-8 string from the server"
        | Some bulk => completed (_reply_completed p bulk)
        end
      else completed (_reply_completed p bulk)
  | RDBP_READ_MBLK_LEN =>
      '(length, buf) <- _read_length (buffer p) ;;
      let p := set_buffer p buf in
      if 0 <? length then
        Ok (None, set_mblk_reply
                    (set_state (set_mblk_len p (ulong_of length)) RDBP_WAIT_BUCKS)
                    (Some newAV))
      else if (length =? 0) || (length =? -1) then
        let mblk := if length =? 0 then SVrv_av newAV else SVundef in
        let p := set_mblk_level p (int_of (mblk_level p - 1)) in
        p <- (if 0 <? mblk_level p then _mblk_status_fetch p else Ok p) ;;
        completed (_reply_completed p mblk)
      else Ok (Some 0, p)
  | RDBP_WAIT_BUCKS =>
      match buffer p with
      | [] => Fault OutOfBounds
      | op :: rest =>
          let p := set_buffer p rest in
          if (op =? "$")%char then Ok (None, set_state p RDBP_READ_BULK_LEN)
          else if (op =? ":")%char then Ok (None, set_state p RDBP_READ_NUMBER)
          else if (op =? "+")%char then Ok (None, set_state p RDBP_READ_LINE)
          else if (op =? "-")%char then Ok (None, set_state p RDBP_READ_ERROR)
          else if (op =? "*")%char then
            Ok (None, _mblk_status_store
                        (set_mblk_level (set_state p RDBP_READ_MBLK_LEN)
                                        (int_of (mblk_level p + 1))))
          else Croak "Invalid multi-bulk reply. Expected [$:+-*] but got something else"
      end
  | RDBP_CLEAN => Ok (None, p)
  end.
Proof.
  intros H. unfold loop_body.
  now rewrite (proj2 (Z.ltb_ge _ _) H).
Qed.

Lemma body_read_line p :
  state p = RDBP_READ_LINE -> 2 <= sv_len (buffer p) <= INT_MAX ->
  loop_body p =
  match find_crlf (buffer p) with
  | Some k =>
      completed (_reply_completed (set_buffer p (skipn (k + 2) (buffer p)))
                                  (SVpv (firstn k (buffer p)) false))
  | None => Ok (Some 0, p)
  end.
Proof.
  intros S H. rewrite loop_body_long, S by lia.
  rewrite _read_line_find by lia.
  destruct (find_crlf (buffer p)); cbn [bind]; [reflexivity|].
  now rewrite set_buffer_same.
Qed.

Lemma body_read_error p :
  state p = RDBP_READ_ERROR -> 2 <= sv_len (buffer p) <= INT_MAX ->
  loop_body p =
  match find_crlf (buffer p) with
  | Some k =>
      completed (_reply_completed (set_buffer p (skipn (k + 2) (buffer p)))
                                  (SVerror (SVpv (firstn k (buffer p)) false)))
  | None => Ok (Some 0, p)
  end.
Proof.
  intros S H. rewrite loop_body_long, S by lia.
  rewrite _read_line_find by lia.
  destruct (find_crlf (buffer p)); cbn [bind]; [reflexivity|].
  now rewrite set_buffer_same.
Qed.

Lemma body_read_number p :
  state p = RDBP_READ_NUMBER -> 2 <= sv_len (buffer p) <= INT_MAX ->
  loop_body p =
  match find_crlf (buffer p) with
  | Some k =>
      completed (_reply_completed (set_buffer p (skipn (k + 2) (buffer p)))
                                  (SViv (atol (firstn k (buffer p)))))
  | None => Ok (Some 0, p)
  end.
Proof.
  intros S H. rewrite loop_body_long, S by lia.
  rewrite _read_number_find by lia.
  destruct (find_crlf (buffer p)); cbn [bind]; [reflexivity|].
  now rewrite set_buffer_same.
Qed.

Lemma body_read_bulk_len p :
  state p = RDBP_READ_BULK_LEN -> 2 <= sv_len (buffer p) <= INT_MAX ->
  loop_body p =
  match find_crlf (buffer p) with
  | Some k =>
      let length := atol (firstn k (buffer p)) in
      let p := set_buffer p (skipn (k + 2) (buffer p)) in
      if 0 <=? length then
        Ok (None, set_bulk_len (set_state p RDBP_READ_BULK) length)
      else if length =? -1 then completed (_reply_completed p SVundef)
      else Ok (Some 0, p)
  | None => Ok (Some 0, p)
  end.
Proof.
  intros S H. rewrite loop_body_long, S by lia.
  rewrite _read_length_find by lia.
  destruct (find_crlf (buffer p)) as [k|]; cbn [bind].
  - cbv zeta. destruct (0 <=? atol (firstn k (buffer p))) eqn:E; [|reflexivity].
    pose proof (atol_range (firstn k (buffer p))) as R. unfold LONG_MAX in R.
    rewrite ulong_of_small by lia. reflexivity.
  - cbv zeta. change (0 <=? -2) with false. change (-2 =? -1) with false.
    cbv iota. now rewrite set_buffer_same.
Qed.

Lemma body_read_bulk p :
  state p = RDBP_READ_BULK -> 2 <= sv_len (buffer p) ->
  0 <= bulk_len p <= LONG_MAX ->
  loop_body p =
  if sv_len (buffer p) <? 2 + bulk_len p then Ok (Some 0, p) else
  let payload := firstn (Z.to_nat (bulk_len p)) (buffer p) in
  let p' := set_buffer p (skipn (Z.to_nat (bulk_len p) + 2) (buffer p)) in
  if utf8 p then
    if is_utf8_string payload
    then completed (_reply_completed p'
                      (SVpv payload (existsb (fun c => 128 <=? code c) payload)))
    else Croak "Received invalid UTF-8 string from the server"
  else completed (_reply_completed p' (SVpv payload false)).
Proof.
  intros S H B. rewrite loop_body_long, S by lia. unfold LONG_MAX in B.
  rewrite ulong_of_small by lia.
  destruct (sv_len (buffer p) <? 2 + bulk_len p); [reflexivity|].
  cbv zeta. unfold sv_chop, newSVpvn, sv_utf8_decode.
  replace (Z.to_nat (bulk_len p + 2)) with (Z.to_nat (bulk_len p) + 2)%nat by lia.
  change (utf8 (set_buffer p _)) with (utf8 p).
  destruct (utf8 p); [|reflexivity].
  destruct (is_utf8_string _); reflexivity.
Qed.

Lemma body_read_mblk_len p :
  state p = RDBP_READ_MBLK_LEN -> 2 <= sv_len (buffer p) <= INT_MAX ->
  loop_body p =
  match find_crlf (buffer p) with
  | Some k =>
      let length := atol (firstn k (buffer p)) in
      let p := set_buffer p (skipn (k + 2) (buffer p)) in
      if 0 <? length then
        Ok (None, set_mblk_reply
                    (set_state (set_mblk_len p length) RDBP_WAIT_BUCKS)
                    (Some []))
      else if (length =? 0) || (length =? -1) then
        let mblk := if length =? 0 then SVrv_av [] else SVundef in
        let p := set_mblk_level p (int_of (mblk_level p - 1)) in
        p <- (if 0 <? mblk_level p then _mblk_status_fetch p else Ok p) ;;
        completed (_reply_completed p mblk)
      else Ok (Some 0, p)
  | None => Ok (Some 0, p)
  end.
Proof.
  intros S H. rewrite loop_body_long, S by lia.
  rewrite _read_length_find by lia.
  destruct (find_crlf (buffer p)) as [k|]; cbn [bind].
  - cbv zeta. destruct (0 <? atol (firstn k (buffer p))) eqn:E; [|reflexivity].
    pose proof (atol_range (firstn k (buffer p))) as R. unfold LONG_MAX in R.
    rewrite ulong_of_small by lia. reflexivity.
  - cbv zeta. change (0 <? -2) with false. change (-2 =? 0) with false.
    change (-2 =? -1) with false. cbv iota. cbn [orb].
    now rewrite set_buffer_same.
Qed.

Lemma body_wait_bucks p op rest :
  state p = RDBP_WAIT_BUCKS -> buffer p = op :: rest -> rest <> [] ->
  loop_body p =
  match op_state op with
  | None =>
      Croak "Invalid multi-bulk reply. Expected [$:+-*] but got something else"
  | Some s =>
      Ok (None,
          if (op =? "*")%char
          then _mblk_status_store
                 (set_mblk_level (set_state (set_buffer p rest) RDBP_READ_MBLK_LEN)
                                 (int_of (mblk_level p + 1)))
          else set_state (set_buffer p rest) s)
  end.
Proof.
  intros S B R. rewrite loop_body_long, S, B.
  - unfold op_state. cbv zeta.
    destruct (op =? "$")%char eqn:E1.
    { apply Ascii.eqb_eq in E1. subst op. reflexivity. }
    destruct (op =? ":")%char eqn:E2.
    { apply Ascii.eqb_eq in E2. subst op. reflexivity. }
    destruct (op =? "+")%char eqn:E3.
    { apply Ascii.eqb_eq in E3. subst op. reflexivity. }
    destruct (op =? "-")%char eqn:E4.
    { apply Ascii.eqb_eq in E4. subst op. reflexivity. }
    destruct (op =? "*")%char eqn:E5; reflexivity.
  - rewrite B. destruct rest; [congruence|]. rewrite !sv_len_cons.
    pose proof (sv_len_nonneg rest). lia.
Qed.

(** ** What one pass of the loop may do *)

Lemma completed_result q v o p' :
  completed (_reply_completed q v) = Ok (o, p') ->
  buffer p' = buffer q /\ bulk_len p' = bulk_len q /\
  redisdb p' = redisdb q /\ utf8 p' = utf8 q /\
  ((o = None /\ state p' = RDBP_WAIT_BUCKS /\ undelivered q p') \/
   (o = Some 1 /\ state p' = RDBP_CLEAN /\ delivered q p')).
Proof.
  unfold completed.
  destruct (_reply_completed q v) as [[rv q']| | |] eqn:E; try discriminate.
  apply _reply_completed_result in E.
  destruct E as (E1 & E2 & E3 & E4 & [(-> & E5)|(-> & E5)]); cbn;
    intros H; injection H as <- <-; intuition.
Qed.

Lemma length_skipn_crlf b k :
  find_crlf b = Some k ->
  (List.length (skipn (k + 2) b) < List.length b)%nat.
Proof. intros H. apply find_crlf_bound in H. rewrite length_skipn. lia. Qed.

Lemma _mblk_status_fetch_result p q :
  _mblk_status_fetch p = Ok q ->
  buffer q = buffer p /\ bulk_len q = bulk_len p /\ redisdb q = redisdb p /\
  utf8 q = utf8 p /\ callbacks q = callbacks p /\
  default_cb q = default_cb p /\ calls q = calls p /\
  mblk_level q = mblk_level p /\ state q = state p.
Proof.
  unfold _mblk_status_fetch. destruct (mblk_store p); [discriminate|].
  intros H. injection H as <-. cbn. intuition.
Qed.

Ltac split_and := repeat match goal with |- _ /\ _ => split end.

Lemma undelivered_refl p : undelivered p p.
Proof. unfold undelivered. intuition. Qed.

Lemma delivered_ext p q p' :
  callbacks q = callbacks p -> default_cb q = default_cb p ->
  calls q = calls p -> redisdb q = redisdb p ->
  delivered q p' -> delivered p p'.
Proof. unfold delivered. intros -> -> -> ->. auto. Qed.

Ltac step_done :=
  cbn; unfold bulk_ok, undelivered, LONG_MAX, LONG_MIN in *; cbn;
  repeat split; intros; try discriminate; try lia; auto.

Lemma loop_body_step p o p' :
  sv_len (buffer p) <= INT_MAX -> state p <> RDBP_CLEAN -> bulk_ok p ->
  loop_body p = Ok (o, p') ->
  (List.length (buffer p') <= List.length (buffer p))%nat /\
  redisdb p' = redisdb p /\ utf8 p' = utf8 p /\
  match o with
  | None =>
      (List.length (buffer p') < List.length (buffer p))%nat /\
      state p' <> RDBP_CLEAN /\ bulk_ok p' /\ undelivered p p'
  | Some rv =>
      (rv = 0 /\ state p' = state p /\ bulk_len p' = bulk_len p /\
       undelivered p p') \/
      (rv = 1 /\ state p' = RDBP_CLEAN /\ delivered p p' /\
       (List.length (buffer p') < List.length (buffer p))%nat)
  end.
Proof.
  intros Hmax Hst Hbulk H.
  destruct (Z.lt_ge_cases (sv_len (buffer p)) 2) as [Hs|Hl].
  { rewrite loop_body_short in H by exact Hs. injection H as <- <-.
    repeat split; auto. left. repeat split; auto. }
  assert (Fin : forall q v,
    completed (_reply_completed q v) = Ok (o, p') ->
    (List.length (buffer q) < List.length (buffer p))%nat ->
    redisdb q = redisdb p -> utf8 q = utf8 p ->
    callbacks q = callbacks p -> default_cb q = default_cb p ->
    calls q = calls p ->
    (List.length (buffer p') <= List.length (buffer p))%nat /\
    redisdb p' = redisdb p /\ utf8 p' = utf8 p /\
    match o with
    | None =>
        (List.length (buffer p') < List.length (buffer p))%nat /\
        state p' <> RDBP_CLEAN /\ bulk_ok p' /\ undelivered p p'
    | Some rv =>
        (rv = 0 /\ state p' = state p /\ bulk_len p' = bulk_len p /\
         undelivered p p') \/
        (rv = 1 /\ state p' = RDBP_CLEAN /\ delivered p p' /\
       (List.length (buffer p') < List.length (buffer p))%nat)
    end).
  { intros q v Hc Hlen Hr Hu Hcb Hd Hcl.
    apply completed_result in Hc.
    destruct Hc as (C1 & C2 & C3 & C4 & [(-> & C5 & C6)|(-> & C5 & C6)]).
    - rewrite C1, C3, C4. destruct C6 as (A1 & A2 & A3).
      unfold bulk_ok, undelivered.
      repeat split; try lia; try congruence.
    - rewrite C1, C3, C4. split; [lia|]. split; [congruence|].
      split; [congruence|]. right. repeat split; auto.
      eapply delivered_ext; eauto. }
  destruct (state p) eqn:S; [congruence| | | | | | |].
  - rewrite body_read_line in H by (auto; lia).
    destruct (find_crlf (buffer p)) as [k|] eqn:F.
    + eapply Fin; [exact H| |reflexivity..]. now apply length_skipn_crlf.
    + injection H as <- <-. repeat split; auto. left. repeat split; auto.
  - rewrite body_read_error in H by (auto; lia).
    destruct (find_crlf (buffer p)) as [k|] eqn:F.
    + eapply Fin; [exact H| |reflexivity..]. now apply length_skipn_crlf.
    + injection H as <- <-. repeat split; auto. left. repeat split; auto.
  - rewrite body_read_number in H by (auto; lia).
    destruct (find_crlf (buffer p)) as [k|] eqn:F.
    + eapply Fin; [exact H| |reflexivity..]. now apply length_skipn_crlf.
    + injection H as <- <-. repeat split; auto. left. repeat split; auto.
  - rewrite body_read_bulk_len in H by (auto; lia).
    destruct (find_crlf (buffer p)) as [k|] eqn:F.
    + pose proof (length_skipn_crlf _ _ F) as L. cbv zeta in H.
      pose proof (atol_range (firstn k (buffer p))) as R.
      destruct (0 <=? atol (firstn k (buffer p))) eqn:E.
      * injection H as <- <-. clear Fin. step_done.
      * destruct (atol (firstn k (buffer p)) =? -1).
        -- eapply Fin; [exact H| |reflexivity..]. exact L.
        -- injection H as <- <-. clear Fin. split; [cbn; lia|].
           split; [reflexivity|]. split; [reflexivity|]. left. step_done.
    + injection H as <- <-. repeat split; auto. left. repeat split; auto.
  - pose proof (Hbulk S) as Hb. unfold LONG_MAX in Hb.
    rewrite body_read_bulk in H by (auto; lia).
    destruct (sv_len (buffer p) <? 2 + bulk_len p) eqn:E.
    + injection H as <- <-. repeat split; auto. left. repeat split; auto.
    + cbv zeta in H.
      assert (L : (List.length (skipn (Z.to_nat (bulk_len p) + 2) (buffer p))
                   < List.length (buffer p))%nat).
      { rewrite length_skipn. unfold sv_len in *. lia. }
      destruct (utf8 p) eqn:U.
      * destruct (is_utf8_string _); [|discriminate].
        eapply Fin; [exact H|exact L|first [reflexivity|exact U]..].
      * eapply Fin; [exact H|exact L|first [reflexivity|exact U]..].
  - rewrite body_read_mblk_len in H by (auto; lia).
    destruct (find_crlf (buffer p)) as [k|] eqn:F.
    + pose proof (length_skipn_crlf _ _ F) as L. cbv zeta in H.
      destruct (0 <? atol (firstn k (buffer p))) eqn:E.
      * injection H as <- <-. clear Fin. step_done.
      * destruct ((atol (firstn k (buffer p)) =? 0)
                  || (atol (firstn k (buffer p)) =? -1)).
        -- match type of H with
           | context [if ?c then _ else _] => destruct c
           end.
           ++ match type of H with
              | context [_mblk_status_fetch ?x] =>
                  destruct (_mblk_status_fetch x) as [q| | |] eqn:Q;
                  try discriminate
              end.
              apply _mblk_status_fetch_result in Q. cbn in Q.
              destruct Q as (Q1 & Q2 & Q3 & Q4 & Q5 & Q6 & Q7 & _).
              cbn [bind] in H.
              eapply Fin; [exact H|rewrite Q1; exact L|auto..].
           ++ cbn [bind] in H.
              eapply Fin; [exact H| |reflexivity..]. exact L.
        -- injection H as <- <-. clear Fin. split; [cbn; lia|].
           split; [reflexivity|]. split; [reflexivity|]. left. step_done.
    + injection H as <- <-. repeat split; auto. left. repeat split; auto.
  - destruct (buffer p) as [|op rest] eqn:B.
    { change (sv_len []) with 0 in Hl. lia. }
    destruct rest as [|c rest'].
    { change (sv_len [op]) with 1 in Hl. lia. }
    rewrite (body_wait_bucks p op (c :: rest')) in H by (auto; discriminate).
    destruct (op_state op) as [s|] eqn:O; [|discriminate].
    injection H as <- <-.
    destruct (op =? "*")%char eqn:E.
    + clear Fin. unfold _mblk_status_store. step_done.
    + clear Fin. unfold op_state in O. rewrite E in O.
      repeat match type of O with
             | (if ?c then _ else _) = _ => destruct c
             end; try discriminate; injection O as <-;
        step_done.
Qed.

(** ** The loop relation and the loop with fuel *)

Lemma parse_loop_loops n : forall p r,
  parse_loop n p = r -> r <> OutOfFuel -> loops p r.
Proof.
  induction n as [|n IH]; intros p r H N; cbn in H; [congruence|].
  destruct (loop_body p) as [[o p']|m|f|] eqn:E; cbn in H.
  - destruct o as [rv|].
    + subst r. now apply loops_return.
    + eapply loops_again; eauto.
  - subst r. now apply loops_croak.
  - subst r. now apply loops_fault.
  - congruence.
Qed.

Lemma loops_det p r1 : loops p r1 -> forall r2, loops p r2 -> r1 = r2.
Proof.
  induction 1 as [p rv p' H|p p' r H _ IH|p m H|p f H];
    intros r2 H2; inversion H2; subst; try congruence.
  apply IH. congruence.
Qed.

Lemma sound_ok {A : Type} (a : A) : sound (Ok a).
Proof. split; discriminate. Qed.

Lemma sound_croak {A : Type} m : sound (@Croak A m).
Proof. split; discriminate. Qed.

Lemma _mblk_item_rec_sound fuel : forall p v,
  (List.length (mblk_store p) < fuel)%nat -> sound (_mblk_item_rec fuel p v).
Proof.
  induction fuel as [|fuel IH]; intros p v H; [lia|].
  destruct p as [u self cbs d buf st lvl mr ms ml bl cl].
  cbn -[Z.ltb] in *. destruct mr as [av|]; [|split; discriminate].
  cbn -[Z.ltb]. destruct (1 <? ml); [apply sound_ok|].
  destruct (1 <? lvl); [|apply sound_ok].
  destruct ms as [|s next]; [apply sound_croak|].
  cbn -[Z.ltb] in *. apply IH. cbn. lia.
Qed.

Lemma _reply_completed_sound p v : sound (completed (_reply_completed p v)).
Proof.
  unfold completed, _reply_completed, _mblk_item.
  destruct (negb (mblk_level p =? 0)).
  - pose proof (_mblk_item_rec_sound (S (List.length (mblk_store p))) p v
                  (Nat.lt_succ_diag_r _)) as [S1 S2].
    destruct (_mblk_item_rec _ p v) as [[rv q]| | |]; cbn -[Z.eqb];
      try (split; congruence).
    destruct (negb (rv =? 0)); cbn; [apply sound_ok|].
    destruct (mblk_reply q); cbn; [|split; discriminate].
    destruct (callbacks q); cbn; [|apply sound_ok].
    destruct (default_cb q); cbn; [apply sound_ok|apply sound_croak].
  - cbn. destruct (callbacks p); cbn; [|apply sound_ok].
    destruct (default_cb p); cbn; [apply sound_ok|apply sound_croak].
Qed.

Lemma loop_body_sound p :
  sv_len (buffer p) <= INT_MAX -> bulk_ok p -> sound (loop_body p).
Proof.
  intros Hmax Hb.
  destruct (Z.lt_ge_cases (sv_len (buffer p)) 2) as [Hs|Hl].
  { rewrite loop_body_short by exact Hs. apply sound_ok. }
  destruct (state p) eqn:S.
  - rewrite loop_body_long, S by exact Hl. apply sound_ok.
  - rewrite body_read_line by (auto; lia).
    destruct (find_crlf (buffer p));
      [apply _reply_completed_sound|apply sound_ok].
  - rewrite body_read_error by (auto; lia).
    destruct (find_crlf (buffer p));
      [apply _reply_completed_sound|apply sound_ok].
  - rewrite body_read_number by (auto; lia).
    destruct (find_crlf (buffer p));
      [apply _reply_completed_sound|apply sound_ok].
  - rewrite body_read_bulk_len by (auto; lia).
    destruct (find_crlf (buffer p)); [|apply sound_ok]. cbv zeta.
    destruct (0 <=? _); [apply sound_ok|].
    destruct (_ =? -1); [apply _reply_completed_sound|apply sound_ok].
  - pose proof (Hb S) as B.
    rewrite body_read_bulk by (auto; lia).
    destruct (_ <? _); [apply sound_ok|]. cbv zeta.
    destruct (utf8 p); [|apply _reply_completed_sound].
    destruct (is_utf8_string _); [apply _reply_completed_sound|apply sound_croak].
  - rewrite body_read_mblk_len by (auto; lia).
    destruct (find_crlf (buffer p)); [|apply sound_ok]. cbv zeta.
    destruct (0 <? _); [apply sound_ok|].
    destruct (_ || _); [|apply sound_ok].
    match goal with |- context [if ?c then _ else _] => destruct c end.
    + unfold _mblk_status_fetch. cbn [mblk_store set_mblk_level set_buffer].
      destruct (mblk_store p); cbn [bind];
        [apply sound_croak|apply _reply_completed_sound].
    + cbn [bind]. apply _reply_completed_sound.
  - destruct (buffer p) as [|op rest] eqn:B.
    { change (sv_len []) with 0 in Hl. lia. }
    destruct rest as [|c rest'].
    { change (sv_len [op]) with 1 in Hl. lia. }
    rewrite (body_wait_bucks p op (c :: rest')) by (auto; discriminate).
    destruct (op_state op); [apply sound_ok|apply sound_croak].
Qed.

Lemma parse_loop_total n : forall p,
  (List.length (buffer p) < n)%nat ->
  sv_len (buffer p) <= INT_MAX -> state p <> RDBP_CLEAN -> bulk_ok p ->
  sound (parse_loop n p).
Proof.
  induction n as [|n IH]; intros p Hn Hmax Hst Hb; [lia|].
  cbn. pose proof (loop_body_sound p Hmax Hb) as [S1 S2].
  destruct (loop_body p) as [[o p']|m|f|] eqn:E; cbn;
    try (split; congruence).
  destruct o as [rv|]; [apply sound_ok|].
  apply loop_body_step in E; auto.
  destruct E as (E1 & _ & _ & E2 & E3 & E4 & _).
  apply IH; auto; unfold sv_len in *; lia.
Qed.

Lemma loops_parse_loop p r n :
  loops p r -> (List.length (buffer p) < n)%nat ->
  sv_len (buffer p) <= INT_MAX -> state p <> RDBP_CLEAN -> bulk_ok p ->
  parse_loop n p = r.
Proof.
  intros L Hn Hmax Hst Hb.
  apply (loops_det p (parse_loop n p)); [|exact L].
  eapply parse_loop_loops; [reflexivity|].
  now apply parse_loop_total.
Qed.

(** ** More bytes do not change a pass that had enough of them *)

Lemma firstn_app_le {A : Type} (n : nat) (l m : list A) :
  (n <= List.length l)%nat -> firstn n (l ++ m) = firstn n l.
Proof.
  intros H. rewrite firstn_app.
  replace (n - List.length l)%nat with O by lia.
  cbn. apply app_nil_r.
Qed.

Lemma skipn_app_le {A : Type} (n : nat) (l m : list A) :
  (n <= List.length l)%nat -> skipn n (l ++ m) = skipn n l ++ m.
Proof.
  intros H. rewrite skipn_app.
  replace (n - List.length l)%nat with O by lia. reflexivity.
Qed.

Lemma completed_append q v more :
  completed (_reply_completed (append q more) v) =
  rmap (on_parser (fun x => append x more)) (completed (_reply_completed q v)).
Proof.
  unfold append at 1. rewrite _reply_completed_buffer.
  destruct (_reply_completed q v) as [[rv q']| | |] eqn:E; try reflexivity.
  apply _reply_completed_result in E. destruct E as (E & _).
  cbn -[Z.eqb]. unfold on_parser, append. cbn -[Z.eqb].
  destruct (negb (rv =? 0)); cbn; rewrite E; reflexivity.
Qed.

Lemma body_prefix p more :
  sv_len (buffer p ++ more) <= INT_MAX -> bulk_ok p ->
  loop_body p = Ok (Some 0, p) \/
  loop_body (append p more) =
  rmap (on_parser (fun q => append q more)) (loop_body p).
Proof.
  intros Hmax Hb.
  destruct (Z.lt_ge_cases (sv_len (buffer p)) 2) as [Hs|Hl].
  { left. now apply loop_body_short. }
  pose proof (sv_len_nonneg more) as Hm.
  rewrite sv_len_app in Hmax.
  assert (Hl' : 2 <= sv_len (buffer (append p more)) <= INT_MAX).
  { change (buffer (append p more)) with (buffer p ++ more).
    rewrite sv_len_app. lia. }
  assert (Crlf : forall k, find_crlf (buffer p) = Some k ->
            find_crlf (buffer p ++ more) = Some k /\
            firstn k (buffer p ++ more) = firstn k (buffer p) /\
            skipn (k + 2) (buffer p ++ more) = skipn (k + 2) (buffer p) ++ more).
  { intros k F. pose proof (find_crlf_bound _ _ F).
    split; [now apply find_crlf_app|].
    split; [apply firstn_app_le|apply skipn_app_le]; lia. }
  destruct (state p) eqn:S.
  - right. rewrite !loop_body_long by (auto; lia).
    change (state (append p more)) with (state p). rewrite S. reflexivity.
  - rewrite (body_read_line p) by (auto; lia).
    destruct (find_crlf (buffer p)) as [k|] eqn:F; [right|now left].
    rewrite body_read_line by (auto; lia).
    change (buffer (append p more)) with (buffer p ++ more).
    destruct (Crlf k eq_refl) as (-> & -> & ->).
    apply (completed_append (set_buffer p (skipn (k + 2) (buffer p)))).
  - rewrite (body_read_error p) by (auto; lia).
    destruct (find_crlf (buffer p)) as [k|] eqn:F; [right|now left].
    rewrite body_read_error by (auto; lia).
    change (buffer (append p more)) with (buffer p ++ more).
    destruct (Crlf k eq_refl) as (-> & -> & ->).
    apply (completed_append (set_buffer p (skipn (k + 2) (buffer p)))).
  - rewrite (body_read_number p) by (auto; lia).
    destruct (find_crlf (buffer p)) as [k|] eqn:F; [right|now left].
    rewrite body_read_number by (auto; lia).
    change (buffer (append p more)) with (buffer p ++ more).
    destruct (Crlf k eq_refl) as (-> & -> & ->).
    apply (completed_append (set_buffer p (skipn (k + 2) (buffer p)))).
  - rewrite (body_read_bulk_len p) by (auto; lia).
    destruct (find_crlf (buffer p)) as [k|] eqn:F; [right|now left].
    rewrite body_read_bulk_len by (auto; lia).
    change (buffer (append p more)) with (buffer p ++ more).
    destruct (Crlf k eq_refl) as (-> & -> & ->). cbv zeta.
    destruct (0 <=? _); [reflexivity|].
    destruct (_ =? -1); [|reflexivity].
    apply (completed_append (set_buffer p (skipn (k + 2) (buffer p)))).
  - pose proof (Hb S) as B. unfold LONG_MAX in B.
    rewrite (body_read_bulk p) by (auto; lia).
    destruct (sv_len (buffer p) <? 2 + bulk_len p) eqn:E; [now left|right].
    rewrite body_read_bulk by (auto; lia).
    change (buffer (append p more)) with (buffer p ++ more).
    change (bulk_len (append p more)) with (bulk_len p).
    change (utf8 (append p more)) with (utf8 p).
    rewrite sv_len_app.
    replace (sv_len (buffer p) + sv_len more <? 2 + bulk_len p) with false
      by (symmetry; apply Z.ltb_ge; lia).
    cbv zeta. unfold sv_len in E.
    rewrite firstn_app_le, skipn_app_le by lia.
    destruct (utf8 p).
    + destruct (is_utf8_string _); [|reflexivity].
      apply (completed_append
               (set_buffer p (skipn (Z.to_nat (bulk_len p) + 2) (buffer p)))).
    + apply (completed_append
               (set_buffer p (skipn (Z.to_nat (bulk_len p) + 2) (buffer p)))).
  - rewrite (body_read_mblk_len p) by (auto; lia).
    destruct (find_crlf (buffer p)) as [k|] eqn:F; [right|now left].
    rewrite body_read_mblk_len by (auto; lia).
    change (buffer (append p more)) with (buffer p ++ more).
    destruct (Crlf k eq_refl) as (-> & -> & ->). cbv zeta.
    destruct (0 <? atol _); [reflexivity|].
    destruct (_ || _); [|reflexivity].
    cbn [mblk_level set_mblk_level set_buffer append].
    destruct (0 <? int_of (mblk_level p - 1)).
    + unfold _mblk_status_fetch.
      cbn [mblk_store set_mblk_level set_buffer append].
      destruct (mblk_store p) as [|s next]; [reflexivity|]. cbn [bind].
      match goal with
      | |- _ = rmap _ (completed (_reply_completed ?q _)) =>
          apply (completed_append q)
      end.
    + cbn [bind].
      match goal with
      | |- _ = rmap _ (completed (_reply_completed ?q _)) =>
          apply (completed_append q)
      end.
  - right. destruct (buffer p) as [|op rest] eqn:B.
    { change (sv_len []) with 0 in Hl. lia. }
    destruct rest as [|c rest'].
    { change (sv_len [op]) with 1 in Hl. lia. }
    rewrite (body_wait_bucks p op (c :: rest')) by (auto; discriminate).
    rewrite (body_wait_bucks (append p more) op ((c :: rest') ++ more));
      [|exact S|cbn; now rewrite B|discriminate].
    destruct (op_state op); [|reflexivity].
    cbn [rmap on_parser fst snd]. do 2 f_equal.
    destruct (op =? "*")%char; unfold append, _mblk_status_store; cbn;
      rewrite ?B; reflexivity.
Qed.

(** ** [rdb_parser__parse_reply] as a whole *)

Lemma parse_reply_empty p :
  buffer p = [] -> rdb_parser__parse_reply p = Ok (0, p).
Proof. intros H. unfold rdb_parser__parse_reply. now rewrite H. Qed.

Lemma parse_reply_enter p :
  buffer p <> [] ->
  rdb_parser__parse_reply p =
  p1 <- enter p ;; parse_loop (S (List.length (buffer p1))) p1.
Proof.
  intros H. unfold rdb_parser__parse_reply, enter.
  destruct (buffer p) as [|c l] eqn:B; [congruence|].
  rewrite sv_len_cons. pose proof (sv_len_nonneg l).
  destruct (1 + sv_len l =? 0) eqn:E; [lia|]. reflexivity.
Qed.

Lemma read_op_eq p op rest :
  buffer p = op :: rest ->
  read_op p =
  match op_state op with
  | None => Croak "Got invalid reply"
  | Some s =>
      Ok (if (op =? "*")%char
          then set_mblk_level
                 (set_state (set_buffer (set_mblk_level p 0) rest)
                            RDBP_READ_MBLK_LEN) 1
          else set_state (set_buffer (set_mblk_level p 0) rest) s)
  end.
Proof.
  intros B. unfold read_op, op_state.
  change (buffer (set_mblk_level p 0)) with (buffer p). rewrite B. cbv zeta.
  destruct (op =? "+")%char eqn:E1.
  { apply Ascii.eqb_eq in E1. subst op. reflexivity. }
  destruct (op =? "-")%char eqn:E2.
  { apply Ascii.eqb_eq in E2. subst op. reflexivity. }
  destruct (op =? ":")%char eqn:E3.
  { apply Ascii.eqb_eq in E3. subst op. reflexivity. }
  destruct (op =? "$")%char eqn:E4.
  { apply Ascii.eqb_eq in E4. subst op. reflexivity. }
  destruct (op =? "*")%char eqn:E5; reflexivity.
Qed.

Lemma op_state_ready op s :
  op_state op = Some s -> s <> RDBP_CLEAN /\ s <> RDBP_READ_BULK.
Proof.
  unfold op_state.
  repeat match goal with
         | |- (if ?c then _ else _) = _ -> _ => destruct c
         end; intros H; try discriminate; injection H as <-;
    split; discriminate.
Qed.

Lemma enter_result p p1 :
  buffer p <> [] -> bulk_ok p -> enter p = Ok p1 ->
  state p1 <> RDBP_CLEAN /\ bulk_ok p1 /\
  (List.length (buffer p1) <= List.length (buffer p))%nat /\
  (state p = RDBP_CLEAN ->
   (List.length (buffer p1) < List.length (buffer p))%nat) /\
  redisdb p1 = redisdb p /\ utf8 p1 = utf8 p /\ undelivered p p1.
Proof.
  intros B Hb. unfold enter.
  destruct (state p) eqn:S.
  2-8: intros H; injection H as <-;
    (split; [rewrite S; discriminate|]); (split; [exact Hb|]);
    (split; [lia|]); (split; [discriminate|]);
    repeat split; reflexivity.
  destruct (buffer p) as [|op rest] eqn:E; [congruence|].
  rewrite (read_op_eq p op rest E).
  destruct (op_state op) as [s|] eqn:O; [|discriminate].
  apply op_state_ready in O. destruct O as [O1 O2].
  intros H. injection H as <-.
  destruct (op =? "*")%char; unfold bulk_ok, undelivered; cbn;
    repeat split; auto; try discriminate; intros; congruence.
Qed.

Lemma enter_append p more :
  buffer p <> [] ->
  enter (append p more) = rmap (fun q => append q more) (enter p).
Proof.
  intros B. unfold enter. change (state (append p more)) with (state p).
  destruct (state p); try reflexivity.
  destruct (buffer p) as [|op rest] eqn:E; [congruence|].
  rewrite (read_op_eq p op rest E).
  rewrite (read_op_eq (append p more) op (rest ++ more))
    by (cbn; now rewrite E).
  destruct (op_state op); [|reflexivity]. cbn [rmap]. f_equal.
  destruct (op =? "*")%char; reflexivity.
Qed.

(** What a run of the loop leaves behind. *)
Lemma loops_result p r :
  loops p r -> forall rv p',
  r = Ok (rv, p') ->
  sv_len (buffer p) <= INT_MAX -> state p <> RDBP_CLEAN -> bulk_ok p ->
  (List.length (buffer p') <= List.length (buffer p))%nat /\
  bulk_ok p' /\ redisdb p' = redisdb p /\ utf8 p' = utf8 p /\
  ((rv = 0 /\ state p' <> RDBP_CLEAN /\ undelivered p p') \/
   (rv = 1 /\ state p' = RDBP_CLEAN /\ delivered p p' /\
    (List.length (buffer p') < List.length (buffer p))%nat)).
Proof.
  induction 1 as [p rv0 p0 H|p p1 r H L IH|p m H|p f H];
    intros rv p' R Hmax Hst Hb; try discriminate.
  - injection R as -> ->. apply loop_body_step in H; auto.
    destruct H as (H1 & H2 & H3 & [(-> & H4 & H5 & H6)|(-> & H4 & H5 & H6)]).
    + assert (bulk_ok p') by (unfold bulk_ok; rewrite H4, H5; exact Hb).
      split_and; auto; left; split_and; auto; congruence.
    + assert (bulk_ok p') by (unfold bulk_ok; rewrite H4; discriminate).
      split_and; auto; right; split_and; auto.
  - apply loop_body_step in H; auto.
    destruct H as (H1 & H2 & H3 & H4 & H5 & H6 & H7).
    destruct (IH rv p' R) as (I1 & I2 & I3 & I4 & I5); auto.
    { unfold sv_len in *. lia. }
    split_and; try lia; try congruence; try assumption.
    destruct H7 as (U1 & U2 & U3).
    destruct I5 as [(-> & I5 & I6)|(-> & I5 & I6 & I7)].
    + left. split_and; auto.
      destruct I6 as (? & ? & ?). unfold undelivered. split_and; congruence.
    + right. split_and; auto; try lia.
      eapply delivered_ext with (q := p1); eauto.
Qed.

Lemma parse_reply_loops p r :
  buffer p <> [] -> sv_len (buffer p) <= INT_MAX -> bulk_ok p ->
  rdb_parser__parse_reply p = r ->
  exists p1, enter p = Ok p1 /\ loops p1 r \/
  (r = rmap (fun q => (0, q)) (enter p) /\ forall q, enter p <> Ok q).
Proof.
  intros B Hmax Hb H. rewrite parse_reply_enter in H by exact B.
  destruct (enter p) as [p1|m|f|] eqn:E.
  - exists p1. left. split; [reflexivity|].
    apply enter_result in E; auto. destruct E as (E1 & E2 & E3 & _).
    cbn [bind] in H. eapply parse_loop_loops; [exact H|].
    subst r. apply parse_loop_total; auto. unfold sv_len in *. lia.
  - exists p. right. split; [now subst r|]. discriminate.
  - exists p. right. split; [now subst r|]. discriminate.
  - exists p. right. split; [now subst r|]. discriminate.
Qed.

Lemma loops_parse_reply p p1 r :
  buffer p <> [] -> sv_len (buffer p) <= INT_MAX -> bulk_ok p ->
  enter p = Ok p1 -> loops p1 r -> rdb_parser__parse_reply p = r.
Proof.
  intros B Hmax Hb E L. rewrite parse_reply_enter, E by exact B. cbn [bind].
  apply enter_result in E; auto. destruct E as (E1 & E2 & E3 & _).
  apply loops_parse_loop; auto. unfold sv_len in *. lia.
Qed.

Lemma parse_reply_result p rv p' :
  sv_len (buffer p) <= INT_MAX -> bulk_ok p ->
  rdb_parser__parse_reply p = Ok (rv, p') ->
  (List.length (buffer p') <= List.length (buffer p))%nat /\
  bulk_ok p' /\ redisdb p' = redisdb p /\ utf8 p' = utf8 p /\
  ((rv = 0 /\ undelivered p p' /\
    (state p' = RDBP_CLEAN -> p' = p /\ buffer p = [])) \/
   (rv = 1 /\ state p' = RDBP_CLEAN /\ delivered p p' /\
    (List.length (buffer p') < List.length (buffer p))%nat)).
Proof.
  intros Hmax Hb H.
  destruct (buffer p) as [|c b] eqn:B.
  { rewrite parse_reply_empty in H by exact B. injection H as <- <-.
    rewrite B. split_and; auto. left. split_and; auto.
    apply undelivered_refl. }
  assert (B' : buffer p <> []) by (rewrite B; discriminate).
  rewrite <- B in *.
  destruct (parse_reply_loops p _ B' Hmax Hb H) as [p1 [[E L]|[E N]]].
  - pose proof (enter_result p p1 B' Hb E) as (E1 & E2 & E3 & E4 & E5 & E6 & E7).
    destruct (loops_result _ _ L rv p' eq_refl) as (L1 & L2 & L3 & L4 & L5); auto.
    { unfold sv_len in *. lia. }
    split_and; try lia; try congruence; try assumption.
    destruct E7 as (U1 & U2 & U3).
    destruct L5 as [(-> & L5 & L6)|(-> & L5 & L6 & L7)].
    + left. split_and; try congruence.
      destruct L6 as (? & ? & ?). unfold undelivered. split_and; congruence.
    + right. split_and; auto; try lia.
      eapply delivered_ext with (q := p1); eauto.
  - destruct (enter p) as [q| | |]; [now specialize (N q)|discriminate..].
Qed.

(** ** Suspension and resumption

    When the loop delivers a reply from the buffer [b ++ more], then on [b]
    alone it either delivers the same reply, or stops at a pass that has too
    few bytes, and from there delivers the same reply once [more] has
    arrived. *)

Lemma loops_prefix P r :
  loops P r -> forall p more q,
  P = append p more -> r = Ok (1, q) ->
  sv_len (buffer p ++ more) <= INT_MAX -> state p <> RDBP_CLEAN -> bulk_ok p ->
  (exists q', loops p (Ok (1, q')) /\ q = append q' more) \/
  (exists q', loops p (Ok (0, q')) /\ loop_body q' = Ok (Some 0, q') /\
              state q' <> RDBP_CLEAN /\ bulk_ok q' /\
              (List.length (buffer q') <= List.length (buffer p))%nat /\
              loops (append q' more) (Ok (1, q))).
Proof.
  induction 1 as [P rv P' H|P P1 r H L IH|P m H|P f H];
    intros p more q -> R Hmax Hst Hb; try discriminate.
  - injection R as -> ->.
    destruct (body_prefix p more Hmax Hb) as [Pend|Same].
    + right. exists p. split_and; auto.
      * now apply loops_return.
      * now apply loops_return.
    + rewrite Same in H.
      destruct (loop_body p) as [[o q']| | |] eqn:E; try discriminate.
      cbn in H. injection H as -> <-.
      left. exists q'. split; [now apply loops_return|reflexivity].
  - destruct (body_prefix p more Hmax Hb) as [Pend|Same].
    + right. exists p. split_and; auto.
      * now apply loops_return.
      * subst r. eapply loops_again; eauto.
    + rewrite Same in H.
      destruct (loop_body p) as [[o p1]| | |] eqn:E; try discriminate.
      cbn in H. injection H as -> <-.
      pose proof (loop_body_step p None p1) as St.
      rewrite sv_len_app in Hmax. pose proof (sv_len_nonneg more).
      destruct St as (S1 & S2 & S3 & S4 & S5 & S6 & S7); auto; [lia|].
      destruct (IH p1 more q eq_refl R) as [(q' & I1 & I2)|(q' & I1 & I2 & I3 & I4 & I5 & I6)];
        auto.
      { rewrite sv_len_app. unfold sv_len in *. lia. }
      * left. exists q'. split; [|exact I2]. eapply loops_again; eauto.
      * right. exists q'. split_and; auto; try lia.
        eapply loops_again; eauto.
Qed.

Lemma loops_short p r :
  loops p r -> sv_len (buffer p) < 2 -> r = Ok (0, p).
Proof.
  intros L H. apply (loops_det p r L).
  apply loops_return. now apply loop_body_short.
Qed.

Lemma stalled_pending q :
  sv_len (buffer q) <= INT_MAX -> bulk_ok q -> state q <> RDBP_CLEAN ->
  loop_body q = Ok (Some 0, q) -> stalled q.
Proof.
  intros Hmax Hb Hst H. unfold stalled.
  destruct (buffer q) as [|c b] eqn:B; [now apply parse_reply_empty|].
  assert (B' : buffer q <> []) by (rewrite B; discriminate).
  rewrite <- B in *.
  apply (loops_parse_reply q q); auto.
  - unfold enter. destruct (state q); congruence.
  - now apply loops_return.
Qed.

Lemma parse_prefix p more q :
  sv_len (buffer p ++ more) <= INT_MAX -> bulk_ok p ->
  rdb_parser__parse_reply (append p more) = Ok (1, q) ->
  (exists q', rdb_parser__parse_reply p = Ok (1, q') /\ q = append q' more) \/
  (exists q', rdb_parser__parse_reply p = Ok (0, q') /\ stalled q' /\
              bulk_ok q' /\
              (List.length (buffer q') <= List.length (buffer p))%nat /\
              rdb_parser__parse_reply (append q' more) = Ok (1, q)).
Proof.
  intros Hmax Hb H.
  pose proof (sv_len_nonneg more) as Hm.
  destruct (buffer p) as [|c b] eqn:B.
  { right. exists p. rewrite B. split_and; auto.
    - now apply parse_reply_empty.
    - now apply parse_reply_empty. }
  assert (B' : buffer p <> []) by (rewrite B; discriminate).
  rewrite <- B in *. clear B.
  assert (Hmax' : sv_len (buffer p) <= INT_MAX) by (rewrite sv_len_app in Hmax; lia).
  assert (Ba : buffer (append p more) <> []).
  { cbn. destruct (buffer p); [congruence|discriminate]. }
  destruct (parse_reply_loops (append p more) _ Ba Hmax Hb H)
    as [P1 [[E L]|[E N]]].
  2: { destruct (enter (append p more)) as [x| | |];
       [now specialize (N x)|discriminate..]. }
  rewrite enter_append in E by exact B'.
  destruct (enter p) as [p1| | |] eqn:E1; try discriminate.
  cbn in E. injection E as <-.
  pose proof (enter_result p p1 B' Hb E1) as (R1 & R2 & R3 & _).
  destruct (loops_prefix _ _ L p1 more q eq_refl eq_refl)
    as [(q' & I1 & I2)|(q' & I1 & I2 & I3 & I4 & I5 & I6)]; auto.
  { rewrite sv_len_app in *. unfold sv_len in *. lia. }
  - left. exists q'. split; [|exact I2].
    now apply (loops_parse_reply p p1).
  - right. exists q'.
    assert (Hq : sv_len (buffer q' ++ more) <= INT_MAX).
    { rewrite sv_len_app in *. unfold sv_len in *. lia. }
    split_and; auto; try lia.
    + now apply (loops_parse_reply p p1).
    + apply stalled_pending; auto. rewrite sv_len_app in Hq. lia.
    + destruct (buffer (append q' more)) as [|c0 b0] eqn:Bq.
      { apply loops_short in I6; [discriminate|]. rewrite Bq. cbn. lia. }
      apply (loops_parse_reply (append q' more) (append q' more)); auto.
      * rewrite Bq. discriminate.
      * unfold enter. change (state (append q' more)) with (state q').
        destruct (state q'); congruence.
Qed.

(** ** The driver *)

Lemma drain_loop_drains n : forall p r,
  drain_loop n p = r -> r <> OutOfFuel -> drains p r.
Proof.
  induction n as [|n IH]; intros p r H N; cbn in H; [congruence|].
  destruct (rdb_parser__parse_reply p) as [[rv p']|m|f|] eqn:E; cbn in H.
  - destruct (rv =? 0) eqn:Z.
    + apply Z.eqb_eq in Z. subst. now apply drains_done.
    + apply Z.eqb_neq in Z. eapply drains_more; eauto.
  - subst r. now apply drains_croak.
  - subst r. now apply drains_fault.
  - congruence.
Qed.

Lemma drains_det p r1 : drains p r1 -> forall r2, drains p r2 -> r1 = r2.
Proof.
  induction 1 as [p p' H|p rv p' r H Hrv _ IH|p m H|p f H];
    intros r2 H2; inversion H2; subst; try congruence.
  apply IH. congruence.
Qed.

Lemma parse_reply_sound p :
  sv_len (buffer p) <= INT_MAX -> bulk_ok p -> sound (rdb_parser__parse_reply p).
Proof.
  intros Hmax Hb.
  destruct (buffer p) as [|c b] eqn:B.
  { rewrite parse_reply_empty by exact B. apply sound_ok. }
  assert (B' : buffer p <> []) by (rewrite B; discriminate).
  rewrite <- B in *. rewrite parse_reply_enter by exact B'.
  destruct (enter p) as [p1|m|f|] eqn:E; cbn [bind].
  - apply enter_result in E; auto. destruct E as (E1 & E2 & E3 & _).
    apply parse_loop_total; auto. unfold sv_len in *. lia.
  - apply sound_croak.
  - unfold enter in E. destruct (state p); try discriminate.
    unfold read_op in E. change (buffer (set_mblk_level p 0)) with (buffer p) in E.
    destruct (buffer p); [congruence|]. cbv zeta in E.
    repeat match type of E with
           | (if ?c then _ else _) = _ => destruct c
           end; discriminate.
  - unfold enter in E. destruct (state p); try discriminate.
    unfold read_op in E. change (buffer (set_mblk_level p 0)) with (buffer p) in E.
    destruct (buffer p); [congruence|]. cbv zeta in E.
    repeat match type of E with
           | (if ?c then _ else _) = _ => destruct c
           end; discriminate.
Qed.

Lemma drain_loop_total n : forall p,
  (List.length (buffer p) < n)%nat ->
  sv_len (buffer p) <= INT_MAX -> bulk_ok p ->
  sound (drain_loop n p).
Proof.
  induction n as [|n IH]; intros p Hn Hmax Hb; [lia|].
  cbn. pose proof (parse_reply_sound p Hmax Hb) as [S1 S2].
  destruct (rdb_parser__parse_reply p) as [[rv p']|m|f|] eqn:E; cbn;
    try (split; congruence).
  destruct (rv =? 0) eqn:Z; [apply sound_ok|].
  apply parse_reply_result in E; auto.
  destruct E as (E1 & E2 & _ & _ & [(-> & _)|(-> & _ & _ & E3)]);
    [discriminate|].
  apply IH; auto; unfold sv_len in *; lia.
Qed.

Lemma drains_drain p r :
  drains p r -> sv_len (buffer p) <= INT_MAX -> bulk_ok p -> drain p = r.
Proof.
  intros D Hmax Hb. apply (drains_det p (drain p)); [|exact D].
  eapply drain_loop_drains; [reflexivity|].
  apply drain_loop_total; auto.
Qed.

Lemma drain_drains p r :
  drain p = r -> sv_len (buffer p) <= INT_MAX -> bulk_ok p -> drains p r.
Proof.
  intros D Hmax Hb. eapply drain_loop_drains; [exact D|].
  subst r. apply drain_loop_total; auto.
Qed.

Lemma drains_split P r :
  drains P r -> forall p more pf,
  P = append p more -> r = Ok pf -> state pf = RDBP_CLEAN ->
  sv_len (buffer p ++ more) <= INT_MAX -> bulk_ok p ->
  exists p', drains p (Ok p') /\ stalled p' /\ bulk_ok p' /\
             (List.length (buffer p') <= List.length (buffer p))%nat /\
             drains (append p' more) (Ok pf).
Proof.
  induction 1 as [P P' H|P rv P' r H Hrv D IH|P m H|P f H];
    intros p more pf -> R Hcl Hmax Hb; try discriminate.
  - injection R as ->.
    destruct (parse_reply_result (append p more) _ _ Hmax Hb H)
      as (_ & _ & _ & _ & [(_ & _ & E)|(E & _)]); [|discriminate].
    destruct (E Hcl) as [-> E2]. cbn in E2.
    apply app_eq_nil in E2. destruct E2 as [E2 ->].
    exists p. rewrite append_nil in *. split_and; auto.
    + now apply drains_done.
    + now apply drains_done.
  - destruct (parse_reply_result (append p more) _ _ Hmax Hb H)
      as (_ & _ & _ & _ & [(E & _)|(-> & _)]); [congruence|].
    destruct (parse_prefix p more P' Hmax Hb H)
      as [(q' & Q1 & ->)|(q' & Q1 & Q2 & Q3 & Q4 & Q5)].
    + assert (Hmax' : sv_len (buffer p) <= INT_MAX).
      { rewrite sv_len_app in Hmax. pose proof (sv_len_nonneg more). lia. }
      destruct (parse_reply_result _ _ _ Hmax' Hb Q1)
        as (R1 & R2 & _ & _ & _).
      destruct (IH q' more pf eq_refl R Hcl) as (p' & I1 & I2 & I3 & I4 & I5);
        auto.
      { rewrite sv_len_app in *. unfold sv_len in *. lia. }
      exists p'. split_and; auto; try lia.
      eapply drains_more; eauto.
    + exists q'. split_and; auto.
      * now apply drains_done.
      * subst r. eapply drains_more; eauto.
Qed.

(** Whenever feeding the whole of the bytes at once empties the buffer into
    complete replies, feeding them chunk by chunk ends in the same parser,
    field by field. *)
Lemma feed_all_whole chunks : forall p pf,
  stalled p -> bulk_ok p ->
  sv_len (buffer p ++ List.concat chunks) <= INT_MAX ->
  feed p (List.concat chunks) = Ok pf -> state pf = RDBP_CLEAN ->
  feed_all p chunks = Ok pf.
Proof.
  induction chunks as [|c cs IH]; intros p pf Hs Hb Hmax H Hcl.
  - cbn in *. unfold feed in H. rewrite append_nil in H.
    unfold drain in H. cbn in H. unfold stalled in Hs. rewrite Hs in H.
    cbn in H. exact H.
  - cbn [List.concat feed_all] in *. unfold feed in *.
    rewrite <- append_append in H.
    assert (Hmax' : sv_len (buffer (append p c) ++ List.concat cs) <= INT_MAX).
    { cbn. now rewrite <- app_assoc. }
    apply drain_drains in H; auto.
    destruct (drains_split _ _ H (append p c) (List.concat cs) pf eq_refl eq_refl)
      as (p' & D1 & D2 & D3 & D4 & D5); auto.
    assert (Hc : sv_len (buffer (append p c)) <= INT_MAX).
    { rewrite sv_len_app in Hmax'. pose proof (sv_len_nonneg (List.concat cs)). lia. }
    rewrite (drains_drain _ _ D1) by auto. cbn [bind].
    apply IH; auto.
    + rewrite sv_len_app in *. unfold sv_len in *. lia.
    + apply drains_drain; auto.
      change (buffer (append p' (List.concat cs)))
        with (buffer p' ++ List.concat cs).
      rewrite sv_len_app in *. unfold sv_len in *. lia.
Qed.

(** ** Decimal notation and [atol] *)

Lemma digit_char_code d : 0 <= d <= 9 -> code (digit_char d) = 48 + d.
Proof.
  intros H. unfold code, digit_char.
  rewrite N_ascii_embedding by lia. lia.
Qed.

Lemma isdigit_digit_char d : 0 <= d <= 9 -> isdigit (digit_char d) = true.
Proof.
  intros H. unfold isdigit. rewrite digit_char_code by exact H.
  apply andb_true_iff. split; apply Z.leb_le; lia.
Qed.

Lemma isdigit_code c : isdigit c = true -> 48 <= code c <= 57.
Proof.
  unfold isdigit. intros H. apply andb_true_iff in H.
  destruct H as [H1 H2]. apply Z.leb_le in H1, H2. lia.
Qed.

Lemma isdigit_plain c :
  isdigit c = true ->
  isspace c = false /\ (c =? "-")%char = false /\ (c =? "+")%char = false /\
  (c =? CR)%char = false.
Proof.
  intros H. apply isdigit_code in H. split_and.
  - unfold isspace. apply orb_false_iff. split.
    + apply Z.eqb_neq. lia.
    + apply andb_false_iff. right. apply Z.leb_gt. lia.
  - apply Ascii.eqb_neq. intros ->. change (code "-"%char) with 45 in H. lia.
  - apply Ascii.eqb_neq. intros ->. change (code "+"%char) with 43 in H. lia.
  - apply Ascii.eqb_neq. intros ->. change (code CR) with 13 in H. lia.
Qed.

Lemma digits_value_all digits : forall acc rest,
  forallb isdigit digits = true ->
  digits_value acc (digits ++ rest) =
  digits_value (fold_left (fun a c => a * 10 + (code c - 48)) digits acc) rest.
Proof.
  induction digits as [|c tl IH]; intros acc rest H; [reflexivity|].
  cbn in H. apply andb_true_iff in H. destruct H as [H1 H2].
  cbn. rewrite H1. now apply IH.
Qed.

Lemma dec_digits_all fuel : forall n acc,
  0 <= n -> forallb isdigit acc = true ->
  forallb isdigit (dec_digits fuel n acc) = true.
Proof.
  induction fuel as [|fuel IH]; intros n acc Hn Ha; [exact Ha|].
  cbn -[Z.ltb Z.modulo Z.div].
  assert (Hd : forallb isdigit (digit_char (n mod 10) :: acc) = true).
  { cbn -[Z.modulo]. rewrite Ha, isdigit_digit_char; [reflexivity|].
    pose proof (Z.mod_pos_bound n 10). lia. }
  destruct (n <? 10); [exact Hd|].
  apply IH; [|exact Hd]. apply Z.div_pos; lia.
Qed.

Lemma dec_digits_value fuel : forall n acc,
  0 <= n < 2 ^ Z.of_nat fuel ->
  digits_value 0 (dec_digits fuel n acc) = digits_value n acc.
Proof.
  induction fuel as [|fuel IH]; intros n acc Hn.
  - change (2 ^ Z.of_nat 0) with 1 in Hn. assert (n = 0) by lia. now subst.
  - cbn -[Z.ltb Z.modulo Z.div].
    pose proof (Z.mod_pos_bound n 10 ltac:(lia)) as Hm.
    destruct (n <? 10) eqn:E.
    + cbn -[Z.modulo]. rewrite isdigit_digit_char, digit_char_code by lia.
      rewrite Z.mod_small by lia. f_equal. lia.
    + rewrite IH.
      * cbn -[Z.modulo Z.div].
        rewrite isdigit_digit_char, digit_char_code by lia.
        f_equal. pose proof (Z.div_mod n 10). lia.
      * rewrite Nat2Z.inj_succ, Z.pow_succ_r in Hn by lia.
        split; [apply Z.div_pos; lia|].
        apply Z.div_lt_upper_bound; lia.
Qed.

Lemma dec_fuel_enough n : 0 <= n -> 0 <= n < 2 ^ Z.of_nat (dec_fuel n).
Proof.
  intros H. split; [exact H|]. unfold dec_fuel.
  rewrite Nat2Z.inj_succ, Z2Nat.id by apply Z.log2_nonneg.
  destruct (Z.eq_dec n 0) as [->|N]; [reflexivity|].
  apply Z.log2_spec. lia.
Qed.

Lemma dec_digits_nonempty fuel : forall n acc,
  acc <> [] -> dec_digits fuel n acc <> [].
Proof.
  induction fuel as [|fuel IH]; intros n acc H; [exact H|].
  cbn -[Z.ltb Z.modulo Z.div]. destruct (n <? 10); [discriminate|].
  apply IH. discriminate.
Qed.

Lemma dec_digits_head fuel n :
  0 <= n ->
  exists c tl, dec_digits (S fuel) n [] = c :: tl /\ isdigit c = true.
Proof.
  intros H.
  pose proof (dec_digits_all (S fuel) n [] H eq_refl) as A.
  destruct (dec_digits (S fuel) n []) as [|c tl] eqn:E.
  - exfalso. revert E. cbn -[Z.ltb Z.modulo Z.div].
    destruct (n <? 10); [discriminate|].
    apply dec_digits_nonempty. discriminate.
  - exists c, tl. split; [reflexivity|].
    cbn in A. now apply andb_true_iff in A.
Qed.

Lemma saturate_long_id x : LONG_MIN <= x <= LONG_MAX -> saturate_long x = x.
Proof. unfold saturate_long. lia. Qed.

Lemma atol_digits digits rest :
  digits <> [] -> forallb isdigit digits = true ->
  atol (digits ++ rest) =
  saturate_long (digits_value (decimal_value digits) rest).
Proof.
  intros N A. destruct digits as [|c tl]; [congruence|].
  pose proof A as A'. cbn in A'. apply andb_true_iff in A'.
  destruct A' as [Hc _]. destruct (isdigit_plain c Hc) as (S1 & S2 & S3 & _).
  unfold atol. cbn [app skip_space]. rewrite S1, S2, S3.
  change (c :: tl ++ rest) with ((c :: tl) ++ rest).
  now rewrite digits_value_all.
Qed.

Lemma atol_minus digits rest :
  forallb isdigit digits = true ->
  atol ("-"%char :: digits ++ rest) =
  saturate_long (- digits_value (decimal_value digits) rest).
Proof.
  intros A. unfold atol. cbn [skip_space].
  change (isspace "-"%char) with false. cbv iota.
  change ("-" =? "-")%char with true. cbv iota.
  now rewrite digits_value_all.
Qed.

Lemma atol_plus digits rest :
  forallb isdigit digits = true ->
  atol ("+"%char :: digits ++ rest) =
  saturate_long (digits_value (decimal_value digits) rest).
Proof.
  intros A. unfold atol. cbn [skip_space].
  change (isspace "+"%char) with false. cbv iota.
  change ("+" =? "-")%char with false. change ("+" =? "+")%char with true.
  cbv iota. now rewrite digits_value_all.
Qed.

Lemma atol_integer_line line n :
  is_integer_line line n -> LONG_MIN <= n <= LONG_MAX -> atol line = n.
Proof.
  intros (digits & N & A & [(-> & ->)|[(-> & ->)|(-> & ->)]]) R.
  - rewrite <- (app_nil_r digits) at 1. rewrite atol_digits by auto.
    now apply saturate_long_id.
  - rewrite <- (app_nil_r digits) at 1. rewrite atol_plus by auto.
    now apply saturate_long_id.
  - rewrite <- (app_nil_r digits) at 1. rewrite atol_minus by auto.
    now apply saturate_long_id.
Qed.

Lemma decimal_value_dec n :
  0 <= n -> decimal_value (dec_digits (dec_fuel n) n []) = n.
Proof.
  intros H. pose proof (dec_digits_all (dec_fuel n) n [] H eq_refl) as A.
  pose proof (dec_digits_value (dec_fuel n) n [] (dec_fuel_enough n H)) as V.
  rewrite <- (app_nil_r (dec_digits _ _ _)) in V at 1.
  rewrite digits_value_all in V by exact A. exact V.
Qed.

Lemma decimal_is_integer_line n : is_integer_line (decimal n) n.
Proof.
  unfold decimal. destruct (n <? 0) eqn:E.
  - exists (dec_digits (dec_fuel (- n)) (- n) []).
    assert (H : 0 <= - n) by lia.
    destruct (dec_digits_head (Z.to_nat (Z.log2 (- n))) (- n) H) as (c & tl & D & _).
    split_and.
    + unfold dec_fuel. rewrite D. discriminate.
    + now apply dec_digits_all.
    + right. right. split; [reflexivity|]. rewrite decimal_value_dec; lia.
  - exists (dec_digits (dec_fuel n) n []).
    assert (H : 0 <= n) by lia.
    destruct (dec_digits_head (Z.to_nat (Z.log2 n)) n H) as (c & tl & D & _).
    split_and.
    + unfold dec_fuel. rewrite D. discriminate.
    + now apply dec_digits_all.
    + left. split; [reflexivity|]. now rewrite decimal_value_dec.
Qed.

Lemma atol_decimal n : LONG_MIN <= n <= LONG_MAX -> atol (decimal n) = n.
Proof. apply atol_integer_line, decimal_is_integer_line. Qed.

(** A line without CR holds no CR LF. *)
Lemma find_crlf_no_cr line :
  forallb (fun c => negb (c =? CR)%char) line = true -> find_crlf line = None.
Proof.
  induction line as [|c tl IH]; intros H; [reflexivity|].
  cbn in H. apply andb_true_iff in H. destruct H as [H1 H2].
  destruct tl as [|c1 tl']; [reflexivity|].
  rewrite find_crlf_cons. apply negb_true_iff in H1. rewrite H1.
  cbn [andb]. now rewrite (IH H2).
Qed.

Lemma integer_line_no_crlf line n : is_integer_line line n -> find_crlf line = None.
Proof.
  intros (digits & N & A & H).
  assert (D : forallb (fun c => negb (c =? CR)%char) digits = true).
  { clear -A. induction digits as [|c tl IH]; [reflexivity|].
    cbn in *. apply andb_true_iff in A. destruct A as [A1 A2].
    destruct (isdigit_plain c A1) as (_ & _ & _ & ->). now rewrite IH. }
  apply find_crlf_no_cr.
  destruct H as [(-> & _)|[(-> & _)|(-> & _)]]; [exact D|cbn; exact D..].
Qed.

Lemma decimal_no_crlf n : find_crlf (decimal n) = None.
Proof. exact (integer_line_no_crlf _ _ (decimal_is_integer_line n)). Qed.

(** The header line of a frame, as the readers find it. *)
Lemma header_line line rest :
  find_crlf line = None ->
  find_crlf (line ++ CRLF ++ rest) = Some (List.length line) /\
  firstn (List.length line) (line ++ CRLF ++ rest) = line /\
  skipn (List.length line + 2) (line ++ CRLF ++ rest) = rest.
Proof.
  intros H. split_and.
  - now apply find_crlf_line.
  - rewrite firstn_app, Nat.sub_diag, firstn_all. cbn. apply app_nil_r.
  - rewrite skipn_app, skipn_all2 by lia.
    replace (List.length line + 2 - List.length line)%nat with 2%nat by lia.
    reflexivity.
Qed.

Lemma sv_len_header line rest : 2 <= sv_len (line ++ CRLF ++ rest).
Proof.
  rewrite !sv_len_app. change (sv_len CRLF) with 2.
  pose proof (sv_len_nonneg line). pose proof (sv_len_nonneg rest). lia.
Qed.

(** ** Replies: induction through the nested lists *)

Lemma reply_nested_ind (P : reply -> Prop) :
  (forall line, P (SimpleString line)) ->
  (forall line, P (Error line)) ->
  (forall n, P (Integer n)) ->
  (forall payload, P (Bulk payload)) ->
  P NilBulk ->
  (forall items, Forall P items -> P (Array items)) ->
  P NilArray ->
  forall r, P r.
Proof.
  intros H1 H2 H3 H4 H5 H6 H7.
  fix IH 1. intros [line|line|n|payload| |items| ].
  - apply H1.
  - apply H2.
  - apply H3.
  - apply H4.
  - apply H5.
  - apply H6. induction items as [|r items IHitems]; constructor.
    + apply IH.
    + exact IHitems.
  - apply H7.
Qed.

Lemma encode_nonempty r : 3 <= sv_len (encode r).
Proof.
  destruct r; cbn [encode]; rewrite sv_len_cons;
    repeat rewrite sv_len_app; change (sv_len CRLF) with 2;
    repeat match goal with
           | |- context [sv_len ?x] =>
               lazymatch goal with
               | _ : 0 <= sv_len x |- _ => fail
               | _ => pose proof (sv_len_nonneg x)
               end
           end; lia.
Qed.

Lemma stream_length items :
  3 * Z.of_nat (List.length items) <= sv_len (List.concat (map encode items)).
Proof.
  induction items as [|r items IH]; [cbn; lia|].
  cbn [map List.concat List.length]. rewrite sv_len_app.
  pose proof (encode_nonempty r). lia.
Qed.

(** ** The completion cascade, case by case *)

Lemma then_loops_body p c res :
  loop_body p = c -> then_loops c res -> loops p res.
Proof.
  intros <- H. unfold then_loops in H.
  destruct (loop_body p) as [[[rv|] q]|m|f|] eqn:E.
  - subst res. now apply loops_return.
  - eapply loops_again; eauto.
  - subst res. now apply loops_croak.
  - subst res. now apply loops_fault.
  - contradiction.
Qed.

Lemma _reply_completed_top p v :
  mblk_level p = 0 -> _reply_completed p v = deliver p v.
Proof.
  intros H. unfold _reply_completed, deliver. rewrite H. reflexivity.
Qed.

(** An item that is not the last of its array. *)
Lemma _reply_completed_next u self cbs d buf st lvl acc ms ml bl cl v :
  lvl <> 0 -> 1 < ml ->
  _reply_completed (Parser u self cbs d buf st lvl (Some acc) ms ml bl cl) v =
  Ok (0, Parser u self cbs d buf RDBP_WAIT_BUCKS lvl (Some (acc ++ [v])) ms
                (ml - 1) bl cl).
Proof.
  intros Hl Hm. unfold _reply_completed, _mblk_item.
  cbn [mblk_level mblk_store].
  apply Z.eqb_neq in Hl. rewrite Hl. cbn [negb].
  cbn [_mblk_item_rec mblk_reply set_mblk_reply mblk_len].
  apply Z.ltb_lt in Hm. rewrite Hm. reflexivity.
Qed.

(** The last item of a nested array: the array is complete and is itself
    an item of the enclosing array. *)
Lemma _reply_completed_cascade u self cbs d buf st lvl acc s ms ml bl cl v :
  1 < lvl -> ml <= 1 ->
  _reply_completed
    (Parser u self cbs d buf st lvl (Some acc) (s :: ms) ml bl cl) v =
  _reply_completed
    (Parser u self cbs d buf st (lvl - 1) (store_mblk_reply s) ms
            (store_mblk_len s) bl cl)
    (SVrv_av (acc ++ [v])).
Proof.
  intros Hl Hm. unfold _reply_completed, _mblk_item.
  cbn [mblk_level mblk_store List.length].
  replace (lvl =? 0) with false by (symmetry; apply Z.eqb_neq; lia).
  replace (lvl - 1 =? 0) with false by (symmetry; apply Z.eqb_neq; lia).
  cbn [negb].
  set (n := S (List.length ms)).
  cbn [_mblk_item_rec mblk_reply set_mblk_reply mblk_len mblk_level
       set_mblk_level _mblk_status_fetch mblk_store bind].
  replace (1 <? ml) with false by (symmetry; apply Z.ltb_ge; lia).
  replace (1 <? lvl) with true by (symmetry; apply Z.ltb_lt; lia).
  reflexivity.
Qed.

(** The last item of a top-level array: the array is delivered, and
    [mblk_level] stays 1. *)
Lemma _reply_completed_last u self cbs d buf st acc ms ml bl cl v :
  ml <= 1 ->
  _reply_completed (Parser u self cbs d buf st 1 (Some acc) ms ml bl cl) v =
  deliver (Parser u self cbs d buf st 1 None ms ml bl cl) (SVrv_av (acc ++ [v])).
Proof.
  intros Hm. unfold _reply_completed, _mblk_item.
  cbn [mblk_level mblk_store]. change (1 =? 0) with false. cbn [negb].
  cbn [_mblk_item_rec mblk_reply set_mblk_reply mblk_len mblk_level].
  replace (1 <? ml) with false by (symmetry; apply Z.ltb_ge; lia).
  change (1 <? 1) with false. reflexivity.
Qed.

(** ** Reading one reply inside an array *)

Lemma wait_tag u self cbs d op body lvl mr ms ml bl cl s :
  op_state op = Some s -> (op =? "*")%char = false -> 1 <= sv_len body ->
  loop_body (Parser u self cbs d (op :: body) RDBP_WAIT_BUCKS lvl mr ms ml bl cl) =
  Ok (None, Parser u self cbs d body s lvl mr ms ml bl cl).
Proof.
  intros O E B.
  rewrite (body_wait_bucks _ op body); [|reflexivity|reflexivity|].
  - rewrite O, E. reflexivity.
  - intros ->. change (sv_len []) with 0 in B. lia.
Qed.

Lemma wait_star u self cbs d body lvl mr ms ml bl cl :
  1 <= sv_len body ->
  loop_body (Parser u self cbs d ("*"%char :: body) RDBP_WAIT_BUCKS lvl mr ms ml
                    bl cl) =
  Ok (None, Parser u self cbs d body RDBP_READ_MBLK_LEN (int_of (lvl + 1)) None
                   (MblkStore mr ml :: ms) ml bl cl).
Proof.
  intros B.
  rewrite (body_wait_bucks _ "*"%char body); [|reflexivity|reflexivity|].
  - reflexivity.
  - intros ->. change (sv_len []) with 0 in B. lia.
Qed.

Ltac len_facts :=
  repeat (rewrite sv_len_cons in * || rewrite sv_len_app in *);
  change (sv_len CRLF) with 2 in *; change (sv_len []) with 0 in *;
  repeat match goal with
         | |- context [sv_len ?x] =>
             lazymatch goal with
             | _ : 0 <= sv_len x |- _ => fail
             | _ => pose proof (sv_len_nonneg x)
             end
         | _ : context [sv_len ?x] |- _ =>
             lazymatch goal with
             | _ : 0 <= sv_len x |- _ => fail
             | _ => pose proof (sv_len_nonneg x)
             end
         end.

Ltac fields :=
  cbv [set_callbacks set_default_cb set_buffer set_state set_mblk_level
       set_mblk_reply set_mblk_store set_mblk_len set_bulk_len set_calls
       utf8 redisdb callbacks default_cb buffer state mblk_level mblk_reply
       mblk_store mblk_len bulk_len calls store_mblk_reply store_mblk_len].

(** The five frames that are not arrays, read from the byte after the
    type tag, at any depth. *)

Lemma read_simple_string line u self cbs d rest lvl mr ms ml bl cl res :
  valid_reply u (SimpleString line) = true ->
  sv_len (line ++ CRLF ++ rest) <= INT_MAX ->
  then_loops
    (completed
       (_reply_completed
          (Parser u self cbs d rest RDBP_WAIT_BUCKS lvl mr ms ml bl cl)
          (SVpv line false)))
    res ->
  loops (Parser u self cbs d (line ++ CRLF ++ rest) RDBP_READ_LINE lvl mr ms ml
                bl cl)
        res.
Proof.
  intros V Hmax H. cbn [valid_reply] in V.
  destruct (find_crlf line) eqn:F; [discriminate|].
  eapply then_loops_body.
  { rewrite body_read_line; [|reflexivity|fields; len_facts; lia].
    fields. destruct (header_line line rest F) as (-> & -> & ->).
    reflexivity. }
  rewrite <- (_reply_completed_state _ _ RDBP_READ_LINE) in H. exact H.
Qed.

Lemma read_error line u self cbs d rest lvl mr ms ml bl cl res :
  valid_reply u (Error line) = true ->
  sv_len (line ++ CRLF ++ rest) <= INT_MAX ->
  then_loops
    (completed
       (_reply_completed
          (Parser u self cbs d rest RDBP_WAIT_BUCKS lvl mr ms ml bl cl)
          (SVerror (SVpv line false))))
    res ->
  loops (Parser u self cbs d (line ++ CRLF ++ rest) RDBP_READ_ERROR lvl mr ms ml
                bl cl)
        res.
Proof.
  intros V Hmax H. cbn [valid_reply] in V.
  destruct (find_crlf line) eqn:F; [discriminate|].
  eapply then_loops_body.
  { rewrite body_read_error; [|reflexivity|fields; len_facts; lia].
    fields. destruct (header_line line rest F) as (-> & -> & ->).
    reflexivity. }
  rewrite <- (_reply_completed_state _ _ RDBP_READ_ERROR) in H. exact H.
Qed.

Lemma read_integer n u self cbs d rest lvl mr ms ml bl cl res :
  valid_reply u (Integer n) = true ->
  sv_len (decimal n ++ CRLF ++ rest) <= INT_MAX ->
  then_loops
    (completed
       (_reply_completed
          (Parser u self cbs d rest RDBP_WAIT_BUCKS lvl mr ms ml bl cl)
          (SViv n)))
    res ->
  loops (Parser u self cbs d (decimal n ++ CRLF ++ rest) RDBP_READ_NUMBER lvl mr
                ms ml bl cl)
        res.
Proof.
  intros V Hmax H. cbn [valid_reply] in V. apply andb_true_iff in V.
  destruct V as [V1 V2]. apply Z.leb_le in V1, V2.
  pose proof (decimal_no_crlf n) as F.
  eapply then_loops_body.
  { rewrite body_read_number; [|reflexivity|fields; len_facts; lia].
    fields. destruct (header_line (decimal n) rest F) as (-> & -> & ->).
    rewrite atol_decimal by lia. reflexivity. }
  rewrite <- (_reply_completed_state _ _ RDBP_READ_NUMBER) in H. exact H.
Qed.

Lemma read_nil_bulk u self cbs d rest lvl mr ms ml bl cl res :
  sv_len (decimal (-1) ++ CRLF ++ rest) <= INT_MAX ->
  then_loops
    (completed
       (_reply_completed
          (Parser u self cbs d rest RDBP_WAIT_BUCKS lvl mr ms ml bl cl)
          SVundef))
    res ->
  loops (Parser u self cbs d (decimal (-1) ++ CRLF ++ rest) RDBP_READ_BULK_LEN
                lvl mr ms ml bl cl)
        res.
Proof.
  intros Hmax H.
  pose proof (decimal_no_crlf (-1)) as F.
  eapply then_loops_body.
  { rewrite body_read_bulk_len; [|reflexivity|fields; len_facts; lia].
    fields. destruct (header_line (decimal (-1)) rest F) as (-> & -> & ->).
    rewrite atol_decimal by (unfold LONG_MIN, LONG_MAX; lia). reflexivity. }
  rewrite <- (_reply_completed_state _ _ RDBP_READ_BULK_LEN) in H. exact H.
Qed.

Lemma bulk_take payload rest :
  firstn (Z.to_nat (sv_len payload)) (payload ++ CRLF ++ rest) = payload /\
  skipn (Z.to_nat (sv_len payload) + 2) (payload ++ CRLF ++ rest) = rest.
Proof.
  unfold sv_len. rewrite Nat2Z.id. split.
  - rewrite firstn_app, Nat.sub_diag, firstn_all. cbn [firstn]. apply app_nil_r.
  - rewrite skipn_app, skipn_all2 by lia.
    replace (List.length payload + 2 - List.length payload)%nat with 2%nat by lia.
    reflexivity.
Qed.

Lemma read_bulk payload u self cbs d rest lvl mr ms ml bl cl res :
  valid_reply u (Bulk payload) = true ->
  sv_len (decimal (sv_len payload) ++ CRLF ++ payload ++ CRLF ++ rest)
    <= INT_MAX ->
  then_loops
    (completed
       (_reply_completed
          (Parser u self cbs d rest RDBP_WAIT_BUCKS lvl mr ms ml
                  (sv_len payload) cl)
          (reply_sv u (Bulk payload))))
    res ->
  loops (Parser u self cbs d
                (decimal (sv_len payload) ++ CRLF ++ payload ++ CRLF ++ rest)
                RDBP_READ_BULK_LEN lvl mr ms ml bl cl)
        res.
Proof.
  intros V Hmax H. cbn [valid_reply reply_sv] in *.
  pose proof (decimal_no_crlf (sv_len payload)) as F.
  assert (R : 0 <= sv_len payload <= INT_MAX) by (len_facts; lia).
  eapply loops_again.
  { rewrite body_read_bulk_len; [|reflexivity|fields; len_facts; lia].
    fields.
    destruct (header_line (decimal (sv_len payload)) (payload ++ CRLF ++ rest) F)
      as (-> & -> & ->).
    rewrite atol_decimal by (unfold LONG_MIN, LONG_MAX, INT_MAX in *; lia).
    cbv zeta. rewrite (proj2 (Z.leb_le 0 (sv_len payload))) by lia.
    reflexivity. }
  fields.
  eapply then_loops_body.
  { rewrite body_read_bulk;
      [|reflexivity|fields; len_facts; lia
       |fields; unfold LONG_MAX, INT_MAX in *; lia].
    fields.
    replace (sv_len (payload ++ CRLF ++ rest) <? 2 + sv_len payload) with false
      by (symmetry; apply Z.ltb_ge; len_facts; lia).
    cbv zeta. destruct (bulk_take payload rest) as (-> & ->). reflexivity. }
  fields.
  destruct u.
  - rewrite V.
    rewrite <- (_reply_completed_state _ _ RDBP_READ_BULK) in H. exact H.
  - rewrite <- (_reply_completed_state _ _ RDBP_READ_BULK) in H. exact H.
Qed.

Lemma item_simple_string line : item_ok (SimpleString line).
Proof.
  intros u self cbs d rest lvl mr ms ml bl cl res V Hl Hmax H.
  cbn [encode app] in *. rewrite <- app_assoc in *.
  eapply loops_again.
  { apply wait_tag; [reflexivity|reflexivity|]. len_facts. lia. }
  apply read_simple_string; auto. len_facts. lia.
Qed.

Lemma item_error line : item_ok (Error line).
Proof.
  intros u self cbs d rest lvl mr ms ml bl cl res V Hl Hmax H.
  cbn [encode app] in *. rewrite <- app_assoc in *.
  eapply loops_again.
  { apply wait_tag; [reflexivity|reflexivity|]. len_facts. lia. }
  apply read_error; auto. len_facts. lia.
Qed.

Lemma item_integer n : item_ok (Integer n).
Proof.
  intros u self cbs d rest lvl mr ms ml bl cl res V Hl Hmax H.
  cbn [encode app] in *. rewrite <- app_assoc in *.
  eapply loops_again.
  { apply wait_tag; [reflexivity|reflexivity|]. len_facts. lia. }
  apply read_integer; auto. len_facts. lia.
Qed.

Lemma item_nil_bulk : item_ok NilBulk.
Proof.
  intros u self cbs d rest lvl mr ms ml bl cl res V Hl Hmax H.
  cbn [encode app] in *. rewrite <- app_assoc in *.
  eapply loops_again.
  { apply wait_tag; [reflexivity|reflexivity|]. len_facts. lia. }
  apply read_nil_bulk; auto. len_facts. lia.
Qed.

Lemma item_bulk payload : item_ok (Bulk payload).
Proof.
  intros u self cbs d rest lvl mr ms ml bl cl res V Hl Hmax H.
  cbn [encode app bulk_len_after] in *. rewrite <- !app_assoc in *.
  eapply loops_again.
  { apply wait_tag; [reflexivity|reflexivity|]. len_facts. lia. }
  apply read_bulk; auto. len_facts. lia.
Qed.

Lemma int_of_level lvl :
  1 <= lvl -> lvl + 1 <= INT_MAX ->
  int_of (lvl + 1) = lvl + 1 /\ int_of (lvl + 1 - 1) = lvl.
Proof.
  unfold INT_MAX. intros H1 H2. rewrite !int_of_small by lia. lia.
Qed.

Lemma item_nil_array : item_ok NilArray.
Proof.
  intros u self cbs d rest lvl mr ms ml bl cl res V Hl Hmax H.
  pose proof (decimal_no_crlf (-1)) as F.
  cbn [encode app] in *. rewrite <- app_assoc in *.
  destruct (int_of_level lvl Hl) as [I1 I2]; [len_facts; lia|].
  eapply loops_again.
  { apply wait_star. len_facts. lia. }
  rewrite I1.
  eapply then_loops_body.
  { rewrite body_read_mblk_len; [|reflexivity|fields; len_facts; lia].
    fields. destruct (header_line (decimal (-1)) rest F) as (-> & -> & ->).
    rewrite atol_decimal by (unfold LONG_MIN, LONG_MAX; lia).
    cbv zeta. change (0 <? -1) with false. change (-1 =? 0) with false.
    change (-1 =? -1) with true. cbn [orb].
    fields. rewrite I2.
    rewrite (proj2 (Z.ltb_lt 0 lvl)) by lia.
    unfold _mblk_status_fetch. fields. cbn [bind]. reflexivity. }
  rewrite <- (_reply_completed_state _ _ RDBP_READ_MBLK_LEN) in H. exact H.
Qed.

Lemma item_empty_array : item_ok (Array []).
Proof.
  intros u self cbs d rest lvl mr ms ml bl cl res V Hl Hmax H.
  pose proof (decimal_no_crlf 0) as F.
  cbn [encode app map List.concat List.length] in *.
  change (Z.of_nat 0) with 0 in *.
  rewrite app_nil_r in *. rewrite <- app_assoc in *.
  destruct (int_of_level lvl Hl) as [I1 I2]; [len_facts; lia|].
  eapply loops_again.
  { apply wait_star. len_facts. lia. }
  rewrite I1.
  eapply then_loops_body.
  { rewrite body_read_mblk_len; [|reflexivity|fields; len_facts; lia].
    fields. destruct (header_line (decimal 0) rest F) as (-> & -> & ->).
    rewrite atol_decimal by (unfold LONG_MIN, LONG_MAX; lia).
    cbv zeta. change (0 <? 0) with false. change (0 =? 0) with true.
    cbn [orb].
    fields. rewrite I2.
    rewrite (proj2 (Z.ltb_lt 0 lvl)) by lia.
    unfold _mblk_status_fetch. fields. cbn [bind]. reflexivity. }
  rewrite <- (_reply_completed_state _ _ RDBP_READ_MBLK_LEN) in H. exact H.
Qed.

(** ** Reading the items of an array *)

Lemma map_removelast_last {A B : Type} (f : A -> B) (l : list A) (d : A) :
  l <> [] -> map f (removelast l) ++ [f (last l d)] = map f l.
Proof.
  intros H. rewrite (app_removelast_last d H) at 3.
  now rewrite map_app.
Qed.

Lemma items_loop its :
  Forall item_ok its -> its <> [] ->
  forall u self cbs d rest lvl acc ms bl cl res,
    forallb (valid_reply u) its = true ->
    1 <= lvl ->
    lvl + sv_len (List.concat (map encode its) ++ rest) <= INT_MAX ->
    then_loops
      (completed
         (_reply_completed
            (Parser u self cbs d rest RDBP_WAIT_BUCKS lvl
                    (Some (acc ++ map (reply_sv u) (removelast its))) ms 1
                    (fold_left (fun bl r => bulk_len_after r bl) its bl) cl)
            (reply_sv u (last its NilBulk))))
      res ->
    loops (Parser u self cbs d (List.concat (map encode its) ++ rest)
                  RDBP_WAIT_BUCKS lvl (Some acc) ms
                  (Z.of_nat (List.length its)) bl cl)
          res.
Proof.
  induction its as [|x its IH]; intros HF HN; [congruence|].
  intros u self cbs d rest lvl acc ms bl cl res V Hl Hmax H.
  inversion HF as [|? ? Hx Hits]; subst.
  cbn [forallb] in V. apply andb_true_iff in V. destruct V as [Vx Vits].
  destruct its as [|y its'].
  - cbn [map List.concat List.length removelast last fold_left] in *.
    rewrite app_nil_r in *. change (Z.of_nat 1) with 1.
    apply Hx; auto.
  - cbn [map List.concat] in *. rewrite <- app_assoc in *.
    apply Hx; auto.
    rewrite _reply_completed_next.
    2: lia.
    2: { cbn [List.length]. lia. }
    cbn [completed bind]. change (negb (0 =? 0)) with false. cbv iota.
    cbn [then_loops].
    replace (Z.of_nat (List.length (x :: y :: its')) - 1)
      with (Z.of_nat (List.length (y :: its'))) by (cbn [List.length]; lia).
    apply IH; auto; try discriminate.
    + pose proof (encode_nonempty x). rewrite sv_len_app in Hmax. lia.
    + change (removelast (x :: y :: its')) with (x :: removelast (y :: its')) in H.
      change (last (x :: y :: its') NilBulk) with (last (y :: its') NilBulk) in H.
      cbn [map fold_left] in H.
      rewrite <- app_assoc. exact H.
Qed.

Lemma item_array items : Forall item_ok items -> item_ok (Array items).
Proof.
  intros HF. destruct items as [|x its]; [apply item_empty_array|].
  intros u self cbs d rest lvl mr ms ml bl cl res V Hl Hmax H.
  set (items := x :: its) in *.
  assert (HN : items <> []) by discriminate.
  pose proof (decimal_no_crlf (Z.of_nat (List.length items))) as F.
  cbn [valid_reply encode reply_sv bulk_len_after] in *.
  cbn [app] in *. rewrite <- !app_assoc in *.
  destruct (int_of_level lvl Hl) as [I1 I2]; [len_facts; lia|].
  pose proof (stream_length items) as SL.
  assert (NL : 1 <= Z.of_nat (List.length items)).
  { unfold items. cbn [List.length]. lia. }
  eapply loops_again.
  { apply wait_star. len_facts. lia. }
  rewrite I1.
  eapply loops_again.
  { rewrite body_read_mblk_len; [|reflexivity|fields; len_facts; lia].
    fields.
    destruct (header_line (decimal (Z.of_nat (List.length items)))
                          (List.concat (map encode items) ++ rest) F)
      as (-> & -> & ->).
    rewrite atol_decimal
      by (unfold LONG_MIN, LONG_MAX, INT_MAX in *; len_facts; lia).
    cbv zeta.
    rewrite (proj2 (Z.ltb_lt 0 (Z.of_nat (List.length items)))) by lia.
    reflexivity. }
  fields.
  apply items_loop; auto.
  - len_facts. lia.
  - len_facts. lia.
  - rewrite _reply_completed_cascade by lia.
    cbn [store_mblk_reply store_mblk_len app].
    rewrite (map_removelast_last (reply_sv u) items NilBulk HN).
    replace (lvl + 1 - 1) with lvl by lia. exact H.
Qed.

Lemma reply_item_ok r : item_ok r.
Proof.
  induction r using reply_nested_ind.
  - apply item_simple_string.
  - apply item_error.
  - apply item_integer.
  - apply item_bulk.
  - apply item_nil_bulk.
  - now apply item_array.
  - apply item_nil_array.
Qed.

(** ** A reply at top level *)

Lemma then_loops_deliver q v : then_loops (completed (deliver q v)) (deliver q v).
Proof.
  unfold deliver. cbv zeta.
  destruct (callbacks (set_state q RDBP_CLEAN)); [|reflexivity].
  destruct (default_cb (set_state q RDBP_CLEAN)); reflexivity.
Qed.

Lemma deliver_state u self cbs d buf st st' lvl mr ms ml bl cl v :
  deliver (Parser u self cbs d buf st lvl mr ms ml bl cl) v =
  deliver (Parser u self cbs d buf st' lvl mr ms ml bl cl) v.
Proof. reflexivity. Qed.

Lemma enter_clean u self cbs d op body lvl mr ms ml bl cl s :
  op_state op = Some s ->
  enter (Parser u self cbs d (op :: body) RDBP_CLEAN lvl mr ms ml bl cl) =
  Ok (if (op =? "*")%char
      then Parser u self cbs d body RDBP_READ_MBLK_LEN 1 mr ms ml bl cl
      else Parser u self cbs d body s 0 mr ms ml bl cl).
Proof.
  intros O. unfold enter. cbn [state].
  rewrite (read_op_eq _ op body) by reflexivity. rewrite O.
  destruct (op =? "*")%char; reflexivity.
Qed.

Lemma Ok_inj {A : Type} (a b : A) : Ok a = Ok b -> a = b.
Proof. congruence. Qed.

Lemma loops_valid_reply r u self cbs d rest lvl mr ms ml bl cl p1 :
  valid_reply u r = true ->
  sv_len (encode r ++ rest) <= INT_MAX ->
  enter (Parser u self cbs d (encode r ++ rest) RDBP_CLEAN lvl mr ms ml bl cl)
    = Ok p1 ->
  loops p1
    (deliver (Parser u self cbs d rest RDBP_CLEAN (level_after r)
                     (mblk_reply_after r mr) ms (mblk_len_after r ml)
                     (bulk_len_after r bl) cl)
             (reply_sv u r)).
Proof.
  intros V Hmax E.
  destruct r as [line|line|n|payload| |items| ];
    cbn [encode app] in *; rewrite <- ?app_assoc in *;
    match type of E with
    | enter (Parser _ _ _ _ (?op :: _) _ _ _ _ _ _ _) = _ =>
        let s := eval vm_compute in (op_state op) in
        match s with
        | Some ?s' =>
            rewrite (enter_clean u self cbs d op _ lvl mr ms ml bl cl s') in E
              by reflexivity
        end
    end;
    cbn [Ascii.eqb Bool.eqb andb] in E; apply Ok_inj in E; subst p1;
    cbn [level_after mblk_reply_after mblk_len_after bulk_len_after reply_sv].
  - apply read_simple_string; auto; [len_facts; lia|].
    rewrite _reply_completed_top by reflexivity.
    rewrite (deliver_state _ _ _ _ _ RDBP_WAIT_BUCKS RDBP_CLEAN). apply then_loops_deliver.
  - apply read_error; auto; [len_facts; lia|].
    rewrite _reply_completed_top by reflexivity.
    rewrite (deliver_state _ _ _ _ _ RDBP_WAIT_BUCKS RDBP_CLEAN). apply then_loops_deliver.
  - apply read_integer; auto; [len_facts; lia|].
    rewrite _reply_completed_top by reflexivity.
    rewrite (deliver_state _ _ _ _ _ RDBP_WAIT_BUCKS RDBP_CLEAN). apply then_loops_deliver.
  - apply read_bulk; auto; [len_facts; lia|].
    rewrite _reply_completed_top by reflexivity.
    rewrite (deliver_state _ _ _ _ _ RDBP_WAIT_BUCKS RDBP_CLEAN). apply then_loops_deliver.
  - apply read_nil_bulk; auto; [len_facts; lia|].
    rewrite _reply_completed_top by reflexivity.
    rewrite (deliver_state _ _ _ _ _ RDBP_WAIT_BUCKS RDBP_CLEAN). apply then_loops_deliver.
  - pose proof (decimal_no_crlf (Z.of_nat (List.length items))) as F.
    pose proof (stream_length items) as SL.
    destruct items as [|x its].
    + change (List.concat (map encode [])) with (@nil ascii) in *.
      change (@nil ascii ++ rest) with rest in *.
      change (Z.of_nat (List.length (@nil reply))) with 0 in *.
      cbn [fold_left].
      eapply then_loops_body.
      { rewrite body_read_mblk_len; [|reflexivity|fields; len_facts; lia].
        fields.
        destruct (header_line (decimal 0) rest F) as (-> & -> & ->).
        rewrite atol_decimal by (unfold LONG_MIN, LONG_MAX; lia).
        cbv zeta. change (0 <? 0) with false. change (0 =? 0) with true.
        cbn [orb]. fields. change (int_of (1 - 1)) with 0.
        change (0 <? 0) with false. cbn [bind]. reflexivity. }
      rewrite _reply_completed_top by reflexivity.
      rewrite (deliver_state _ _ _ _ _ RDBP_READ_MBLK_LEN RDBP_CLEAN).
      apply then_loops_deliver.
    + set (items := x :: its) in *.
      assert (HN : items <> []) by discriminate.
      assert (NL : 1 <= Z.of_nat (List.length items)).
      { unfold items. cbn [List.length]. lia. }
      eapply loops_again.
      { rewrite body_read_mblk_len; [|reflexivity|fields; len_facts; lia].
        fields.
        destruct (header_line (decimal (Z.of_nat (List.length items)))
                              (List.concat (map encode items) ++ rest) F)
          as (-> & -> & ->).
        rewrite atol_decimal
          by (unfold LONG_MIN, LONG_MAX, INT_MAX in *; len_facts; lia).
        cbv zeta.
        rewrite (proj2 (Z.ltb_lt 0 (Z.of_nat (List.length items)))) by lia.
        reflexivity. }
      fields.
      apply items_loop; auto.
      * apply Forall_forall. intros r _. apply reply_item_ok.
      * lia.
      * len_facts. lia.
      * rewrite _reply_completed_last by lia. cbn [app].
        rewrite (map_removelast_last (reply_sv u) items NilBulk HN).
        rewrite (deliver_state _ _ _ _ _ RDBP_WAIT_BUCKS RDBP_CLEAN).
        apply then_loops_deliver.
  - pose proof (decimal_no_crlf (-1)) as F.
    eapply then_loops_body.
    { rewrite body_read_mblk_len; [|reflexivity|fields; len_facts; lia].
      fields.
      destruct (header_line (decimal (-1)) rest F) as (-> & -> & ->).
      rewrite atol_decimal by (unfold LONG_MIN, LONG_MAX; lia).
      cbv zeta. change (0 <? -1) with false. change (-1 =? 0) with false.
      change (-1 =? -1) with true.
      cbn [orb]. fields. change (int_of (1 - 1)) with 0.
      change (0 <? 0) with false. cbn [bind]. reflexivity. }
    rewrite _reply_completed_top by reflexivity.
    rewrite (deliver_state _ _ _ _ _ RDBP_READ_MBLK_LEN RDBP_CLEAN).
    apply then_loops_deliver.
Qed.

Lemma encode_tag r :
  exists op body s, encode r = op :: body /\ op_state op = Some s.
Proof.
  destruct r; cbn [encode]; eexists _, _, _; (split; [reflexivity|]);
    reflexivity.
Qed.

Lemma bulk_ok_clean u self cbs d buf lvl mr ms ml bl cl :
  bulk_ok (Parser u self cbs d buf RDBP_CLEAN lvl mr ms ml bl cl).
Proof. unfold bulk_ok. discriminate. Qed.

(** From a parser in [RDBP_CLEAN], one call on the bytes of a valid reply
    delivers that reply and leaves what follows it in the buffer. *)
Lemma parse_reply_valid r u self cbs d rest lvl mr ms ml bl cl :
  valid_reply u r = true ->
  sv_len (encode r ++ rest) <= INT_MAX ->
  rdb_parser__parse_reply
    (Parser u self cbs d (encode r ++ rest) RDBP_CLEAN lvl mr ms ml bl cl) =
  deliver (Parser u self cbs d rest RDBP_CLEAN (level_after r)
                  (mblk_reply_after r mr) ms (mblk_len_after r ml)
                  (bulk_len_after r bl) cl)
          (reply_sv u r).
Proof.
  intros V Hmax.
  destruct (encode_tag r) as (op & body & s & E & O).
  assert (En : exists p1,
    enter (Parser u self cbs d (encode r ++ rest) RDBP_CLEAN lvl mr ms ml bl cl)
    = Ok p1).
  { rewrite E. cbn [app]. erewrite enter_clean by exact O. eauto. }
  destruct En as [p1 En].
  apply (loops_parse_reply _ p1);
    [cbn [buffer]; rewrite E; discriminate | exact Hmax | apply bulk_ok_clean
    | exact En | eapply loops_valid_reply; eauto].
Qed.

(** ** A stream of replies *)

Lemma drains_stream rs : forall u self cbs d lvl mr ms ml bl cl cs,
  forallb (valid_reply u) rs = true ->
  sv_len (stream rs) <= INT_MAX ->
  deliveries self cbs d (map (reply_sv u) rs) = Some cs ->
  exists pf,
    drains (Parser u self cbs d (stream rs) RDBP_CLEAN lvl mr ms ml bl cl) (Ok pf) /\
    state pf = RDBP_CLEAN /\ buffer pf = [] /\ calls pf = cl ++ cs /\
    callbacks pf = skipn (List.length rs) cbs /\ default_cb pf = d /\
    mblk_store pf = ms.
Proof.
  induction rs as [|r rs IH]; intros u self cbs d lvl mr ms ml bl cl cs V Hmax D.
  - cbn in D. injection D as <-.
    exists (Parser u self cbs d [] RDBP_CLEAN lvl mr ms ml bl cl).
    split_and; try reflexivity.
    + apply drains_done. now apply parse_reply_empty.
    + cbn. now rewrite app_nil_r.
  - cbn [forallb] in V. apply andb_true_iff in V. destruct V as [Vr Vrs].
    unfold stream in *. cbn [map List.concat] in *.
    pose proof (encode_nonempty r) as Hr.
    assert (Hrs : sv_len (List.concat (map encode rs)) <= INT_MAX).
    { rewrite sv_len_app in Hmax. lia. }
    pose proof (parse_reply_valid r u self cbs d (List.concat (map encode rs))
                  lvl mr ms ml bl cl Vr Hmax) as P.
    unfold deliver in P. cbv zeta in P.
    cbn [set_state callbacks default_cb] in P.
    cbn [deliveries] in D.
    destruct cbs as [|cb cbs'].
    + destruct d as [cb|]; [|discriminate].
      destruct (deliveries self [] (Some cb) (map (reply_sv u) rs)) as [cs'|] eqn:D';
        [|discriminate].
      injection D as <-.
      destruct (IH u self [] (Some cb) (level_after r) (mblk_reply_after r mr) ms
                   (mblk_len_after r ml) (bulk_len_after r bl)
                   (cl ++ [Call cb self (reply_sv u r)]) cs' Vrs Hrs D')
        as (pf & I1 & I2 & I3 & I4 & I5 & I6 & I7).
      exists pf. split_and; auto.
      * eapply drains_more; [exact P|discriminate|exact I1].
      * rewrite I4, <- app_assoc. reflexivity.
      * rewrite I5. now rewrite !skipn_nil.
    + destruct (deliveries self cbs' d (map (reply_sv u) rs)) as [cs'|] eqn:D';
        [|discriminate].
      injection D as <-.
      destruct (IH u self cbs' d (level_after r) (mblk_reply_after r mr) ms
                   (mblk_len_after r ml) (bulk_len_after r bl)
                   (cl ++ [Call cb self (reply_sv u r)]) cs' Vrs Hrs D')
        as (pf & I1 & I2 & I3 & I4 & I5 & I6 & I7).
      exists pf. split_and; auto.
      * eapply drains_more; [exact P|discriminate|exact I1].
      * rewrite I4, <- app_assoc. reflexivity.
Qed.

(** The replies of a valid stream are delivered in order, whatever the
    chunks the stream arrives in. *)
Lemma feed_stream rs chunks p cs :
  state p = RDBP_CLEAN -> buffer p = [] ->
  forallb (valid_reply (utf8 p)) rs = true ->
  sv_len (stream rs) <= INT_MAX ->
  deliveries (redisdb p) (callbacks p) (default_cb p)
             (map (reply_sv (utf8 p)) rs) = Some cs ->
  List.concat chunks = stream rs ->
  exists pf,
    feed p (stream rs) = Ok pf /\ feed_all p chunks = Ok pf /\
    calls pf = calls p ++ cs /\ state pf = RDBP_CLEAN /\ buffer pf = [].
Proof.
  intros St B V Hmax D C.
  destruct p as [u self cbs d buf st lvl mr ms ml bl cl].
  cbn [state buffer utf8 redisdb callbacks default_cb calls] in *. subst st buf.
  destruct (drains_stream rs u self cbs d lvl mr ms ml bl cl cs V Hmax D)
    as (pf & I1 & I2 & I3 & I4 & _).
  set (p := Parser u self cbs d [] RDBP_CLEAN lvl mr ms ml bl cl) in *.
  assert (F : feed p (stream rs) = Ok pf).
  { unfold feed. apply drains_drain.
    - exact I1.
    - exact Hmax.
    - apply bulk_ok_clean. }
  exists pf. split_and; auto.
  apply feed_all_whole; auto.
  - apply parse_reply_empty. reflexivity.
  - apply bulk_ok_clean.
  - rewrite C. exact Hmax.
  - rewrite C. exact F.
Qed.

(** * The claims *)

Lemma resume_after_need_more q more q1 q2 :
  bulk_ok q -> sv_len (buffer q ++ more) <= INT_MAX ->
  rdb_parser__parse_reply q = Ok (0, q1) ->
  rdb_parser__parse_reply (append q more) = Ok (1, q2) ->
  rdb_parser__parse_reply (append q1 more) = Ok (1, q2).
Proof.
  intros Hb Hmax H0 H1.
  destruct (parse_prefix q more q2 Hmax Hb H1)
    as [(q' & Q1 & _)|(q' & Q1 & _ & _ & _ & Q5)]; [congruence|].
  rewrite H0 in Q1. injection Q1 as <-. exact Q5.
Qed.

(** C1.  For every stream [stream rs] of valid replies of at most [INT_MAX]
    bytes and every way [chunks] of cutting it, a parser between two replies
    with an empty buffer, fed the chunks one at a time and drained after each,
    ends as the parser fed the whole stream at once does, field by field; the
    calls made are the deliveries of the values of [rs], in order.  And a
    call that returned 0 on part of the bytes keeps what the next call needs:
    once the other bytes are appended, the next call returns what a call on
    all the bytes returns. *)
Theorem chunks_deliver_as_whole rs chunks p cs :
  state p = RDBP_CLEAN -> buffer p = [] ->
  forallb (valid_reply (utf8 p)) rs = true ->
  sv_len (stream rs) <= INT_MAX ->
  deliveries (redisdb p) (callbacks p) (default_cb p)
             (map (reply_sv (utf8 p)) rs) = Some cs ->
  List.concat chunks = stream rs ->
  (exists pf,
     feed p (stream rs) = Ok pf /\ feed_all p chunks = Ok pf /\
     calls pf = calls p ++ cs /\ state pf = RDBP_CLEAN /\ buffer pf = []) /\
  (forall q more q1 q2,
     bulk_ok q -> sv_len (buffer q ++ more) <= INT_MAX ->
     rdb_parser__parse_reply q = Ok (0, q1) ->
     rdb_parser__parse_reply (append q more) = Ok (1, q2) ->
     rdb_parser__parse_reply (append q1 more) = Ok (1, q2)).
Proof.
  intros St B V Hmax D C. split.
  - now apply feed_stream.
  - apply resume_after_need_more.
Qed.

Lemma parse_reply_level p lvl :
  state p = RDBP_CLEAN -> buffer p <> [] ->
  rdb_parser__parse_reply (set_mblk_level p lvl) = rdb_parser__parse_reply p.
Proof.
  intros St B. rewrite !parse_reply_enter by exact B.
  unfold enter. change (state (set_mblk_level p lvl)) with (state p).
  rewrite St. destruct p; reflexivity.
Qed.

(** C10.  With an empty buffer [rdb_parser__parse_reply] returns 0 and
    leaves the parser as it is, in every state. *)
Theorem parse_reply_empty_buffer p :
  buffer p = [] -> rdb_parser__parse_reply p = Ok (0, p).
Proof. apply parse_reply_empty. Qed.

Lemma loop_body_pending_bulk p :
  state p = RDBP_READ_BULK -> 0 <= bulk_len p <= LONG_MAX ->
  sv_len (buffer p) < bulk_len p + 2 ->
  loop_body p = Ok (Some 0, p).
Proof.
  intros St Hb Hlen.
  destruct (Z.lt_ge_cases (sv_len (buffer p)) 2) as [Hs|Hl].
  - now apply loop_body_short.
  - rewrite body_read_bulk by auto.
    now rewrite (proj2 (Z.ltb_lt _ _)) by lia.
Qed.

Lemma parse_reply_pending p :
  state p <> RDBP_CLEAN -> loop_body p = Ok (Some 0, p) ->
  rdb_parser__parse_reply p = Ok (0, p).
Proof.
  intros St H. unfold rdb_parser__parse_reply.
  destruct (sv_len (buffer p) =? 0); [reflexivity|].
  destruct (state p); try congruence; cbn [bind parse_loop]; rewrite H;
    reflexivity.
Qed.

Lemma parse_bulk_invalid_utf8 payload self cbs d rest lvl mr ms ml bl cl :
  is_utf8_string payload = false ->
  sv_len (encode (Bulk payload) ++ rest) <= INT_MAX ->
  rdb_parser__parse_reply
    (Parser true self cbs d (encode (Bulk payload) ++ rest) RDBP_CLEAN lvl mr ms
            ml bl cl) =
  Croak "Received invalid UTF-8 string from the server".
Proof.
  intros U Hmax. cbn [encode app] in *. rewrite <- !app_assoc in *.
  pose proof (decimal_no_crlf (sv_len payload)) as F.
  assert (R : 0 <= sv_len payload <= INT_MAX) by (len_facts; lia).
  eapply loops_parse_reply;
    [discriminate|exact Hmax|apply bulk_ok_clean
    |apply enter_clean; reflexivity|].
  cbn [Ascii.eqb Bool.eqb andb].
  eapply loops_again.
  { rewrite body_read_bulk_len; [|reflexivity|fields; len_facts; lia].
    fields.
    destruct (header_line (decimal (sv_len payload)) (payload ++ CRLF ++ rest) F)
      as (-> & -> & ->).
    rewrite atol_decimal by (unfold LONG_MIN, LONG_MAX, INT_MAX in *; lia).
    cbv zeta. rewrite (proj2 (Z.leb_le 0 (sv_len payload))) by lia.
    reflexivity. }
  fields. apply loops_croak.
  rewrite body_read_bulk;
    [|reflexivity|fields; len_facts; lia
     |fields; unfold LONG_MAX, INT_MAX in *; lia].
  fields.
  replace (sv_len (payload ++ CRLF ++ rest) <? 2 + sv_len payload) with false
    by (symmetry; apply Z.ltb_ge; len_facts; lia).
  cbv zeta. destruct (bulk_take payload rest) as (-> & ->).
  now rewrite U.
Qed.

(** C3, as amended.  In the state [RDBP_READ_BULK] with [bulk_len] = len:
    with fewer than len + 2 bytes in the buffer the call returns 0 and
    changes nothing; otherwise one pass takes the first len bytes as the
    value, whatever they are, drops len + 2 bytes and completes the reply,
    or croaks when the parser is in UTF-8 mode and the bytes are not valid.
    From [RDBP_CLEAN], the frame of a bulk string is delivered as that byte
    string and the frame [$-1] as the undefined value; in UTF-8 mode the
    frame of an invalid payload croaks.  The length is what counts: the four
    bytes a CR LF b sent as [$4] are delivered as they are. *)
Theorem bulk_reply_by_length payload u self cbs d rest lvl mr ms ml bl cl :
  valid_reply u (Bulk payload) = true ->
  sv_len (encode (Bulk payload) ++ rest) <= INT_MAX ->
  (forall p,
     state p = RDBP_READ_BULK -> 0 <= bulk_len p <= LONG_MAX ->
     (sv_len (buffer p) < bulk_len p + 2 ->
      rdb_parser__parse_reply p = Ok (0, p)) /\
     (bulk_len p + 2 <= sv_len (buffer p) ->
      let value := firstn (Z.to_nat (bulk_len p)) (buffer p) in
      let p' := set_buffer p (skipn (Z.to_nat (bulk_len p) + 2) (buffer p)) in
      loop_body p =
      if utf8 p then
        if is_utf8_string value
        then completed (_reply_completed p'
               (SVpv value (existsb (fun c => 128 <=? code c) value)))
        else Croak "Received invalid UTF-8 string from the server"
      else completed (_reply_completed p' (SVpv value false)))) /\
  rdb_parser__parse_reply
    (Parser u self cbs d (encode (Bulk payload) ++ rest) RDBP_CLEAN lvl mr ms ml
            bl cl) =
  deliver (Parser u self cbs d rest RDBP_CLEAN 0 mr ms ml (sv_len payload) cl)
          (reply_sv u (Bulk payload)) /\
  rdb_parser__parse_reply
    (Parser u self cbs d (encode NilBulk ++ rest) RDBP_CLEAN lvl mr ms ml bl cl) =
  deliver (Parser u self cbs d rest RDBP_CLEAN 0 mr ms ml bl cl) SVundef /\
  (forall junk,
     is_utf8_string junk = false ->
     sv_len (encode (Bulk junk) ++ rest) <= INT_MAX ->
     rdb_parser__parse_reply
       (Parser true self cbs d (encode (Bulk junk) ++ rest) RDBP_CLEAN lvl mr ms
               ml bl cl) =
     Croak "Received invalid UTF-8 string from the server") /\
  encode (Bulk ["a"; CR; LF; "b"]%char) =
  bytes_of "$4" ++ CRLF ++ ["a"; CR; LF; "b"]%char ++ CRLF.
Proof.
  intros V Hmax. split_and.
  - intros p St Hb. split.
    + intros Hlen. apply parse_reply_pending; [congruence|].
      now apply loop_body_pending_bulk.
    + intros Hlen. cbv zeta.
      rewrite body_read_bulk; auto.
      * now rewrite (proj2 (Z.ltb_ge _ _)) by lia.
      * lia.
  - now apply (parse_reply_valid (Bulk payload)).
  - apply (parse_reply_valid NilBulk); [reflexivity|].
    cbn [encode app] in *. len_facts.
    change (sv_len (decimal (-1))) with 2. lia.
  - intros junk U HJ. now apply parse_bulk_invalid_utf8.
  - reflexivity.
Qed.

(** C4.  In the state [RDBP_READ_MBLK_LEN], on a buffer that starts with the
    header line of the length len: if len > 0, one pass makes a new empty
    array the current one, with len items to come, in the state
    [RDBP_WAIT_BUCKS]; if len is 0 or -1, the pass produces an empty array,
    or the undefined value that also stands for a nil bulk string, and
    decrements [mblk_level]: at level 1 the value is delivered at top level
    with nothing fetched from the stack; at a deeper level the outer frame is
    first fetched from the stack and the value then becomes its next item. *)
Theorem mblk_header len p rest :
  state p = RDBP_READ_MBLK_LEN ->
  buffer p = decimal len ++ CRLF ++ rest ->
  sv_len (buffer p) <= INT_MAX ->
  LONG_MIN <= len <= LONG_MAX ->
  (0 < len ->
   loop_body p =
   Ok (None, set_mblk_reply
               (set_state (set_mblk_len (set_buffer p rest) len) RDBP_WAIT_BUCKS)
               (Some []))) /\
  (len = 0 \/ len = -1 ->
   let value := if len =? 0 then SVrv_av [] else SVundef in
   (mblk_level p = 1 ->
    loop_body p =
    completed (deliver (set_mblk_level (set_buffer p rest) 0) value)) /\
   (forall s ms acc,
      1 < mblk_level p <= INT_MAX ->
      mblk_store p = s :: ms -> store_mblk_reply s = Some acc ->
      let outer :=
        set_mblk_store
          (set_mblk_reply
             (set_mblk_len
                (set_mblk_level (set_buffer p rest) (mblk_level p - 1))
                (store_mblk_len s))
             (Some acc))
          ms in
      loop_body p = completed (_reply_completed outer value) /\
      (1 < store_mblk_len s ->
       loop_body p =
       Ok (None,
           set_state
             (set_mblk_len (set_mblk_reply outer (Some (acc ++ [value])))
                           (store_mblk_len s - 1))
             RDBP_WAIT_BUCKS)))).
Proof.
  intros St B Hmax R.
  pose proof (decimal_no_crlf len) as F.
  assert (Hl : 2 <= sv_len (buffer p) <= INT_MAX).
  { split; [|exact Hmax]. rewrite B. apply sv_len_header. }
  assert (E : loop_body p =
    let p := set_buffer p rest in
    if 0 <? len then
      Ok (None, set_mblk_reply
                  (set_state (set_mblk_len p len) RDBP_WAIT_BUCKS) (Some []))
    else if (len =? 0) || (len =? -1) then
      let mblk := if len =? 0 then SVrv_av [] else SVundef in
      let p := set_mblk_level p (int_of (mblk_level p - 1)) in
      p <- (if 0 <? mblk_level p then _mblk_status_fetch p else Ok p) ;;
      completed (_reply_completed p mblk)
    else Ok (Some 0, p)).
  { rewrite body_read_mblk_len by assumption. rewrite B.
    destruct (header_line (decimal len) rest F) as (-> & -> & ->).
    now rewrite atol_decimal by exact R. }
  split.
  - intros Hpos. rewrite E. cbv zeta.
    now rewrite (proj2 (Z.ltb_lt 0 len)) by exact Hpos.
  - intros Hz. cbv zeta.
    assert (Z1 : (0 <? len) = false) by (apply Z.ltb_ge; lia).
    assert (Z2 : (len =? 0) || (len =? -1) = true).
    { destruct Hz as [-> | ->]; reflexivity. }
    split.
    + intros L. rewrite E. cbv zeta. rewrite Z1, Z2.
      change (mblk_level (set_buffer p rest)) with (mblk_level p).
      rewrite L. change (int_of (1 - 1)) with 0.
      cbn [mblk_level set_mblk_level]. change (0 <? 0) with false.
      cbn [bind]. now rewrite _reply_completed_top by reflexivity.
    + intros s ms acc L S A. unfold INT_MAX in L.
      assert (E' : loop_body p =
        completed
          (_reply_completed
             (set_mblk_store
                (set_mblk_reply
                   (set_mblk_len
                      (set_mblk_level (set_buffer p rest) (mblk_level p - 1))
                      (store_mblk_len s))
                   (Some acc))
                ms)
             (if len =? 0 then SVrv_av [] else SVundef))).
      { rewrite E. cbv zeta. rewrite Z1, Z2.
        change (mblk_level (set_buffer p rest)) with (mblk_level p).
        rewrite int_of_small by lia.
        cbn [mblk_level set_mblk_level].
        rewrite (proj2 (Z.ltb_lt 0 (mblk_level p - 1))) by lia.
        unfold _mblk_status_fetch.
        change (mblk_store (set_mblk_level (set_buffer p rest) (mblk_level p - 1)))
          with (mblk_store p).
        rewrite S, A. reflexivity. }
      split; [exact E'|].
      intros M. rewrite E'.
      destruct p as [u self cbs d buf st lvl mr0 ms0 ml bl cl].
      destruct s as [sr sl]. cbn [mblk_level store_mblk_len] in L, M. fields.
      rewrite _reply_completed_next by lia. reflexivity.
Qed.

Lemma delivered_calls p p' :
  delivered p p' -> List.length (calls p') = S (List.length (calls p)).
Proof.
  intros [v H]. destruct (callbacks p).
  - destruct H as (cb & _ & _ & _ & ->). rewrite length_app. cbn. lia.
  - destruct H as (_ & _ & ->). rewrite length_app. cbn. lia.
Qed.

Lemma run_counts ops : forall p n pf,
  bulk_ok p -> sv_len (buffer p) + appended ops <= INT_MAX ->
  run ops p = Ok (n, pf) ->
  List.length (calls pf) = (List.length (calls p) + n)%nat.
Proof.
  induction ops as [|op ops IH]; intros p n pf Hb Hmax H.
  - cbn in H. injection H as <- <-. lia.
  - destruct op as [chunk|cb|cb| ]; cbn [run appended] in *.
    + apply IH in H; auto. cbn [buffer append set_buffer].
      rewrite sv_len_app. lia.
    + apply IH in H; auto.
    + apply IH in H; auto.
    + destruct (rdb_parser__parse_reply p) as [[rv p']| | |] eqn:P;
        try discriminate.
      cbn [bind] in H.
      destruct (run ops p') as [[n' pf']| | |] eqn:Rn; try discriminate.
      cbn [bind] in H. injection H as <- <-.
      assert (Hp : sv_len (buffer p) <= INT_MAX).
      { clear -Hmax. revert Hmax. generalize (sv_len (buffer p)).
        induction ops as [|[c| | | ] ops IH]; cbn [appended]; intros z H;
          try (apply IH; exact H); [lia|].
        pose proof (sv_len_nonneg c). apply IH. lia. }
      destruct (parse_reply_result p rv p' Hp Hb P)
        as (R1 & R2 & _ & _ & [(-> & (_ & _ & U) & _)|(-> & _ & Dl & _)]).
      * apply IH in Rn; auto; [|unfold sv_len in *; lia].
        rewrite Rn, U. reflexivity.
      * apply IH in Rn; auto; [|unfold sv_len in *; lia].
        rewrite Rn, (delivered_calls _ _ Dl). cbn. lia.
Qed.

Lemma propagate_loop_drains cbs : forall p fuel reply,
  callbacks p = cbs -> (List.length cbs + 2 <= fuel)%nat ->
  propagate_loop fuel p reply =
  Ok (set_calls
        (set_default_cb (set_callbacks p []) None)
        (calls p ++
         map (fun cb => Call cb (redisdb p) reply)
             (cbs ++ match default_cb p with Some cb => [cb] | None => [] end))).
Proof.
  induction cbs as [|cb rest IH]; intros p fuel reply C F.
  - destruct fuel as [|[|fuel]]; cbn [List.length] in F; try lia.
    destruct p as [u self cbs d buf st lvl mr ms ml bl cl].
    cbn [callbacks] in C. subst cbs.
    destruct d as [cb|]; cbn.
    + reflexivity.
    + now rewrite app_nil_r.
  - destruct fuel as [|fuel]; cbn [List.length] in F; try lia.
    destruct p as [u self cbs d buf st lvl mr ms ml bl cl].
    cbn [callbacks] in C. subst cbs.
    cbn [propagate_loop callbacks].
    rewrite (IH _ fuel reply); [|reflexivity|lia].
    cbn. now rewrite <- app_assoc.
Qed.

(** C6.  [rdb_parser__propagate_reply] calls every callback of the queue, in
    the order of the queue, and then the default callback if there is one,
    each with the client and the reply; it leaves the queue empty and no
    default callback.  A delivery to the default callback leaves it in
    place. *)
Theorem propagate_reply_drains p reply :
  rdb_parser__propagate_reply p reply =
  Ok (set_calls
        (set_default_cb (set_callbacks p []) None)
        (calls p ++
         map (fun cb => Call cb (redisdb p) reply)
             (callbacks p ++
              match default_cb p with Some cb => [cb] | None => [] end))) /\
  (forall cb,
     mblk_level p = 0 -> callbacks p = [] -> default_cb p = Some cb ->
     exists p', _reply_completed p reply = Ok (1, p') /\
                callbacks p' = [] /\ default_cb p' = Some cb /\
                calls p' = calls p ++ [Call cb (redisdb p) reply]).
Proof.
  split.
  - unfold rdb_parser__propagate_reply. now apply propagate_loop_drains.
  - intros cb L C D. rewrite (_reply_completed_top p reply L).
    unfold deliver. cbv zeta.
    change (callbacks (set_state p RDBP_CLEAN)) with (callbacks p).
    change (default_cb (set_state p RDBP_CLEAN)) with (default_cb p).
    rewrite C, D. eexists. split; [reflexivity|]. cbn. auto.
Qed.

(** C7.  The five type tags select the five states and no other byte selects
    any.  Entered in [RDBP_CLEAN] with bytes in the buffer,
    [rdb_parser__parse_reply] drops exactly the first byte and enters the
    loop in the state of that tag, with [mblk_level] 1 for [*] and 0 for any
    other tag, or croaks "Got invalid reply".  In [RDBP_WAIT_BUCKS], with at
    least two bytes in the buffer, one pass drops exactly the first byte and
    selects the state of that tag, or croaks; for [*] it also pushes the
    current array and its count on the stack, leaves no current array and
    increments [mblk_level]. *)
Theorem type_tag_dispatch p op rest :
  buffer p = op :: rest ->
  (op_state "+" = Some RDBP_READ_LINE /\ op_state "-" = Some RDBP_READ_ERROR /\
   op_state ":" = Some RDBP_READ_NUMBER /\ op_state "$" = Some RDBP_READ_BULK_LEN /\
   op_state "*" = Some RDBP_READ_MBLK_LEN /\
   (op <> "+"%char -> op <> "-"%char -> op <> ":"%char -> op <> "$"%char ->
    op <> "*"%char -> op_state op = None)) /\
  (state p = RDBP_CLEAN ->
   rdb_parser__parse_reply p =
   match op_state op with
   | None => Croak "Got invalid reply"
   | Some s =>
       parse_loop (S (List.length rest))
         (set_mblk_level (set_state (set_buffer p rest) s)
                         (if (op =? "*")%char then 1 else 0))
   end) /\
  (state p = RDBP_WAIT_BUCKS -> rest <> [] ->
   loop_body p =
   match op_state op with
   | None =>
       Croak "Invalid multi-bulk reply. Expected [$:+-*] but got something else"
   | Some s =>
       Ok (None,
           if (op =? "*")%char
           then Parser (utf8 p) (redisdb p) (callbacks p) (default_cb p) rest
                       RDBP_READ_MBLK_LEN (int_of (mblk_level p + 1)) None
                       (MblkStore (mblk_reply p) (mblk_len p) :: mblk_store p)
                       (mblk_len p) (bulk_len p) (calls p)
           else set_state (set_buffer p rest) s)
   end).
Proof.
  intros B. split_and; try reflexivity.
  - intros N1 N2 N3 N4 N5. unfold op_state.
    apply Ascii.eqb_neq in N1, N2, N3, N4, N5.
    now rewrite N1, N2, N3, N4, N5.
  - intros St. rewrite parse_reply_enter by (rewrite B; discriminate).
    unfold enter. rewrite St, (read_op_eq p op rest B).
    destruct (op =? "*")%char eqn:E.
    + apply Ascii.eqb_eq in E. subst op.
      change (op_state "*"%char) with (Some RDBP_READ_MBLK_LEN). cbn [bind].
      destruct p as [u self cbs d buf st lvl mr ms ml bl cl]. reflexivity.
    + destruct (op_state op); [|reflexivity]. cbn [bind].
      destruct p as [u self cbs d buf st lvl mr ms ml bl cl]. reflexivity.
  - intros St R. rewrite (body_wait_bucks p op rest St B R).
    destruct (op_state op); [|reflexivity].
    destruct (op =? "*")%char; reflexivity.
Qed.

(** C8.  On a buffer of 1 to [INT_MAX] bytes: when the first CR LF stands at
    offset [k], each of the three readers takes the bytes before it as the
    line and leaves the buffer without its first [k + 2] bytes; when there is
    no CR LF, each reports that and leaves the buffer as it is; the scan
    reads no byte past the end.  [rdb_parser__parse_reply], which does not
    call a reader on fewer than two bytes, never reads out of bounds. *)
Theorem line_readers_atomic b :
  b <> [] -> sv_len b <= INT_MAX ->
  (forall k,
     crlf_at b k -> (forall j, (j < k)%nat -> ~ crlf_at b j) ->
     _read_line b = Ok (Some (SVpv (firstn k b) false), skipn (k + 2) b) /\
     _read_number b = Ok (Some (SViv (atol (firstn k b))), skipn (k + 2) b) /\
     _read_length b = Ok (atol (firstn k b), skipn (k + 2) b)) /\
  ((forall k, ~ crlf_at b k) ->
   _read_line b = Ok (None, b) /\ _read_number b = Ok (None, b) /\
   _read_length b = Ok (-2, b)) /\
  (exists len, _line_length b (sv_len b) = Ok len) /\
  (forall p,
     bulk_ok p -> sv_len (buffer p) <= INT_MAX ->
     rdb_parser__parse_reply p <> Fault OutOfBounds).
Proof.
  intros N Hmax.
  assert (H : 1 <= sv_len b <= INT_MAX).
  { split; [|exact Hmax]. destruct b; [congruence|].
    rewrite sv_len_cons. pose proof (sv_len_nonneg b). lia. }
  split_and.
  - intros k C F.
    assert (E : find_crlf b = Some k) by (apply find_crlf_some; auto).
    rewrite _read_line_find, _read_number_find, _read_length_find by exact H.
    rewrite E. auto.
  - intros C. apply find_crlf_none in C.
    rewrite _read_line_find, _read_number_find, _read_length_find by exact H.
    rewrite C. auto.
  - rewrite _line_length_find by exact H. eauto.
  - intros p Hb Hp. now apply parse_reply_sound.
Qed.

Lemma atol_junk c tl :
  isspace c = false -> isdigit c = false ->
  c <> "-"%char -> c <> "+"%char -> atol (c :: tl) = 0.
Proof.
  intros S D M P. unfold atol. cbn [skip_space]. rewrite S.
  apply Ascii.eqb_neq in M, P. rewrite M, P.
  cbn [digits_value]. rewrite D. reflexivity.
Qed.

Lemma parse_number_line line u self cbs d rest lvl mr ms ml bl cl :
  find_crlf line = None ->
  sv_len (":"%char :: line ++ CRLF ++ rest) <= INT_MAX ->
  rdb_parser__parse_reply
    (Parser u self cbs d (":"%char :: line ++ CRLF ++ rest) RDBP_CLEAN lvl mr ms
            ml bl cl) =
  deliver (Parser u self cbs d rest RDBP_CLEAN 0 mr ms ml bl cl)
          (SViv (atol line)).
Proof.
  intros F Hmax.
  eapply loops_parse_reply;
    [discriminate|exact Hmax|apply bulk_ok_clean
    |apply enter_clean; reflexivity|].
  cbn [Ascii.eqb Bool.eqb andb].
  eapply then_loops_body.
  { rewrite body_read_number; [|reflexivity|fields; len_facts; lia].
    fields. destruct (header_line line rest F) as (-> & -> & ->).
    reflexivity. }
  rewrite _reply_completed_top by reflexivity.
  rewrite (deliver_state _ _ _ _ _ RDBP_READ_NUMBER RDBP_CLEAN).
  apply then_loops_deliver.
Qed.

(** C9.  A frame [:line CR LF] is delivered as the integer [atol line], for
    any line, and never as an error.  When the line is a signed base-10
    integer that fits a [long], that is the integer it denotes.  When the line
    starts with digits and goes on with something else, it is the number the
    digits denote, saturated to a [long]; when it is empty or starts with a
    byte that is neither white space, a sign nor a digit, it is 0. *)
Theorem read_number_value line u self cbs d rest lvl mr ms ml bl cl :
  find_crlf line = None ->
  sv_len (":"%char :: line ++ CRLF ++ rest) <= INT_MAX ->
  rdb_parser__parse_reply
    (Parser u self cbs d (":"%char :: line ++ CRLF ++ rest) RDBP_CLEAN lvl mr ms
            ml bl cl) =
  deliver (Parser u self cbs d rest RDBP_CLEAN 0 mr ms ml bl cl)
          (SViv (atol line)) /\
  _read_number (line ++ CRLF ++ rest) = Ok (Some (SViv (atol line)), rest) /\
  (forall n, is_integer_line line n -> LONG_MIN <= n <= LONG_MAX ->
             atol line = n) /\
  (forall digits junk,
     line = digits ++ junk -> digits <> [] -> forallb isdigit digits = true ->
     match junk with c :: _ => isdigit c = false | [] => True end ->
     atol line = saturate_long (decimal_value digits)) /\
  (forall c tl,
     line = c :: tl -> isspace c = false -> isdigit c = false ->
     c <> "-"%char -> c <> "+"%char -> atol line = 0) /\
  (line = [] -> atol line = 0).
Proof.
  intros F Hmax. split_and.
  - now apply parse_number_line.
  - rewrite _read_number_find by (len_facts; lia).
    destruct (header_line line rest F) as (-> & -> & ->). reflexivity.
  - intros n I R. now apply atol_integer_line.
  - intros digits junk -> N A J. rewrite atol_digits by assumption.
    f_equal. destruct junk as [|c tl]; [reflexivity|].
    cbn [digits_value]. now rewrite J.
  - intros c tl -> S D M P. now apply atol_junk.
  - intros ->. reflexivity.
Qed.

(** * Further properties of the code *)

(** ** What a call leaves in the buffer *)

Lemma _read_line_suffix b line buf :
  _read_line b = Ok (line, buf) -> exists k, buf = skipn k b.
Proof.
  unfold _read_line.
  destruct (_line_length b (sv_len b)) as [len| | |]; try discriminate.
  cbn [bind]. destruct (0 <=? len); intros H; injection H as <- <-.
  - eexists. reflexivity.
  - exists 0%nat. reflexivity.
Qed.

Lemma _read_number_suffix b num buf :
  _read_number b = Ok (num, buf) -> exists k, buf = skipn k b.
Proof.
  unfold _read_number.
  destruct (_line_length b (sv_len b)) as [len| | |]; try discriminate.
  cbn [bind]. destruct (0 <=? len) eqn:E; intros H; injection H as <- <-.
  - exists (Z.to_nat (len + 2)). unfold sv_chop. apply skipn_poke. lia.
  - exists 0%nat. reflexivity.
Qed.

Lemma _read_length_suffix b num buf :
  _read_length b = Ok (num, buf) -> exists k, buf = skipn k b.
Proof.
  unfold _read_length.
  destruct (_line_length b (sv_len b)) as [len| | |]; try discriminate.
  cbn [bind]. destruct (0 <=? len) eqn:E; intros H; injection H as <- <-.
  - exists (Z.to_nat (len + 2)). unfold sv_chop. apply skipn_poke. lia.
  - exists 0%nat. reflexivity.
Qed.

Lemma completed_frame q v o p' :
  completed (_reply_completed q v) = Ok (o, p') ->
  buffer p' = buffer q /\ utf8 p' = utf8 q /\ redisdb p' = redisdb q /\
  (o = None \/ o = Some 0 \/ o = Some 1).
Proof.
  intros H. apply completed_result in H.
  destruct H as (B & _ & R & U & [(-> & _)|(-> & _)]); split_and; auto.
Qed.

Lemma loop_body_frame p o p' :
  loop_body p = Ok (o, p') ->
  (exists k, buffer p' = skipn k (buffer p)) /\
  utf8 p' = utf8 p /\ redisdb p' = redisdb p /\
  (o = None \/ o = Some 0 \/ o = Some 1).
Proof.
  assert (Z0 : exists k, buffer p = skipn k (buffer p)) by (now exists 0%nat).
  unfold loop_body. destruct (sv_len (buffer p) <? 2).
  { intros H. injection H as <- <-. split_and; auto. }
  destruct (state p).
  - intros H. injection H as <- <-. split_and; auto.
  - destruct (_read_line (buffer p)) as [[line buf]| | |] eqn:E;
      try discriminate.
    apply _read_line_suffix in E. cbn [bind]. destruct line as [line|].
    + intros H. apply completed_frame in H.
      destruct H as (-> & -> & -> & O). split_and; auto.
    + intros H. injection H as <- <-. split_and; auto.
  - destruct (_read_line (buffer p)) as [[line buf]| | |] eqn:E;
      try discriminate.
    apply _read_line_suffix in E. cbn [bind]. destruct line as [line|].
    + intros H. apply completed_frame in H.
      destruct H as (-> & -> & -> & O). split_and; auto.
    + intros H. injection H as <- <-. split_and; auto.
  - destruct (_read_number (buffer p)) as [[line buf]| | |] eqn:E;
      try discriminate.
    apply _read_number_suffix in E. cbn [bind]. destruct line as [line|].
    + intros H. apply completed_frame in H.
      destruct H as (-> & -> & -> & O). split_and; auto.
    + intros H. injection H as <- <-. split_and; auto.
  - destruct (_read_length (buffer p)) as [[len buf]| | |] eqn:E;
      try discriminate.
    apply _read_length_suffix in E. cbn [bind]. cbv zeta.
    destruct (0 <=? len).
    { intros H. injection H as <- <-. split_and; auto. }
    destruct (len =? -1).
    + intros H. apply completed_frame in H.
      destruct H as (-> & -> & -> & O). split_and; auto.
    + intros H. injection H as <- <-. split_and; auto.
  - destruct (sv_len (buffer p) <? ulong_of (2 + bulk_len p)).
    { intros H. injection H as <- <-. split_and; auto. }
    cbv zeta. change (utf8 (set_buffer p _)) with (utf8 p).
    assert (K : forall v,
      completed (_reply_completed
                   (set_buffer p (sv_chop (buffer p) (bulk_len p + 2))) v) =
      Ok (o, p') ->
      (exists k, buffer p' = skipn k (buffer p)) /\
      utf8 p' = utf8 p /\ redisdb p' = redisdb p /\
      (o = None \/ o = Some 0 \/ o = Some 1)).
    { intros v H. apply completed_frame in H.
      destruct H as (-> & -> & -> & O). split_and; auto.
      eexists. reflexivity. }
    destruct (utf8 p); [|apply K].
    destruct (sv_utf8_decode _); [apply K|discriminate].
  - destruct (_read_length (buffer p)) as [[len buf]| | |] eqn:E;
      try discriminate.
    apply _read_length_suffix in E. cbn [bind]. cbv zeta.
    destruct (0 <? len).
    { intros H. injection H as <- <-. split_and; auto. }
    destruct ((len =? 0) || (len =? -1)).
    + match goal with
      | |- context [if ?c then _mblk_status_fetch ?q else _] =>
          destruct c;
          [destruct (_mblk_status_fetch q) as [q1| | |] eqn:F;
             try discriminate;
           apply _mblk_status_fetch_result in F;
           destruct F as (F1 & _ & F2 & F3 & _)|]
      end; cbn [bind]; intros H; apply completed_frame in H;
        destruct H as (-> & -> & -> & O).
      * rewrite F1, F2, F3. split_and; auto.
      * split_and; auto.
    + intros H. injection H as <- <-. split_and; auto.
  - destruct (buffer p) as [|op rest]; [discriminate|]. cbv zeta.
    assert (Z1 : exists k, rest = skipn k (op :: rest)) by (now exists 1%nat).
    repeat match goal with
           | |- (if ?c then _ else _) = _ -> _ => destruct c
           end; intros H; try discriminate; injection H as <- <-; split_and; auto.
Qed.


Lemma suffix_trans (b0 b1 b2 : list ascii) :
  (exists k, b1 = skipn k b0) -> (exists k, b2 = skipn k b1) ->
  exists k, b2 = skipn k b0.
Proof.
  intros [k ->] [j ->]. exists (j + k)%nat. apply skipn_skipn.
Qed.

Lemma parse_loop_frame n : forall p rv p',
  parse_loop n p = Ok (rv, p') ->
  (exists k, buffer p' = skipn k (buffer p)) /\
  utf8 p' = utf8 p /\ redisdb p' = redisdb p /\ (rv = 0 \/ rv = 1).
Proof.
  induction n as [|n IH]; intros p rv p' H; [discriminate|].
  cbn [parse_loop] in H.
  destruct (loop_body p) as [[o p1]| | |] eqn:E; try discriminate.
  cbn [bind] in H. apply loop_body_frame in E.
  destruct E as (E1 & E2 & E3 & E4). destruct o as [rv1|].
  - injection H as <- <-. split_and; auto.
    destruct E4 as [E4|[E4|E4]]; [discriminate|injection E4 as ->..]; auto.
  - apply IH in H. destruct H as (H1 & H2 & H3 & H4).
    split_and; try congruence. now apply (suffix_trans _ (buffer p1)).
Qed.

Lemma read_op_frame p p1 :
  read_op p = Ok p1 ->
  (exists k, buffer p1 = skipn k (buffer p)) /\
  utf8 p1 = utf8 p /\ redisdb p1 = redisdb p.
Proof.
  unfold read_op. change (buffer (set_mblk_level p 0)) with (buffer p).
  destruct (buffer p) as [|op rest]; [discriminate|]. cbv zeta.
  assert (Z1 : exists k, rest = skipn k (op :: rest)) by (now exists 1%nat).
  repeat match goal with
         | |- (if ?c then _ else _) = _ -> _ => destruct c
         end; intros H; try discriminate; injection H as <-; auto.
Qed.

(** X1.  Whatever the bytes and whatever the state,
    [rdb_parser__parse_reply] returns 0 or 1 and only drops bytes from the
    front of the buffer: what it leaves is a suffix of what it found, byte
    for byte, so the NUL that [_read_number] and [_read_length] write over
    the CR of a line never shows in the bytes that stay.  The UTF-8 mode and
    the client the callbacks are given stay as they are. *)
Theorem parse_reply_drops_a_prefix p rv p' :
  rdb_parser__parse_reply p = Ok (rv, p') ->
  (rv = 0 \/ rv = 1) /\
  (exists k, buffer p' = skipn k (buffer p)) /\
  utf8 p' = utf8 p /\ redisdb p' = redisdb p.
Proof.
  unfold rdb_parser__parse_reply.
  destruct (sv_len (buffer p) =? 0).
  { intros H. injection H as <- <-. split_and; auto. now exists 0%nat. }
  assert (K : forall p1,
    (exists k, buffer p1 = skipn k (buffer p)) /\
    utf8 p1 = utf8 p /\ redisdb p1 = redisdb p ->
    parse_loop (S (List.length (buffer p1))) p1 = Ok (rv, p') ->
    (rv = 0 \/ rv = 1) /\
    (exists k, buffer p' = skipn k (buffer p)) /\
    utf8 p' = utf8 p /\ redisdb p' = redisdb p).
  { intros p1 (K1 & K2 & K3) H. apply parse_loop_frame in H.
    destruct H as (H1 & H2 & H3 & H4). split_and; try congruence.
    now apply (suffix_trans _ (buffer p1)). }
  assert (Z0 : exists k, buffer p = skipn k (buffer p)) by (now exists 0%nat).
  destruct (state p); cbn [bind]; try (apply K; auto).
  destruct (read_op p) as [p1| | |] eqn:E; try discriminate.
  cbn [bind]. apply K. now apply read_op_frame.
Qed.


(** ** The stack of suspended arrays *)

(** X2.  [_mblk_status_fetch] undoes [_mblk_status_store]: the store pushes
    one frame and leaves no current array, and the fetch that follows gives
    back the parser as it was, field by field.  A fetch croaks exactly when
    the stack is empty. *)
Theorem mblk_status_round_trip p :
  _mblk_status_fetch (_mblk_status_store p) = Ok p /\
  depth (_mblk_status_store p) = depth p + 1 /\
  mblk_reply (_mblk_status_store p) = None /\
  (mblk_store p = [] <->
   _mblk_status_fetch p =
   Croak "Already at the upper level of multi-bulk reply").
Proof.
  destruct p as [u self cbs d buf st lvl mr ms ml bl cl].
  unfold depth, _mblk_status_store, _mblk_status_fetch. cbn.
  split_and; try reflexivity.
  - lia.
  - destruct ms; split; intros H; try reflexivity; discriminate.
Qed.

(** ** After [rdb_parser__propagate_reply] *)

(** X3.  After [rdb_parser__propagate_reply] nothing is left to call: a
    second propagation calls nothing and changes nothing.  The buffer and the
    state are not touched, so a reply that waits in the buffer is still
    parsed by the next [rdb_parser__parse_reply], which then croaks for want
    of a callback. *)
Theorem propagate_reply_twice p reply reply' :
  exists p1,
    rdb_parser__propagate_reply p reply = Ok p1 /\
    rdb_parser__propagate_reply p1 reply' = Ok p1 /\
    callbacks p1 = [] /\ default_cb p1 = None /\
    buffer p1 = buffer p /\ state p1 = state p /\
    (forall r rest,
       state p = RDBP_CLEAN -> buffer p = encode r ++ rest ->
       valid_reply (utf8 p) r = true -> sv_len (buffer p) <= INT_MAX ->
       rdb_parser__parse_reply p1 =
       Croak "No callbacks in the queue and no default callback set").
Proof.
  eexists. split.
  { unfold rdb_parser__propagate_reply.
    apply (propagate_loop_drains (callbacks p)); [reflexivity|lia]. }
  destruct p as [u self cbs d buf st lvl mr ms ml bl cl]. cbn.
  split_and; try reflexivity.
  intros r rest -> -> V Hmax. fields.
  now rewrite parse_reply_valid by assumption.
Qed.

(** ** [_line_length] without its caller's guard *)

Lemma line_scan_unguarded pos : forall off,
  0 <= off -> off + sv_len pos <= INT_MAX ->
  line_scan pos off off 0 =
  match find_crlf pos with
  | Some k => Ok (off + Z.of_nat k)
  | None => Fault OutOfBounds
  end.
Proof.
  unfold INT_MAX.
  induction pos as [|c tl IH]; intros off Hoff Hlen.
  - change (sv_len []) with 0 in *. cbn [line_scan find_crlf].
    change (size_t_of (0 - 1)) with (2 ^ 64 - 1).
    rewrite size_t_of_small by lia.
    destruct (off <? 2 ^ 64 - 1) eqn:E; [reflexivity|lia].
  - rewrite sv_len_cons in *. pose proof (sv_len_nonneg tl) as Htl.
    cbn [line_scan]. change (size_t_of (0 - 1)) with (2 ^ 64 - 1).
    rewrite size_t_of_small by lia.
    destruct (off <? 2 ^ 64 - 1) eqn:E; [|lia].
    rewrite int_of_small by lia.
    destruct tl as [|c1 tl'].
    + cbn [find_crlf]. destruct (c =? CR)%char; [reflexivity|].
      change (sv_len []) with 0 in *.
      rewrite IH by (change (sv_len []) with 0; lia). reflexivity.
    + rewrite find_crlf_cons, IH by lia.
      destruct (c =? CR)%char; cbn [andb].
      * destruct (c1 =? LF)%char.
        -- f_equal. change (Z.of_nat 0) with 0. lia.
        -- destruct (find_crlf (c1 :: tl')); cbn [option_map];
             [f_equal; lia|reflexivity].
      * destruct (find_crlf (c1 :: tl')); cbn [option_map];
          [f_equal; lia|reflexivity].
Qed.

(** X4.  [_line_length] relies on its caller for a length of at least 1.
    Given the length 0, the bound [length - 1] of the scan wraps to the
    largest [size_t]: the scan does not stop at the end of the string, it
    returns the offset of the first CR LF that the string holds and reads
    past the end when there is none.  The test [sv_len < 2] at the head of
    the loop of [rdb_parser__parse_reply] is what keeps the readers away
    from it. *)
Theorem line_length_of_nothing b :
  sv_len b <= INT_MAX ->
  _line_length b 0 =
  match find_crlf b with
  | Some k => Ok (Z.of_nat k)
  | None => Fault OutOfBounds
  end.
Proof.
  intros H. unfold _line_length. rewrite line_scan_unguarded by lia.
  now destruct (find_crlf b).
Qed.


(** ** A header with a length below -1 *)

Lemma parse_reply_returns_0 p q :
  state p <> RDBP_CLEAN -> 2 <= sv_len (buffer p) ->
  loop_body p = Ok (Some 0, q) ->
  rdb_parser__parse_reply p = Ok (0, q).
Proof.
  intros St L H. unfold rdb_parser__parse_reply.
  destruct (sv_len (buffer p) =? 0) eqn:E; [lia|].
  destruct (state p); try congruence; cbn [bind parse_loop]; rewrite H;
    reflexivity.
Qed.

Lemma body_length_below_minus_one p line rest :
  state p = RDBP_READ_BULK_LEN \/ state p = RDBP_READ_MBLK_LEN ->
  buffer p = line ++ CRLF ++ rest ->
  find_crlf line = None -> atol line < -1 ->
  sv_len (buffer p) <= INT_MAX ->
  loop_body p = Ok (Some 0, set_buffer p rest).
Proof.
  intros St B F A Hmax.
  assert (Hl : 2 <= sv_len (buffer p) <= INT_MAX).
  { split; [|exact Hmax]. rewrite B. apply sv_len_header. }
  destruct (header_line line rest F) as (H1 & H2 & H3).
  destruct St as [St|St].
  - rewrite body_read_bulk_len by assumption.
    rewrite B, H1, H2, H3. cbv zeta.
    rewrite (proj2 (Z.leb_gt _ _)) by lia.
    now rewrite (proj2 (Z.eqb_neq _ _)) by lia.
  - rewrite body_read_mblk_len by assumption.
    rewrite B, H1, H2, H3. cbv zeta.
    rewrite (proj2 (Z.ltb_ge _ _)) by lia.
    rewrite (proj2 (Z.eqb_neq (atol line) 0)) by lia.
    now rewrite (proj2 (Z.eqb_neq (atol line) (-1))) by lia.
Qed.

(** X5.  A bulk or multi-bulk header whose length reads as a number below
    -1 is dropped without a word: the call consumes the header line, stays
    in the state that reads a length, calls nothing and returns 0, the value
    it also returns when bytes are missing.  The next call reads the line
    that follows as the length. *)
Theorem length_below_minus_one_dropped line rest p :
  find_crlf line = None -> atol line < -1 ->
  sv_len (buffer p) <= INT_MAX ->
  (state p = RDBP_READ_BULK_LEN \/ state p = RDBP_READ_MBLK_LEN ->
   buffer p = line ++ CRLF ++ rest ->
   rdb_parser__parse_reply p = Ok (0, set_buffer p rest)) /\
  (state p = RDBP_CLEAN ->
   (buffer p = "$"%char :: line ++ CRLF ++ rest ->
    rdb_parser__parse_reply p =
    Ok (0, set_mblk_level
             (set_state (set_buffer p rest) RDBP_READ_BULK_LEN) 0)) /\
   (buffer p = "*"%char :: line ++ CRLF ++ rest ->
    rdb_parser__parse_reply p =
    Ok (0, set_mblk_level
             (set_state (set_buffer p rest) RDBP_READ_MBLK_LEN) 1))).
Proof.
  intros F A Hmax. split.
  - intros St B. apply parse_reply_returns_0.
    + destruct St as [St|St]; rewrite St; discriminate.
    + rewrite B. apply sv_len_header.
    + now apply (body_length_below_minus_one p line rest).
  - intros St. split; intros B.
    + rewrite parse_reply_enter by (rewrite B; discriminate).
      unfold enter. rewrite St, (read_op_eq p _ _ B).
      change (op_state "$"%char) with (Some RDBP_READ_BULK_LEN).
      cbn [bind Ascii.eqb Bool.eqb].
      set (p1 := set_state _ _).
      cbn [parse_loop].
      rewrite (body_length_below_minus_one p1 line rest); auto.
      subst p1. cbn [buffer set_state set_buffer set_mblk_level].
      rewrite B in Hmax. rewrite sv_len_cons in Hmax. lia.
    + rewrite parse_reply_enter by (rewrite B; discriminate).
      unfold enter. rewrite St, (read_op_eq p _ _ B).
      change (op_state "*"%char) with (Some RDBP_READ_MBLK_LEN).
      cbn [bind Ascii.eqb Bool.eqb].
      set (p1 := set_mblk_level _ _).
      cbn [parse_loop].
      rewrite (body_length_below_minus_one p1 line rest); auto.
      subst p1. cbn [buffer set_state set_buffer set_mblk_level].
      rewrite B in Hmax. rewrite sv_len_cons in Hmax. lia.
Qed.


(** ** An item of an array *)

(** X6.  A valid reply that is read as an item of an array, and is not the
    last item, is consumed whole, however deep it nests itself: the call
    goes on exactly as a call that finds the value of the item already
    appended to the array, one item less to come, and the level and the
    stack of the outer arrays as they were. *)
Theorem array_item_appended r u self cbs d rest lvl acc ms ml bl cl :
  valid_reply u r = true -> 1 <= lvl -> 1 < ml ->
  lvl + sv_len (encode r ++ rest) <= INT_MAX ->
  rdb_parser__parse_reply
    (Parser u self cbs d (encode r ++ rest) RDBP_WAIT_BUCKS lvl (Some acc) ms ml
            bl cl) =
  rdb_parser__parse_reply
    (Parser u self cbs d rest RDBP_WAIT_BUCKS lvl (Some (acc ++ [reply_sv u r]))
            ms (ml - 1) (bulk_len_after r bl) cl).
Proof.
  intros V Hl Hm Hmax.
  set (P := Parser u self cbs d (encode r ++ rest) RDBP_WAIT_BUCKS lvl
                   (Some acc) ms ml bl cl).
  set (Q := Parser u self cbs d rest RDBP_WAIT_BUCKS lvl
                   (Some (acc ++ [reply_sv u r])) ms (ml - 1)
                   (bulk_len_after r bl) cl).
  assert (L : forall res, loops Q res -> loops P res).
  { intros res H. apply (reply_item_ok r); auto.
    rewrite _reply_completed_next by lia. exact H. }
  pose proof (encode_nonempty r) as Hr.
  pose proof (sv_len_nonneg rest) as Hrest.
  rewrite sv_len_app in Hmax.
  assert (BP : buffer P <> []).
  { cbn [buffer P]. intros E. apply (f_equal sv_len) in E.
    rewrite sv_len_app in E. change (sv_len []) with 0 in E. lia. }
  assert (HP : sv_len (buffer P) <= INT_MAX).
  { cbn [buffer P]. rewrite sv_len_app. lia. }
  assert (bP : bulk_ok P) by (intros E; discriminate E).
  assert (bQ : bulk_ok Q) by (intros E; discriminate E).
  apply (loops_parse_reply P P); auto. apply L.
  destruct rest as [|c rest'] eqn:R.
  - rewrite parse_reply_empty by reflexivity.
    apply loops_return. apply loop_body_short. cbn. lia.
  - assert (BQ : buffer Q <> []) by discriminate.
    assert (HQ : sv_len (buffer Q) <= INT_MAX) by (cbn [buffer Q]; lia).
    destruct (parse_reply_loops Q _ BQ HQ bQ eq_refl) as [p1 [[E H]|[_ N]]].
    + cbn in E. injection E as <-. exact H.
    + now specialize (N Q).
Qed.

(** ** Chunks of any bytes *)

Lemma drains_clean_empties P r :
  drains P r -> forall pf,
  r = Ok pf -> state pf = RDBP_CLEAN ->
  sv_len (buffer P) <= INT_MAX -> bulk_ok P -> buffer pf = [].
Proof.
  induction 1 as [P P' H|P rv P' r H Hrv D IH|P m H|P f H];
    intros pf R Hcl Hmax Hb; try discriminate.
  - injection R as ->.
    destruct (parse_reply_result P _ _ Hmax Hb H)
      as (_ & _ & _ & _ & [(_ & _ & E)|(E & _)]); [|discriminate].
    destruct (E Hcl) as [-> E2]. exact E2.
  - destruct (parse_reply_result P _ _ Hmax Hb H) as (L & B & _).
    apply IH; auto. unfold sv_len in *. lia.
Qed.

(** X7.  The way the bytes are cut into chunks does not matter for any
    bytes that feeding at once turns into complete replies, whether or not
    they are encoded the way a server encodes them: when feeding them at
    once ends between two replies, feeding them chunk by chunk ends in the
    same parser, field by field, and the buffer is empty. *)
Theorem chunks_as_whole_any_bytes chunks p pf :
  state p = RDBP_CLEAN -> buffer p = [] ->
  sv_len (List.concat chunks) <= INT_MAX ->
  feed p (List.concat chunks) = Ok pf -> state pf = RDBP_CLEAN ->
  feed_all p chunks = Ok pf /\ buffer pf = [].
Proof.
  intros St B Hmax H Hcl.
  assert (Hb : bulk_ok p) by (intros E; congruence).
  split.
  - apply feed_all_whole; auto.
    + now apply parse_reply_empty.
    + now rewrite B.
  - unfold feed in H. apply drain_drains in H.
    + apply (drains_clean_empties _ _ H pf); auto.
      cbn [buffer append set_buffer]. now rewrite B.
    + cbn [buffer append set_buffer]. now rewrite B.
    + exact Hb.
Qed.


(** ** What the return value 0 means *)

Lemma find_crlf_split b : forall k,
  find_crlf b = Some k -> b = firstn k b ++ CRLF ++ skipn (k + 2) b.
Proof.
  induction b as [|c tl IH]; intros k H; [discriminate|].
  destruct tl as [|c1 tl']; [discriminate|].
  rewrite find_crlf_cons in H.
  destruct ((c =? CR)%char && (c1 =? LF)%char) eqn:E.
  - injection H as <-. apply andb_prop in E. destruct E as [E1 E2].
    apply Ascii.eqb_eq in E1, E2. subst c c1. reflexivity.
  - destruct (find_crlf (c1 :: tl')) as [j|] eqn:F; [|discriminate].
    injection H as <-. specialize (IH j eq_refl).
    cbn [firstn skipn Nat.add app]. f_equal. exact IH.
Qed.

Lemma completed_not_0 q v p' :
  completed (_reply_completed q v) <> Ok (Some 0, p').
Proof.
  intros H. apply completed_result in H.
  destruct H as (_ & _ & _ & _ & [(H & _)|(H & _)]); discriminate.
Qed.

Lemma loop_body_returns_0 p q :
  sv_len (buffer p) <= INT_MAX -> bulk_ok p ->
  loop_body p = Ok (Some 0, q) ->
  q = p \/
  ((state p = RDBP_READ_BULK_LEN \/ state p = RDBP_READ_MBLK_LEN) /\
   exists k, find_crlf (buffer p) = Some k /\
             atol (firstn k (buffer p)) < -1 /\
             q = set_buffer p (skipn (k + 2) (buffer p))).
Proof.
  intros Hmax Hbulk.
  destruct (Z.lt_ge_cases (sv_len (buffer p)) 2) as [Hs|Hl].
  { rewrite loop_body_short by exact Hs. intros H. injection H as <-. auto. }
  assert (Hb : 2 <= sv_len (buffer p) <= INT_MAX) by lia.
  destruct (state p) eqn:S.
  - rewrite loop_body_long, S by exact Hl. discriminate.
  - rewrite body_read_line by assumption.
    destruct (find_crlf (buffer p)); intros H.
    + now apply completed_not_0 in H.
    + injection H as <-. auto.
  - rewrite body_read_error by assumption.
    destruct (find_crlf (buffer p)); intros H.
    + now apply completed_not_0 in H.
    + injection H as <-. auto.
  - rewrite body_read_number by assumption.
    destruct (find_crlf (buffer p)); intros H.
    + now apply completed_not_0 in H.
    + injection H as <-. auto.
  - rewrite body_read_bulk_len by assumption.
    destruct (find_crlf (buffer p)) as [k|]; cbv zeta.
    + destruct (0 <=? atol (firstn k (buffer p))) eqn:E1; [discriminate|].
      destruct (atol (firstn k (buffer p)) =? -1) eqn:E2; intros H.
      * now apply completed_not_0 in H.
      * injection H as <-. right. split; [auto|]. exists k. split_and; auto.
        lia.
    + intros H. injection H as <-. auto.
  - pose proof (Hbulk S) as B. rewrite body_read_bulk by (auto; lia).
    destruct (sv_len (buffer p) <? 2 + bulk_len p).
    { intros H. injection H as <-. auto. }
    cbv zeta. intros H. exfalso. revert H.
    destruct (utf8 p); [destruct (is_utf8_string _)|];
      try discriminate; apply completed_not_0.
  - rewrite body_read_mblk_len by assumption.
    destruct (find_crlf (buffer p)) as [k|]; cbv zeta.
    + destruct (0 <? atol (firstn k (buffer p))) eqn:E1; [discriminate|].
      destruct (atol (firstn k (buffer p)) =? 0) eqn:E2;
        [|destruct (atol (firstn k (buffer p)) =? -1) eqn:E3]; cbn [orb].
      * intros H. exfalso. revert H.
        match goal with
        | |- context [if ?c then _mblk_status_fetch ?x else _] =>
            destruct c; [destruct (_mblk_status_fetch x)|]
        end; cbn [bind]; try discriminate; apply completed_not_0.
      * intros H. exfalso. revert H.
        match goal with
        | |- context [if ?c then _mblk_status_fetch ?x else _] =>
            destruct c; [destruct (_mblk_status_fetch x)|]
        end; cbn [bind]; try discriminate; apply completed_not_0.
      * intros H. injection H as <-. right. split; [auto|]. exists k.
        split_and; auto. lia.
    + intros H. injection H as <-. auto.
  - destruct (buffer p) as [|op rest] eqn:B.
    { change (sv_len []) with 0 in Hl. lia. }
    destruct rest as [|c rest'].
    { change (sv_len [op]) with 1 in Hl. lia. }
    rewrite (body_wait_bucks p op (c :: rest')) by (auto; discriminate).
    destruct (op_state op); discriminate.
Qed.

Lemma loops_returns_0 p r :
  loops p r -> forall q,
  r = Ok (0, q) ->
  sv_len (buffer p) <= INT_MAX -> state p <> RDBP_CLEAN -> bulk_ok p ->
  rdb_parser__parse_reply q = Ok (0, q) \/
  ((state q = RDBP_READ_BULK_LEN \/ state q = RDBP_READ_MBLK_LEN) /\
   exists pre line,
     buffer p = pre ++ line ++ CRLF ++ buffer q /\ atol line < -1).
Proof.
  induction 1 as [p rv0 p0 H|p p1 r H L IH|p m H|p f H];
    intros q R Hmax Hst Hb; try discriminate.
  - injection R as -> ->.
    destruct (loop_body_returns_0 p q Hmax Hb H)
      as [->|(S & k & F & A & ->)].
    + left. now apply stalled_pending.
    + right. split; [exact S|].
      exists [], (firstn k (buffer p)). split; [|exact A].
      cbn [app buffer set_buffer]. now apply find_crlf_split.
  - pose proof (loop_body_frame _ _ _ H) as ([k K] & _).
    apply loop_body_step in H; auto.
    destruct H as (H1 & _ & _ & H2 & H3 & H4 & _).
    destruct (IH q R) as [I|(S & pre & line & B & A)]; auto.
    { unfold sv_len in *. lia. }
    right. split; [exact S|].
    exists (firstn k (buffer p) ++ pre), line. split; [|exact A].
    rewrite <- app_assoc, <- B, K. symmetry. apply firstn_skipn.
Qed.

(** X8.  The return value 0 means that the call waits for bytes, with one
    exception.  After [rdb_parser__parse_reply] has returned 0, either
    another call on the same bytes returns 0 again and changes nothing, or
    the last thing the call read was a bulk or multi-bulk header whose
    length is below -1: the parser is still in the state that reads a
    length, the header line stands in the old buffer right before the bytes
    that are left, and those bytes may well hold lines the next call goes on
    with. *)
Theorem return_0_waits_or_dropped_a_header p q :
  sv_len (buffer p) <= INT_MAX -> bulk_ok p ->
  rdb_parser__parse_reply p = Ok (0, q) ->
  rdb_parser__parse_reply q = Ok (0, q) \/
  ((state q = RDBP_READ_BULK_LEN \/ state q = RDBP_READ_MBLK_LEN) /\
   exists pre line,
     buffer p = pre ++ line ++ CRLF ++ buffer q /\ atol line < -1).
Proof.
  intros Hmax Hb H.
  destruct (buffer p) as [|c b] eqn:B.
  { rewrite parse_reply_empty in H by exact B. injection H as <-.
    left. now apply parse_reply_empty. }
  assert (B' : buffer p <> []) by (rewrite B; discriminate).
  rewrite <- B in *. clear B.
  destruct (parse_reply_loops p _ B' Hmax Hb H) as [p1 [[E L]|[E N]]].
  2: { destruct (enter p) as [x| | |];
       [now specialize (N x)|discriminate..]. }
  pose proof (enter_result p p1 B' Hb E) as (E1 & E2 & E3 & _).
  assert (K : exists k, buffer p1 = skipn k (buffer p)).
  { unfold enter in E. destruct (state p);
      try (injection E as <-; now exists 0%nat).
    now apply read_op_frame in E. }
  destruct K as [k K].
  destruct (loops_returns_0 _ _ L q eq_refl)
    as [I|(S & pre & line & B & A)]; auto.
  { unfold sv_len in *. lia. }
  right. split; [exact S|].
  exists (firstn k (buffer p) ++ pre), line. split; [|exact A].
  rewrite <- app_assoc, <- B, K. symmetry. apply firstn_skipn.
Qed.


(** ** Well-formed parsers stay well-formed *)

Lemma safely_impl {A : Type} (P Q : A -> Prop) (r : result A) :
  safely P r -> (forall a, P a -> Q a) -> safely Q r.
Proof. destruct r; cbn; auto. Qed.

Lemma sv_len_skipn_le n b : sv_len (skipn n b) <= sv_len b.
Proof. unfold sv_len. rewrite length_skipn. lia. Qed.

Lemma depth_nonneg p : 0 <= depth p.
Proof. unfold depth. lia. Qed.

Lemma _mblk_item_rec_nested fuel : forall p v,
  (List.length (mblk_store p) < fuel)%nat -> in_array p ->
  exists rv p',
    _mblk_item_rec fuel p v = Ok (rv, p') /\ depth p' <= depth p /\
    ((rv = 1 /\ in_array p') \/
     (rv = 0 /\ mblk_store p' = [] /\ mblk_reply p' <> None)).
Proof.
  induction fuel as [|fuel IH]; intros p v Hf Ha; [lia|].
  destruct p as [u self cbs d buf st lvl mr ms ml bl cl].
  unfold in_array, nested, depth in *.
  cbn [mblk_store mblk_level mblk_reply] in Hf, Ha.
  destruct Ha as ((Hl & Hfr) & Hr).
  destruct mr as [av|]; [|congruence].
  cbn -[Z.ltb Z.add Z.of_nat]. destruct (1 <? ml).
  - eexists _, _. split; [reflexivity|]. fields. split; [lia|].
    left. split_and; auto. discriminate.
  - destruct (1 <? lvl) eqn:E.
    + destruct ms as [|s next]; [cbn [List.length] in Hl; lia|].
      cbn [forallb] in Hfr. apply andb_prop in Hfr. destruct Hfr as [Hs Hn].
      cbn [List.length] in Hl, Hf.
      cbn -[Z.ltb Z.add Z.of_nat].
      destruct (IH (Parser u self cbs d buf st (lvl - 1) (store_mblk_reply s)
                           next (store_mblk_len s) bl cl)
                   (SVrv_av (av ++ [v]))) as (rv & p' & I1 & I2 & I3).
      * cbn [mblk_store]. lia.
      * cbn [mblk_store mblk_level mblk_reply]. split_and; auto.
        -- lia.
        -- unfold frame_ok in Hs. destruct (store_mblk_reply s);
             [discriminate|discriminate Hs].
      * exists rv, p'. split; [exact I1|]. split; [|exact I3].
        cbn [mblk_store] in I2. cbn [List.length]. lia.
    + destruct ms as [|s next]; [|cbn [List.length] in Hl; lia].
      eexists _, _. split; [reflexivity|]. fields. split; [lia|].
      right. split_and; auto. discriminate.
Qed.

Lemma completed_well_formed q v :
  top_level q \/ in_array q ->
  safely (fun x =>
            buffer (snd x) = buffer q /\ depth (snd x) <= depth q /\
            ((fst x = None /\ state (snd x) = RDBP_WAIT_BUCKS /\
              in_array (snd x)) \/
             (fst x = Some 1 /\ state (snd x) = RDBP_CLEAN /\
              mblk_store (snd x) = [])))
         (completed (_reply_completed q v)).
Proof.
  intros [[Hl Hs]|Ha].
  - rewrite _reply_completed_top by exact Hl.
    destruct q as [u self cbs d buf st lvl mr ms ml bl cl].
    cbn in Hs. subst ms. unfold deliver, completed, fatal. cbn.
    destruct cbs as [|cb rest]; [destruct d as [cb|]|]; cbn; unfold depth;
      cbn; auto 10;
      (split; [reflexivity|split; [lia|right; auto]]).
  - unfold _reply_completed, _mblk_item.
    assert (N : (mblk_level q =? 0) = false).
    { destruct Ha as ((Hl & _) & _). pose proof (depth_nonneg q).
      apply Z.eqb_neq. lia. }
    rewrite N. cbn [negb].
    destruct (_mblk_item_rec_nested (S (List.length (mblk_store q))) q v)
      as (rv & p' & E & D & H); [lia|exact Ha|].
    rewrite E. pose proof (_mblk_item_rec_result _ _ _ _ _ E)
      as (R1 & _ & _ & _ & _ & _ & _ & R2).
    destruct H as [(-> & H)|(-> & H1 & H2)]; cbn.
    + destruct R2 as [(_ & R2)|(R2 & _)]; [|discriminate].
      split_and; auto.
    + destruct p' as [u self cbs d buf st lvl mr ms ml bl cl].
      cbn in *. subst ms. destruct mr as [av|]; [|congruence]. cbn.
      unfold fatal.
      destruct cbs as [|cb rest]; [destruct d as [cb|]|]; cbn;
        unfold depth in *; cbn in *; auto 10;
        (split; [congruence|split; [lia|right; auto]]).
Qed.


Lemma completed_within q v bound :
  top_level q \/ in_array q -> depth q + sv_len (buffer q) <= bound ->
  safely (fun x => within bound (snd x)) (completed (_reply_completed q v)).
Proof.
  intros H Hb. eapply safely_impl; [apply completed_well_formed; exact H|].
  intros [o p'] (B & D & [(_ & S & A)|(_ & S & E)]); cbn [fst snd] in *;
    unfold within, well_formed, bulk_ok; rewrite S, B;
    (split; [split; [discriminate|assumption]|lia]).
Qed.

Lemma op_state_scalar op s :
  op_state op = Some s -> (op =? "*")%char = false ->
  s = RDBP_READ_LINE \/ s = RDBP_READ_ERROR \/ s = RDBP_READ_NUMBER \/
  s = RDBP_READ_BULK_LEN.
Proof.
  unfold op_state. intros H E. rewrite E in H.
  repeat match type of H with
         | (if ?c then _ else _) = _ => destruct c
         end; try discriminate; injection H as <-; auto.
Qed.

Lemma loop_body_within p :
  well_formed p -> state p <> RDBP_CLEAN ->
  depth p + sv_len (buffer p) <= INT_MAX ->
  safely (fun x => within (depth p + sv_len (buffer p)) (snd x)) (loop_body p).
Proof.
  intros Hw Hst Hmax.
  pose proof (depth_nonneg p) as Hd.
  assert (W : within (depth p + sv_len (buffer p)) p) by (split; [exact Hw|lia]).
  destruct (Z.lt_ge_cases (sv_len (buffer p)) 2) as [Hs|Hl].
  { rewrite loop_body_short by exact Hs. exact W. }
  assert (Hb : 2 <= sv_len (buffer p) <= INT_MAX) by lia.
  destruct Hw as (Hbulk & Hwf).
  destruct p as [u self cbs d buf st lvl mr ms ml bl cl].
  unfold depth in *. cbn [state buffer mblk_store] in *.
  destruct st; [congruence|..].
  - rewrite body_read_line by (try reflexivity; exact Hb). cbn [buffer].
    destruct (find_crlf buf) as [k|]; [|exact W].
    apply completed_within; [exact Hwf|].
    unfold depth. fields.
    pose proof (sv_len_skipn_le (k + 2) buf). lia.
  - rewrite body_read_error by (try reflexivity; exact Hb). cbn [buffer].
    destruct (find_crlf buf) as [k|]; [|exact W].
    apply completed_within; [exact Hwf|].
    unfold depth. fields.
    pose proof (sv_len_skipn_le (k + 2) buf). lia.
  - rewrite body_read_number by (try reflexivity; exact Hb). cbn [buffer].
    destruct (find_crlf buf) as [k|]; [|exact W].
    apply completed_within; [exact Hwf|].
    unfold depth. fields.
    pose proof (sv_len_skipn_le (k + 2) buf). lia.
  - rewrite body_read_bulk_len by (try reflexivity; exact Hb). cbn [buffer].
    destruct (find_crlf buf) as [k|]; [|exact W]. cbv zeta.
    pose proof (sv_len_skipn_le (k + 2) buf) as Hk.
    pose proof (atol_range (firstn k buf)) as Ha.
    destruct (0 <=? atol (firstn k buf)) eqn:E1;
      [|destruct (atol (firstn k buf) =? -1)].
    + cbn [safely snd]. unfold within, well_formed, bulk_ok, depth.
      fields. split_and; auto; try lia; try discriminate.
    + apply completed_within; [exact Hwf|].
      unfold depth. fields. lia.
    + cbn [safely snd]. unfold within, well_formed, bulk_ok, depth.
      fields. split_and; auto; try lia; try discriminate.
  - assert (B : 0 <= bl <= LONG_MAX) by (now apply Hbulk).
    rewrite body_read_bulk by (try reflexivity; try exact B; apply Hb).
    cbn [buffer bulk_len utf8].
    destruct (sv_len buf <? 2 + bl); [exact W|]. cbv zeta.
    pose proof (sv_len_skipn_le (Z.to_nat bl + 2) buf) as Hk.
    assert (K : forall v,
      safely (fun x => within (Z.of_nat (List.length ms) + sv_len buf) (snd x))
        (completed
           (_reply_completed
              (set_buffer (Parser u self cbs d buf RDBP_READ_BULK lvl mr ms ml
                                  bl cl)
                          (skipn (Z.to_nat bl + 2) buf)) v))).
    { intros v. apply completed_within; [exact Hwf|].
      unfold depth. fields. lia. }
    destruct u; [destruct (is_utf8_string _)|]; try apply K.
    cbn. auto.
  - rewrite body_read_mblk_len by (try reflexivity; exact Hb). cbn [buffer].
    destruct (find_crlf buf) as [k|]; [|exact W]. cbv zeta.
    pose proof (sv_len_skipn_le (k + 2) buf) as Hk.
    pose proof (atol_range (firstn k buf)) as Ha.
    destruct Hwf as (Hlvl & Hfr). unfold depth in Hlvl.
    cbn [mblk_level mblk_store] in Hlvl, Hfr.
    destruct (0 <? atol (firstn k buf)) eqn:E1.
    { cbn [safely snd]. unfold within, well_formed, bulk_ok, in_array, nested,
        depth. fields. split_and; auto; try lia; try discriminate. }
    destruct ((atol (firstn k buf) =? 0) || (atol (firstn k buf) =? -1)).
    2: { cbn [safely snd]. unfold within, well_formed, bulk_ok, nested, depth.
         fields. split_and; auto; try lia; try discriminate. }
    cbn [mblk_level set_buffer set_mblk_level].
    unfold INT_MAX in *.
    rewrite int_of_small by lia.
    destruct ms as [|s next].
    + cbn [List.length] in Hlvl. subst lvl. change (1 + Z.of_nat 0 - 1) with 0.
      change (0 <? 0) with false. cbn [bind].
      apply completed_within; [left; split; reflexivity|].
      unfold depth. fields. cbn [List.length]. lia.
    + cbn [List.length] in Hlvl.
      rewrite (proj2 (Z.ltb_lt 0 (lvl - 1))) by lia.
      unfold _mblk_status_fetch. cbn [mblk_store bind].
      cbn [forallb] in Hfr. apply andb_prop in Hfr. destruct Hfr as [Hs Hn].
      destruct s as [sr sl]. unfold frame_ok in Hs.
      cbn [store_mblk_reply] in Hs.
      apply completed_within.
      * right. unfold in_array, nested, depth. fields.
        split_and; auto; try lia.
        destruct sr; [discriminate|discriminate Hs].
      * unfold depth. fields. cbn [List.length] in *. lia.
  - destruct buf as [|op rest]; [change (sv_len []) with 0 in Hl; lia|].
    destruct rest as [|c rest']; [change (sv_len [op]) with 1 in Hl; lia|].
    rewrite (body_wait_bucks _ op (c :: rest'))
      by (try reflexivity; discriminate).
    destruct (op_state op) as [s|] eqn:O; [|cbn; auto].
    rewrite !sv_len_cons in *. pose proof (sv_len_nonneg rest') as Hr.
    destruct Hwf as ((Hlvl & Hfr) & Hmr). unfold depth in Hlvl.
    cbn [mblk_level mblk_store mblk_reply] in Hlvl, Hfr, Hmr.
    destruct (op =? "*")%char eqn:E.
    + apply Ascii.eqb_eq in E. subst op. injection O as <-.
      cbn [safely snd]. unfold INT_MAX in *.
      unfold within, well_formed, bulk_ok, nested, depth, _mblk_status_store.
      fields. rewrite int_of_small by lia. cbn [forallb List.length].
      rewrite !sv_len_cons.
      split_and; auto; try lia; try discriminate.
      unfold frame_ok. cbn [store_mblk_reply]. destruct mr; [exact Hfr|congruence].
    + cbn [safely snd].
      unfold within, well_formed, bulk_ok, in_array, nested, depth.
      fields. rewrite !sv_len_cons.
      destruct (op_state_scalar op s O E) as [-> | [-> | [-> | ->]]];
        split_and; auto; try lia; try discriminate;
        right; split_and; auto.
Qed.


Lemma loops_within p r :
  loops p r ->
  well_formed p -> state p <> RDBP_CLEAN ->
  depth p + sv_len (buffer p) <= INT_MAX ->
  safely (fun x => within (depth p + sv_len (buffer p)) (snd x)) r.
Proof.
  induction 1 as [p rv p' H|p p1 r H L IH|p m H|p f H];
    intros Hw Hst Hmax;
    pose proof (loop_body_within p Hw Hst Hmax) as S; rewrite H in S.
  - exact S.
  - destruct S as (W1 & W2). cbn [snd] in *.
    pose proof (depth_nonneg p). pose proof (depth_nonneg p1).
    apply loop_body_step in H; auto; [|lia|apply Hw].
    destruct H as (_ & _ & _ & _ & H & _).
    eapply safely_impl; [apply IH; auto; lia|].
    intros x (X1 & X2). split; [exact X1|lia].
  - exact S.
  - exact S.
Qed.

Lemma enter_within p :
  well_formed p -> buffer p <> [] ->
  match enter p with
  | Ok p1 =>
      within (depth p + sv_len (buffer p)) p1 /\ state p1 <> RDBP_CLEAN
  | Croak msg => msg = "Got invalid reply"%string
  | Fault _ => False
  | OutOfFuel => False
  end.
Proof.
  intros (Hbulk & Hwf) B. unfold enter.
  destruct (state p) eqn:S.
  2-8: split; [split; [split; [exact Hbulk|now rewrite S]|lia]|
               rewrite S; discriminate].
  destruct (buffer p) as [|op rest] eqn:E; [congruence|].
  rewrite (read_op_eq p op rest E).
  destruct (op_state op) as [s|] eqn:O; [|reflexivity].
  destruct p as [u self cbs d buf st lvl mr ms ml bl cl].
  cbn [mblk_store state buffer] in *. subst ms buf st.
  rewrite sv_len_cons. pose proof (sv_len_nonneg rest).
  destruct (op =? "*")%char eqn:Es.
  - unfold within, well_formed, bulk_ok, nested, depth. fields.
    cbn [List.length forallb].
    split_and; auto; try lia; discriminate.
  - unfold within, well_formed, bulk_ok, top_level, depth. fields.
    cbn [List.length].
    destruct (op_state_scalar op s O Es) as [-> | [-> | [-> | ->]]];
      split_and; auto; try lia; try discriminate.
Qed.

Lemma parse_reply_within p :
  well_formed p -> depth p + sv_len (buffer p) <= INT_MAX ->
  safely (fun x => within (depth p + sv_len (buffer p)) (snd x))
         (rdb_parser__parse_reply p).
Proof.
  intros Hw Hmax. pose proof (depth_nonneg p) as Hd.
  destruct (buffer p) as [|c b] eqn:B.
  { rewrite parse_reply_empty by exact B. cbn [safely snd].
    split; [exact Hw|]. rewrite B. lia. }
  assert (B' : buffer p <> []) by (rewrite B; discriminate).
  rewrite <- B in *. clear B.
  pose proof (enter_within p Hw B') as E.
  destruct (parse_reply_loops p _ B' ltac:(lia) (proj1 Hw) eq_refl)
    as [p1 [[E1 L]|[E1 N]]].
  - rewrite E1 in E. destruct E as ((W1 & W2) & St).
    pose proof (depth_nonneg p1).
    eapply safely_impl; [apply (loops_within p1); auto; lia|].
    intros x (X1 & X2). split; [exact X1|lia].
  - rewrite E1. destruct (enter p) as [q| | |]; cbn [rmap safely].
    + now specialize (N q).
    + subst msg. cbn. auto.
    + exact E.
    + exact E.
Qed.

(** X9.  A parser is well formed when [bulk_len] fits a [long] while a bulk
    string is read, the stack is empty between two replies and, inside a
    multi-bulk reply, [mblk_level] is one more than the number of frames on
    the stack, every frame holds the array it suspended and, where an item
    is expected, an array is being filled.  On any bytes at all,
    [rdb_parser__parse_reply] takes a well-formed parser to a well-formed
    parser, and the frames on the stack and the bytes in the buffer together
    never grow. *)
Theorem parse_reply_keeps_well_formed p rv p' :
  well_formed p -> depth p + sv_len (buffer p) <= INT_MAX ->
  rdb_parser__parse_reply p = Ok (rv, p') ->
  well_formed p' /\
  depth p' + sv_len (buffer p') <= depth p + sv_len (buffer p).
Proof.
  intros Hw Hmax H. pose proof (parse_reply_within p Hw Hmax) as S.
  rewrite H in S. exact S.
Qed.

Lemma appended_nonneg ops : 0 <= appended ops.
Proof.
  induction ops as [|[c| | | ] ops IH]; cbn [appended]; try lia.
  pose proof (sv_len_nonneg c). lia.
Qed.

Lemma run_within ops : forall p,
  well_formed p -> depth p + sv_len (buffer p) + appended ops <= INT_MAX ->
  safely (fun x => well_formed (snd x)) (run ops p).
Proof.
  induction ops as [|op ops IH]; intros p Hw Hmax.
  - exact Hw.
  - pose proof (appended_nonneg ops) as Ha.
    destruct op as [chunk|cb|cb| ]; cbn [run appended] in *.
    + apply IH.
      * destruct p. exact Hw.
      * unfold depth in *. cbn [append set_buffer buffer mblk_store].
        rewrite sv_len_app. lia.
    + apply IH; [destruct p; exact Hw|].
      unfold depth in *. cbn [set_callbacks buffer mblk_store]. lia.
    + apply IH; [destruct p; exact Hw|].
      unfold depth in *. cbn [set_default_cb buffer mblk_store]. lia.
    + pose proof (parse_reply_within p Hw ltac:(lia)) as S.
      destruct (rdb_parser__parse_reply p) as [[rv p1]|m|f|];
        cbn [safely snd bind] in *; auto.
      destruct S as (W1 & W2).
      specialize (IH p1 W1 ltac:(lia)).
      destruct (run ops p1) as [[n pf]|m|f|]; cbn [safely snd bind] in *; auto.
Qed.

(** X10.  A parser made by [rdb_parser__init] is well formed whatever the
    memory it was allocated in held.  Whatever is then done with it, in
    whatever order (bytes appended, any bytes at all, callbacks pushed, the
    default callback set or removed, [rdb_parser__parse_reply] called), no
    call reads outside the buffer, pushes to an array that is not there or
    fetches from an empty stack: a run ends in a well-formed parser or in
    one of the four errors for bytes that are no reply, an item that is no
    reply, a bulk string that is not UTF-8 and a reply nobody waits for.
    The bytes appended are at most [INT_MAX] in all. *)
Theorem run_from_init_is_safe redisdb utf8 junk ops :
  appended ops <= INT_MAX ->
  well_formed (rdb_parser__init redisdb utf8 junk) /\
  safely (fun x => well_formed (snd x))
         (run ops (rdb_parser__init redisdb utf8 junk)).
Proof.
  intros H. destruct junk as [[level len] blen].
  assert (W : well_formed (rdb_parser__init redisdb utf8 (level, len, blen))).
  { split; [intros E; discriminate E|reflexivity]. }
  split; [exact W|]. apply run_within; [exact W|].
  unfold depth, rdb_parser__init. cbn [mblk_store buffer List.length].
  change (sv_len []) with 0. lia.
Qed.


(** ** The fields [rdb_parser__init] leaves unassigned *)

Lemma _mblk_item_rec_bulk_len fuel : forall p v b,
  _mblk_item_rec fuel (set_bulk_len p b) v =
  rmap (on_parser (fun q => set_bulk_len q b)) (_mblk_item_rec fuel p v).
Proof.
  induction fuel as [|fuel IH]; intros p v b; [reflexivity|].
  destruct p as [u self cbs d buf st lvl mr ms ml bl cl].
  cbn -[Z.ltb]. destruct mr as [av|]; [|reflexivity].
  cbn -[Z.ltb]. destruct (1 <? ml); [reflexivity|].
  destruct (1 <? lvl); [|reflexivity].
  destruct ms as [|s next]; [reflexivity|].
  cbn -[Z.ltb]. apply (IH (Parser u self cbs d buf st (lvl - 1) (store_mblk_reply s)
                                next (store_mblk_len s) bl cl)).
Qed.

Lemma _reply_completed_bulk_len p v b :
  _reply_completed (set_bulk_len p b) v =
  rmap (on_parser (fun q => set_bulk_len q b)) (_reply_completed p v).
Proof.
  unfold _reply_completed, _mblk_item.
  change (mblk_level (set_bulk_len p b)) with (mblk_level p).
  change (mblk_store (set_bulk_len p b)) with (mblk_store p).
  destruct (negb (mblk_level p =? 0)).
  - rewrite _mblk_item_rec_bulk_len.
    destruct (_mblk_item_rec _ p v) as [[rv q]| | |]; try reflexivity.
    cbn -[Z.eqb]. destruct (negb (rv =? 0)); [reflexivity|].
    destruct q as [u self cbs d buf st lvl mr ms ml bl cl]. cbn.
    destruct mr; [|reflexivity]. cbn.
    destruct cbs; [|reflexivity]. destruct d; reflexivity.
  - destruct p as [u self cbs d buf st lvl mr ms ml bl cl]. cbn.
    destruct cbs; [|reflexivity]. destruct d; reflexivity.
Qed.

Lemma live_set_bulk_len p b :
  state p <> RDBP_READ_BULK -> live (set_bulk_len p b) = live p.
Proof.
  destruct p as [u self cbs d buf st lvl mr ms ml bl cl].
  unfold live, mblk_len_dead. cbn. intros H.
  destruct st; try reflexivity; congruence.
Qed.

Lemma completed_live u self cbs d buf st lvl mr ms ml ml' bl bl' cl v :
  lvl = 0 \/ ml' = ml ->
  rmap (on_parser live)
       (completed (_reply_completed
                     (Parser u self cbs d buf st lvl mr ms ml' bl' cl) v)) =
  rmap (on_parser live)
       (completed (_reply_completed
                     (Parser u self cbs d buf st lvl mr ms ml bl cl) v)).
Proof.
  intros [-> | ->].
  - rewrite !_reply_completed_top by reflexivity.
    unfold deliver, completed. cbn.
    destruct cbs; [destruct d|]; reflexivity.
  - change (Parser u self cbs d buf st lvl mr ms ml bl' cl)
      with (set_bulk_len (Parser u self cbs d buf st lvl mr ms ml bl cl) bl').
    rewrite _reply_completed_bulk_len.
    destruct (_reply_completed _ v) as [[rv p']| | |] eqn:E; try reflexivity.
    apply _reply_completed_result in E.
    destruct E as (_ & _ & _ & _ & [(-> & S & _)|(-> & S & _)]);
      cbn; unfold on_parser; cbn [fst snd];
      rewrite live_set_bulk_len by (rewrite S; discriminate); reflexivity.
Qed.


Ltac live_eq :=
  cbn [rmap on_parser fst snd bind]; unfold on_parser, live, mblk_len_dead;
  cbn [fst snd]; fields; congruence.

Lemma live_dead_len (c : bool) (ml ml' : Z) :
  (if c then 0 else ml) = (if c then 0 else ml') -> c = true \/ ml = ml'.
Proof. destruct c; auto. Qed.

Lemma loop_body_live p q :
  live p = live q ->
  rmap (on_parser live) (loop_body p) = rmap (on_parser live) (loop_body q).
Proof.
  intros H.
  destruct p as [u self cbs d buf st lvl mr ms ml bl cl].
  destruct q as [u' self' cbs' d' buf' st' lvl' mr' ms' ml' bl' cl'].
  unfold live, mblk_len_dead in H.
  cbv [utf8 redisdb callbacks default_cb buffer state mblk_level mblk_reply
       mblk_store mblk_len bulk_len calls] in H.
  injection H as -> -> -> -> -> -> Hlvl -> -> Hml Hbl ->.
  unfold loop_body. fields.
  destruct (sv_len buf' <? 2); [destruct st'; live_eq|].
  destruct st'.
  - live_eq.
  - subst lvl'. pose proof (live_dead_len _ _ _ Hml) as Hd.
    destruct (_read_line buf') as [[line b1]| | |]; try reflexivity.
    cbn [bind]. destruct line as [line|]; [|live_eq].
    apply completed_live. rewrite Z.eqb_eq in Hd. exact Hd.
  - subst lvl'. pose proof (live_dead_len _ _ _ Hml) as Hd.
    destruct (_read_line buf') as [[line b1]| | |]; try reflexivity.
    cbn [bind]. destruct line as [line|]; [|live_eq].
    apply completed_live. rewrite Z.eqb_eq in Hd. exact Hd.
  - subst lvl'. pose proof (live_dead_len _ _ _ Hml) as Hd.
    destruct (_read_number buf') as [[line b1]| | |]; try reflexivity.
    cbn [bind]. destruct line as [line|]; [|live_eq].
    apply completed_live. rewrite Z.eqb_eq in Hd. exact Hd.
  - subst lvl'.
    destruct (_read_length buf') as [[len b1]| | |]; try reflexivity.
    cbn [bind]. destruct (0 <=? len); [live_eq|].
    destruct (len =? -1); [|live_eq].
    pose proof (live_dead_len _ _ _ Hml) as Hd.
    apply completed_live. rewrite Z.eqb_eq in Hd. exact Hd.
  - subst lvl' bl'.
    destruct (sv_len buf' <? ulong_of (2 + bl)); [live_eq|].
    pose proof (live_dead_len _ _ _ Hml) as Hd. rewrite Z.eqb_eq in Hd.
    destruct u'; [destruct (sv_utf8_decode _)|]; try reflexivity;
      apply completed_live; exact Hd.
  - subst lvl'.
    destruct (_read_length buf') as [[len b1]| | |]; try reflexivity.
    cbn [bind]. destruct (0 <? len); [live_eq|].
    destruct ((len =? 0) || (len =? -1)); [|live_eq].
    destruct (0 <? int_of (lvl - 1)) eqn:E.
    + unfold _mblk_status_fetch. fields.
      destruct ms' as [|s next]; [reflexivity|]. cbn [bind].
      apply completed_live. auto.
    + cbn [bind]. apply completed_live.
      destruct (live_dead_len _ _ _ Hml) as [Hd|Hd]; [|auto].
      apply Z.eqb_eq in Hd. subst lvl. left. reflexivity.
  - subst lvl' ml'.
    destruct buf' as [|op rest]; [reflexivity|].
    unfold _mblk_status_store.
    repeat match goal with
           | |- context [if ?c then _ else _] => destruct c
           end; try reflexivity; live_eq.
Qed.


Lemma live_buffer p q : live p = live q -> buffer p = buffer q.
Proof. intros H. apply (f_equal buffer) in H. exact H. Qed.

Lemma live_state p q : live p = live q -> state p = state q.
Proof. intros H. apply (f_equal state) in H. exact H. Qed.

Lemma Ok_pair_inj {A B : Type} (a a' : A) (b b' : B) :
  Ok (a, b) = Ok (a', b') -> a = a' /\ b = b'.
Proof. intros H. injection H as -> ->. auto. Qed.

Lemma parse_loop_live n : forall p q,
  live p = live q ->
  rmap (on_parser live) (parse_loop n p) =
  rmap (on_parser live) (parse_loop n q).
Proof.
  induction n as [|n IH]; intros p q H; [reflexivity|].
  cbn [parse_loop]. pose proof (loop_body_live p q H) as L.
  destruct (loop_body p) as [[o p1]| | |], (loop_body q) as [[o' q1]| | |];
    try discriminate L; cbn [bind];
    try (cbn [rmap] in *; congruence).
  cbv [rmap on_parser fst snd] in L. apply Ok_pair_inj in L.
  destruct L as [-> L]. destruct o' as [rv|].
  - cbv [rmap on_parser fst snd]. now rewrite L.
  - now apply IH.
Qed.

Lemma read_op_live p q :
  live p = live q -> state p = RDBP_CLEAN ->
  rmap live (read_op p) = rmap live (read_op q).
Proof.
  intros H S.
  destruct p as [u self cbs d buf st lvl mr ms ml bl cl].
  destruct q as [u' self' cbs' d' buf' st' lvl' mr' ms' ml' bl' cl'].
  cbn [state] in S. subst st.
  unfold live, mblk_len_dead in H.
  cbv [utf8 redisdb callbacks default_cb buffer state mblk_level mblk_reply
       mblk_store mblk_len bulk_len calls] in H.
  injection H as -> -> -> -> -> <- _ -> -> _ _ ->.
  unfold read_op. fields.
  destruct buf' as [|op rest]; [reflexivity|].
  repeat match goal with
         | |- context [if ?c then _ else _] => destruct c
         end; reflexivity.
Qed.

Lemma parse_reply_live p q :
  live p = live q ->
  rmap (on_parser live) (rdb_parser__parse_reply p) =
  rmap (on_parser live) (rdb_parser__parse_reply q).
Proof.
  intros H. unfold rdb_parser__parse_reply.
  rewrite <- (live_buffer p q H), <- (live_state p q H).
  destruct (sv_len (buffer p) =? 0).
  { cbv [rmap on_parser fst snd]. now rewrite H. }
  assert (K : forall r r' : result RDB_parser,
    rmap live r = rmap live r' ->
    rmap (on_parser live)
         (p1 <- r ;; parse_loop (S (List.length (buffer p1))) p1) =
    rmap (on_parser live)
         (p1 <- r' ;; parse_loop (S (List.length (buffer p1))) p1)).
  { intros [p1| | |] [q1| | |] E; try discriminate E; cbn [bind];
      try (cbn [rmap] in *; congruence).
    cbn [rmap] in E. apply Ok_inj in E.
    rewrite (live_buffer p1 q1 E). now apply parse_loop_live. }
  destruct (state p) eqn:S; apply K; cbn [rmap]; try (now rewrite H).
  now apply read_op_live.
Qed.

Lemma run_live ops : forall p q,
  live p = live q ->
  rmap (on_parser live) (run ops p) = rmap (on_parser live) (run ops q).
Proof.
  induction ops as [|op ops IH]; intros p q H.
  - cbv [run rmap on_parser fst snd]. now rewrite H.
  - destruct op as [chunk|cb|cb| ]; cbn [run].
    + apply IH. destruct p, q. unfold live, mblk_len_dead in *.
      cbv [utf8 redisdb callbacks default_cb buffer state mblk_level
           mblk_reply mblk_store mblk_len bulk_len calls append set_buffer]
        in *.
      congruence.
    + apply IH. destruct p, q. unfold live, mblk_len_dead in *.
      cbv [utf8 redisdb callbacks default_cb buffer state mblk_level
           mblk_reply mblk_store mblk_len bulk_len calls set_callbacks] in *.
      congruence.
    + apply IH. destruct p, q. unfold live, mblk_len_dead in *.
      cbv [utf8 redisdb callbacks default_cb buffer state mblk_level
           mblk_reply mblk_store mblk_len bulk_len calls set_default_cb] in *.
      congruence.
    + pose proof (parse_reply_live p q H) as P.
      destruct (rdb_parser__parse_reply p) as [[rv p1]| | |],
               (rdb_parser__parse_reply q) as [[rv' q1]| | |];
        try discriminate P; cbn [bind];
        try (cbn [rmap] in *; congruence).
      cbv [rmap on_parser fst snd] in P. apply Ok_pair_inj in P.
      destruct P as [-> P]. specialize (IH p1 q1 P).
      destruct (run ops p1) as [[n pf]| | |], (run ops q1) as [[n' qf]| | |];
        try discriminate IH; cbn [bind];
        try (cbn [rmap] in *; congruence).
      cbv [rmap on_parser fst snd] in *. apply Ok_pair_inj in IH.
      destruct IH as [-> IH]. now rewrite IH.
Qed.

(** X11.  [rdb_parser__init] does not assign [mblk_level], [mblk_len] and
    [bulk_len]; they start with whatever the allocated memory held.  No
    call ever reads them before it has assigned them: whatever is done with
    two parsers that differ in that memory only, the runs have the same
    outcome, return 1 as often, make the same calls and end in parsers that
    agree on every field that the code may still read before assigning
    it. *)
Theorem init_junk_is_never_read redisdb utf8 junk junk' ops :
  rmap (on_parser live) (run ops (rdb_parser__init redisdb utf8 junk)) =
  rmap (on_parser live) (run ops (rdb_parser__init redisdb utf8 junk')).
Proof.
  apply run_live. destruct junk as [[l m] b], junk' as [[l' m'] b'].
  reflexivity.
Qed.


(** ** The loop ends *)

Lemma parse_loop_clean n p :
  state p = RDBP_CLEAN -> 2 <= sv_len (buffer p) ->
  parse_loop n p = OutOfFuel.
Proof.
  intros S L. induction n as [|n IH]; [reflexivity|].
  cbn [parse_loop]. rewrite loop_body_long, S by exact L. exact IH.
Qed.

(** X12.  The [while (1)] loop of [rdb_parser__parse_reply] ends: entered
    in any state but [RDBP_CLEAN], it leaves the function after at most one
    pass more than the buffer has bytes, since every pass that does not
    return takes at least one byte; more passes allowed change nothing.  It
    relies on the block before it to leave [RDBP_CLEAN]: entered in that
    state with two bytes or more, no branch of the loop applies and it would
    go round for ever. *)
Theorem parse_loop_ends p n :
  sv_len (buffer p) <= INT_MAX -> bulk_ok p ->
  (List.length (buffer p) < n)%nat ->
  (state p <> RDBP_CLEAN ->
   parse_loop n p = parse_loop (S (List.length (buffer p))) p /\
   parse_loop n p <> OutOfFuel) /\
  (state p = RDBP_CLEAN -> 2 <= sv_len (buffer p) ->
   parse_loop n p = OutOfFuel).
Proof.
  intros Hmax Hb Hn. split.
  - intros St.
    pose proof (parse_loop_total (S (List.length (buffer p))) p
                  (Nat.lt_succ_diag_r _) Hmax St Hb) as [T _].
    pose proof (parse_loop_loops _ p _ eq_refl T) as L.
    rewrite (loops_parse_loop p _ n L Hn Hmax St Hb). auto.
  - intros St L. now apply parse_loop_clean.
Qed.


(** ** [_mblk_item] on a well-formed stack *)

Lemma _mblk_item_rec_level fuel : forall p v p',
  (List.length (mblk_store p) < fuel)%nat -> in_array p ->
  _mblk_item_rec fuel p v = Ok (0, p') -> mblk_level p' = 1.
Proof.
  induction fuel as [|fuel IH]; intros p v p' Hf Ha H; [lia|].
  destruct p as [u self cbs d buf st lvl mr ms ml bl cl].
  unfold in_array, nested, depth in *.
  cbn [mblk_store mblk_level mblk_reply] in Hf, Ha.
  destruct Ha as ((Hl & Hfr) & Hr).
  destruct mr as [av|]; [|congruence].
  cbn -[Z.ltb Z.add Z.of_nat] in H. destruct (1 <? ml); [discriminate|].
  destruct (1 <? lvl) eqn:E.
  - destruct ms as [|s next]; [discriminate|].
    cbn [forallb] in Hfr. apply andb_prop in Hfr. destruct Hfr as [Hs Hn].
    cbn [List.length] in Hl, Hf.
    destruct s as [sr sl]. unfold frame_ok in Hs.
    cbn [store_mblk_reply] in Hs.
    cbn -[Z.ltb Z.add Z.of_nat] in H. apply IH in H; auto.
    + fields. lia.
    + fields. split_and; auto; [lia|].
      destruct sr; [discriminate|discriminate Hs].
  - injection H as <-. fields. apply Z.ltb_ge in E. lia.
Qed.

(** X13.  On a parser that is inside an array, with a well-formed stack,
    [_mblk_item] cannot fail: it returns 1 and waits for the next item, the
    stack no deeper than before and still well formed, or it returns 0 with
    every array closed, the stack empty, the level 1 and the outermost
    array in [mblk_reply]; it touches neither the buffer nor the callbacks.
    Where there is no current array it pushes to a NULL array, and where
    [mblk_level] says that the last item closes a nested array while the
    stack is empty, [_mblk_status_fetch] croaks. *)
Theorem mblk_item_on_a_stack p v :
  (in_array p ->
   exists rv p',
     _mblk_item p v = Ok (rv, p') /\
     buffer p' = buffer p /\ callbacks p' = callbacks p /\
     default_cb p' = default_cb p /\ calls p' = calls p /\
     ((rv = 1 /\ state p' = RDBP_WAIT_BUCKS /\ in_array p' /\
       depth p' <= depth p) \/
      (rv = 0 /\ state p' = state p /\ mblk_level p' = 1 /\
       mblk_store p' = [] /\ mblk_reply p' <> None))) /\
  (mblk_reply p = None -> _mblk_item p v = Fault NullArray) /\
  (mblk_reply p <> None -> mblk_len p <= 1 -> 1 < mblk_level p ->
   mblk_store p = [] ->
   _mblk_item p v =
   Croak "Already at the upper level of multi-bulk reply").
Proof.
  split_and.
  - intros Ha. unfold _mblk_item.
    destruct (_mblk_item_rec_nested (S (List.length (mblk_store p))) p v)
      as (rv & p' & E & D & H); [lia|exact Ha|].
    exists rv, p'. split; [exact E|].
    pose proof (_mblk_item_rec_result _ _ _ _ _ E)
      as (R1 & _ & R2 & R3 & R4 & _ & _ & R5).
    split_and; auto.
    destruct H as [(-> & H)|(-> & H1 & H2)].
    + left. destruct R5 as [(_ & R5)|(R5 & _)]; [|discriminate]. auto.
    + right. destruct R5 as [(R5 & _)|(_ & R5 & _)]; [discriminate|].
      split_and; auto.
      apply (_mblk_item_rec_level _ p v p' (Nat.lt_succ_diag_r _) Ha E).
  - intros H. unfold _mblk_item. cbn [_mblk_item_rec]. now rewrite H.
  - intros Hr Hm Hl Hs. unfold _mblk_item.
    destruct p as [u self cbs d buf st lvl mr ms ml bl cl].
    cbn [mblk_reply mblk_len mblk_level mblk_store] in *. subst ms.
    destruct mr as [av|]; [|congruence].
    cbn -[Z.ltb].
    rewrite (proj2 (Z.ltb_ge 1 ml)) by lia.
    rewrite (proj2 (Z.ltb_lt 1 lvl)) by lia. reflexivity.
Qed.


(** ** When the callbacks are looked at *)

Lemma _mblk_item_rec_cb cbs' d' fuel : forall p v,
  _mblk_item_rec fuel (set_default_cb (set_callbacks p cbs') d') v =
  rmap (on_parser (fun q => set_default_cb (set_callbacks q cbs') d'))
       (_mblk_item_rec fuel p v).
Proof.
  induction fuel as [|fuel IH]; intros p v; [reflexivity|].
  destruct p as [u self cbs d buf st lvl mr ms ml bl cl].
  cbn -[Z.ltb]. destruct mr as [av|]; [|reflexivity].
  cbn -[Z.ltb]. destruct (1 <? ml); [reflexivity|].
  destruct (1 <? lvl); [|reflexivity].
  destruct ms as [|s next]; [reflexivity|].
  cbn -[Z.ltb]. apply (IH (Parser u self cbs d buf st (lvl - 1) (store_mblk_reply s)
                                next (store_mblk_len s) bl cl)).
Qed.

Lemma _reply_completed_cb cbs' d' p v p' :
  _reply_completed p v = Ok (0, p') ->
  _reply_completed (set_default_cb (set_callbacks p cbs') d') v =
  Ok (0, set_default_cb (set_callbacks p' cbs') d').
Proof.
  unfold _reply_completed, _mblk_item.
  change (mblk_level (set_default_cb (set_callbacks p cbs') d'))
    with (mblk_level p).
  change (mblk_store (set_default_cb (set_callbacks p cbs') d'))
    with (mblk_store p).
  destruct (negb (mblk_level p =? 0)).
  - rewrite _mblk_item_rec_cb.
    destruct (_mblk_item_rec _ p v) as [[rv q]| | |]; try discriminate.
    cbn [rmap bind on_parser fst snd].
    destruct (negb (rv =? 0)); cbn [bind].
    + intros H. injection H as <-. reflexivity.
    + destruct (mblk_reply q); [|discriminate]. cbn [bind].
      change (callbacks (set_state (set_mblk_reply q None) RDBP_CLEAN))
        with (callbacks q).
      change (default_cb (set_state (set_mblk_reply q None) RDBP_CLEAN))
        with (default_cb q).
      destruct (callbacks q); [destruct (default_cb q)|]; discriminate.
  - cbn [bind].
    change (callbacks (set_state p RDBP_CLEAN)) with (callbacks p).
    change (default_cb (set_state p RDBP_CLEAN)) with (default_cb p).
    destruct (callbacks p); [destruct (default_cb p)|]; discriminate.
Qed.

Lemma completed_cb cbs' d' p v p' :
  completed (_reply_completed p v) = Ok (None, p') ->
  completed (_reply_completed (set_default_cb (set_callbacks p cbs') d') v) =
  Ok (None, set_default_cb (set_callbacks p' cbs') d').
Proof.
  unfold completed.
  destruct (_reply_completed p v) as [[rv q]| | |] eqn:E; try discriminate.
  cbn [bind]. destruct (negb (rv =? 0)) eqn:N; [discriminate|].
  intros H. injection H as <-.
  apply negb_false_iff, Z.eqb_eq in N. subst rv.
  now rewrite (_reply_completed_cb cbs' d' _ _ _ E).
Qed.

Lemma loop_body_cb cbs' d' p o p' :
  loop_body p = Ok (o, p') -> o <> Some 1 ->
  loop_body (set_default_cb (set_callbacks p cbs') d') =
  Ok (o, set_default_cb (set_callbacks p' cbs') d').
Proof.
  set (T := fun q => set_default_cb (set_callbacks q cbs') d').
  change (loop_body p = Ok (o, p') -> o <> Some 1 ->
          loop_body (T p) = Ok (o, T p')).
  assert (K : forall q v,
    completed (_reply_completed q v) = Ok (o, p') -> o <> Some 1 ->
    completed (_reply_completed (T q) v) = Ok (o, T p')).
  { intros q v H N. pose proof (completed_result _ _ _ _ H)
      as (_ & _ & _ & _ & [(-> & _)|(-> & _)]); [|congruence].
    now apply completed_cb. }
  unfold loop_body.
  change (buffer (T p)) with (buffer p). change (state (T p)) with (state p).
  destruct (sv_len (buffer p) <? 2).
  { intros H _. injection H as <- <-. reflexivity. }
  destruct (state p).
  - intros H _. injection H as <- <-. reflexivity.
  - destruct (_read_line (buffer p)) as [[line b1]| | |]; try discriminate.
    cbn [bind]. destruct line as [line|].
    + apply (K (set_buffer p b1)).
    + intros H _. injection H as <- <-. reflexivity.
  - destruct (_read_line (buffer p)) as [[line b1]| | |]; try discriminate.
    cbn [bind]. destruct line as [line|].
    + apply (K (set_buffer p b1)).
    + intros H _. injection H as <- <-. reflexivity.
  - destruct (_read_number (buffer p)) as [[line b1]| | |]; try discriminate.
    cbn [bind]. destruct line as [line|].
    + apply (K (set_buffer p b1)).
    + intros H _. injection H as <- <-. reflexivity.
  - destruct (_read_length (buffer p)) as [[len b1]| | |]; try discriminate.
    cbn [bind]. cbv zeta. destruct (0 <=? len).
    { intros H _. injection H as <- <-. reflexivity. }
    destruct (len =? -1).
    + apply (K (set_buffer p b1)).
    + intros H _. injection H as <- <-. reflexivity.
  - change (bulk_len (T p)) with (bulk_len p).
    destruct (sv_len (buffer p) <? ulong_of (2 + bulk_len p)).
    { intros H _. injection H as <- <-. reflexivity. }
    cbv zeta. change (utf8 (set_buffer (T p) _)) with (utf8 p).
    change (utf8 (set_buffer p _)) with (utf8 p).
    destruct (utf8 p); [destruct (sv_utf8_decode _)|]; try discriminate;
      apply (K (set_buffer p _)).
  - destruct (_read_length (buffer p)) as [[len b1]| | |]; try discriminate.
    cbn [bind]. cbv zeta. destruct (0 <? len).
    { intros H _. injection H as <- <-. reflexivity. }
    destruct ((len =? 0) || (len =? -1)).
    + change (mblk_level (set_mblk_level (set_buffer (T p) b1) _))
        with (int_of (mblk_level p - 1)).
      change (mblk_level (set_mblk_level (set_buffer p b1) _))
        with (int_of (mblk_level p - 1)).
      change (mblk_level (set_buffer (T p) b1)) with (mblk_level p).
      change (mblk_level (set_buffer p b1)) with (mblk_level p).
      destruct (0 <? int_of (mblk_level p - 1)).
      * unfold _mblk_status_fetch.
        change (mblk_store (set_mblk_level (set_buffer (T p) b1) _))
          with (mblk_store p).
        change (mblk_store (set_mblk_level (set_buffer p b1) _))
          with (mblk_store p).
        destruct (mblk_store p) as [|s next]; [discriminate|].
        cbn [bind]. apply K.
      * cbn [bind]. apply (K (set_mblk_level (set_buffer p b1) _)).
    + intros H _. injection H as <- <-. reflexivity.
  - destruct (buffer p) as [|op rest]; [discriminate|]. cbv zeta.
    repeat match goal with
           | |- (if ?c then _ else _) = _ -> _ => destruct c
           end; intros H _; try discriminate; injection H as <- <-;
      destruct p; reflexivity.
Qed.

Lemma parse_loop_cb cbs' d' n : forall p p',
  parse_loop n p = Ok (0, p') ->
  parse_loop n (set_default_cb (set_callbacks p cbs') d') =
  Ok (0, set_default_cb (set_callbacks p' cbs') d').
Proof.
  induction n as [|n IH]; intros p p' H; [discriminate|].
  cbn [parse_loop] in *.
  destruct (loop_body p) as [[o p1]| | |] eqn:E; try discriminate.
  cbn [bind] in H. destruct o as [rv|].
  - injection H as -> ->.
    rewrite (loop_body_cb cbs' d' _ _ _ E) by discriminate. reflexivity.
  - rewrite (loop_body_cb cbs' d' _ _ _ E) by discriminate. cbn [bind].
    now apply IH.
Qed.

(** X14.  The callbacks are looked at only when a reply is complete.  A
    call of [rdb_parser__parse_reply] that returns 0 does the same whatever
    the queue and the default callback hold, and leaves them as they are:
    the callback of a reply may be queued while the reply is under way. *)
Theorem callbacks_read_on_delivery_only p p' cbs d :
  rdb_parser__parse_reply p = Ok (0, p') ->
  rdb_parser__parse_reply (set_default_cb (set_callbacks p cbs) d) =
  Ok (0, set_default_cb (set_callbacks p' cbs) d).
Proof.
  unfold rdb_parser__parse_reply.
  change (buffer (set_default_cb (set_callbacks p cbs) d)) with (buffer p).
  change (state (set_default_cb (set_callbacks p cbs) d)) with (state p).
  destruct (sv_len (buffer p) =? 0).
  { intros H. injection H as <-. reflexivity. }
  destruct (state p); cbn [bind]; try apply parse_loop_cb.
  assert (R : read_op (set_default_cb (set_callbacks p cbs) d) =
              rmap (fun q => set_default_cb (set_callbacks q cbs) d)
                   (read_op p)).
  { unfold read_op.
    change (buffer (set_mblk_level (set_default_cb (set_callbacks p cbs) d) 0))
      with (buffer p).
    change (buffer (set_mblk_level p 0)) with (buffer p).
    destruct (buffer p) as [|op rest]; [reflexivity|]. cbv zeta.
    repeat match goal with
           | |- context [if ?c then _ else _] => destruct c
           end; destruct p; reflexivity. }
  rewrite R. destruct (read_op p) as [p1| | |]; try discriminate.
  cbn [bind rmap].
  change (buffer (set_default_cb (set_callbacks p1 cbs) d)) with (buffer p1).
  apply parse_loop_cb.
Qed.


(** * Deliveries *)

Lemma delivers_ext p q v p' :
  callbacks q = callbacks p -> default_cb q = default_cb p ->
  calls q = calls p -> redisdb q = redisdb p ->
  delivers q v p' -> delivers p v p'.
Proof. unfold delivers. intros -> -> -> ->. auto. Qed.

Lemma _mblk_item_rec_nonempty fuel : forall p v p',
  _mblk_item_rec fuel p v = Ok (0, p') ->
  exists av w, mblk_reply p' = Some (av ++ [w]).
Proof.
  induction fuel as [|fuel IH]; intros p v p' H; [discriminate|].
  destruct p as [u self cbs d buf st lvl mr ms ml bl cl].
  cbn -[Z.ltb] in H. destruct mr as [av|]; [|discriminate].
  cbn -[Z.ltb] in H. destruct (1 <? ml); [discriminate|].
  destruct (1 <? lvl).
  - destruct ms as [|s next]; [discriminate|].
    cbn -[Z.ltb] in H. now apply IH in H.
  - injection H as <-. cbn. eauto.
Qed.

Lemma level_of_value_snoc av w : level_of_value (SVrv_av (av ++ [w])) = 1.
Proof. destruct av; reflexivity. Qed.

Lemma completed_delivers q v o p' :
  (top_level q /\ mblk_reply q = None /\ level_of_value v = 0) \/ in_array q ->
  completed (_reply_completed q v) = Ok (o, p') ->
  (o = None /\ state p' = RDBP_WAIT_BUCKS) \/
  (o = Some 1 /\ exists w, delivers q w p').
Proof.
  intros [((Hl & Hs) & Hr & Hv)|Ha].
  - rewrite _reply_completed_top by exact Hl.
    destruct q as [u self cbs d buf st lvl mr ms ml bl cl].
    cbn [mblk_level mblk_store mblk_reply] in Hl, Hs, Hr. subst lvl ms mr.
    unfold deliver, completed. cbn [set_state callbacks default_cb].
    destruct cbs as [|cb rest]; [destruct d as [cb|]|]; cbn [bind];
      try discriminate; change (negb (1 =? 0)) with true; cbv iota;
      intros H; injection H as <- <-; right; (split; [reflexivity|]);
      exists v; unfold delivers; fields; split_and; eauto.
  - unfold _reply_completed, _mblk_item.
    assert (N : (mblk_level q =? 0) = false).
    { destruct Ha as ((Hl & _) & _). pose proof (depth_nonneg q).
      apply Z.eqb_neq. lia. }
    rewrite N. cbn [negb].
    destruct (_mblk_item_rec_nested (S (List.length (mblk_store q))) q v)
      as (rv & p1 & E & D & H); [lia|exact Ha|].
    rewrite E. pose proof (_mblk_item_rec_result _ _ _ _ _ E)
      as (_ & _ & R1 & R2 & R3 & R4 & _ & R5).
    destruct H as [(-> & H)|(-> & H1 & H2)]; cbn [bind].
    + change (negb (1 =? 0)) with true. cbv iota. unfold completed.
      cbn [bind]. change (negb (0 =? 0)) with false. cbv iota.
      intros X. injection X as <- <-. left.
      destruct R5 as [(_ & R5)|(R5 & _)]; [auto|discriminate].
    + pose proof (_mblk_item_rec_level _ q v p1 (Nat.lt_succ_diag_r _) Ha E)
        as L.
      destruct (_mblk_item_rec_nonempty _ _ _ _ E) as (av & w & M).
      change (negb (0 =? 0)) with false. cbv iota.
      destruct p1 as [u self cbs d buf st lvl mr ms ml bl cl].
      cbn [mblk_store mblk_reply mblk_level callbacks default_cb calls
           redisdb] in *.
      subst ms mr lvl. cbn [bind]. unfold completed.
      cbn [set_state set_mblk_reply callbacks default_cb].
      destruct cbs as [|cb rest]; [destruct d as [cb|]|]; cbn [bind];
        try discriminate; change (negb (1 =? 0)) with true; cbv iota;
        intros X; injection X as <- <-; right; (split; [reflexivity|]);
        exists (SVrv_av (av ++ [w])); unfold delivers;
        rewrite level_of_value_snoc, <- R1, <- R2, <- R3, <- R4; fields;
        split_and; eauto.
Qed.


Lemma completed_settled p q v o p' :
  callbacks q = callbacks p -> default_cb q = default_cb p ->
  calls q = calls p -> redisdb q = redisdb p ->
  (top_level q /\ mblk_reply q = None /\ level_of_value v = 0) \/ in_array q ->
  completed (_reply_completed q v) = Ok (o, p') ->
  match state p' with
  | RDBP_CLEAN | RDBP_READ_MBLK_LEN => mblk_reply p' = None
  | RDBP_WAIT_BUCKS => True
  | _ => mblk_level p' = 0 -> mblk_reply p' = None
  end /\
  (o = Some 1 -> exists w, delivers p w p').
Proof.
  intros E1 E2 E3 E4 Hq H.
  destruct (completed_delivers q v o p' Hq H) as [(-> & S)|(-> & w & D)].
  - rewrite S. split; [exact I|discriminate].
  - pose proof D as (S & _ & R & _). rewrite S. split; [exact R|].
    intros _. exists w. now apply (delivers_ext p q).
Qed.

Ltac settled_completed H Hwf Hnp :=
  eapply completed_settled in H;
  [apply H|reflexivity|reflexivity|reflexivity|reflexivity|];
  (destruct Hwf as [[T1 T2]|A];
   [left; split;
    [split; [exact T1|exact T2]|split; [exact (Hnp T1)|reflexivity]]
   |right; exact A]).

Lemma loop_body_delivers p o p' :
  settled p -> state p <> RDBP_CLEAN ->
  depth p + sv_len (buffer p) <= INT_MAX ->
  loop_body p = Ok (o, p') ->
  match state p' with
  | RDBP_CLEAN | RDBP_READ_MBLK_LEN => mblk_reply p' = None
  | RDBP_WAIT_BUCKS => True
  | _ => mblk_level p' = 0 -> mblk_reply p' = None
  end /\
  (o = Some 1 -> exists w, delivers p w p').
Proof.
  intros (Hw & Hnp) Hst Hmax.
  pose proof (depth_nonneg p) as Hd.
  assert (Same : Ok (Some 0, p) = Ok (o, p') ->
    match state p' with
    | RDBP_CLEAN | RDBP_READ_MBLK_LEN => mblk_reply p' = None
    | RDBP_WAIT_BUCKS => True
    | _ => mblk_level p' = 0 -> mblk_reply p' = None
    end /\
    (o = Some 1 -> exists w, delivers p w p')).
  { intros H. injection H as <- <-. split; [exact Hnp|discriminate]. }
  destruct (Z.lt_ge_cases (sv_len (buffer p)) 2) as [Hs|Hl].
  { rewrite loop_body_short by exact Hs. exact Same. }
  assert (Hb : 2 <= sv_len (buffer p) <= INT_MAX) by lia.
  destruct Hw as (Hbulk & Hwf).
  destruct p as [u self cbs d buf st lvl mr ms ml bl cl].
  unfold depth in *.
  cbn [state buffer mblk_store mblk_level mblk_reply] in *.
  destruct st; [congruence|..].
  - rewrite body_read_line by (try reflexivity; exact Hb). cbn [buffer].
    destruct (find_crlf buf) as [k|]; [|exact Same].
    intros H. settled_completed H Hwf Hnp.
  - rewrite body_read_error by (try reflexivity; exact Hb). cbn [buffer].
    destruct (find_crlf buf) as [k|]; [|exact Same].
    intros H. settled_completed H Hwf Hnp.
  - rewrite body_read_number by (try reflexivity; exact Hb). cbn [buffer].
    destruct (find_crlf buf) as [k|]; [|exact Same].
    intros H. settled_completed H Hwf Hnp.
  - rewrite body_read_bulk_len by (try reflexivity; exact Hb). cbn [buffer].
    destruct (find_crlf buf) as [k|]; [|exact Same]. cbv zeta.
    destruct (0 <=? atol (firstn k buf)).
    { intros H. injection H as <- <-. split; [exact Hnp|discriminate]. }
    destruct (atol (firstn k buf) =? -1).
    + intros H. settled_completed H Hwf Hnp.
    + intros H. injection H as <- <-. split; [exact Hnp|discriminate].
  - assert (B : 0 <= bl <= LONG_MAX) by (now apply Hbulk).
    rewrite body_read_bulk by (try reflexivity; try exact B; apply Hb).
    cbn [buffer bulk_len utf8].
    destruct (sv_len buf <? 2 + bl); [exact Same|]. cbv zeta.
    destruct u; [destruct (is_utf8_string _)|]; try discriminate;
      intros H; settled_completed H Hwf Hnp.
  - rewrite body_read_mblk_len by (try reflexivity; exact Hb). cbn [buffer].
    destruct (find_crlf buf) as [k|]; [|exact Same]. cbv zeta.
    destruct Hwf as (Hlvl & Hfr). unfold depth in Hlvl.
    cbn [mblk_level mblk_store] in Hlvl, Hfr.
    destruct (0 <? atol (firstn k buf)).
    { intros H. injection H as <- <-. split; [exact I|discriminate]. }
    destruct ((atol (firstn k buf) =? 0) || (atol (firstn k buf) =? -1)).
    2: { intros H. injection H as <- <-. split; [exact Hnp|discriminate]. }
    cbn [mblk_level set_buffer set_mblk_level].
    unfold INT_MAX in *. rewrite int_of_small by lia.
    destruct ms as [|s next].
    + cbn [List.length] in Hlvl. subst lvl. change (1 + Z.of_nat 0 - 1) with 0.
      change (0 <? 0) with false. cbn [bind]. intros H.
      eapply completed_settled in H;
        [apply H|reflexivity|reflexivity|reflexivity|reflexivity|].
      left. split; [split; reflexivity|]. split; [exact Hnp|].
      destruct (atol (firstn k buf) =? 0); reflexivity.
    + cbn [List.length] in Hlvl.
      rewrite (proj2 (Z.ltb_lt 0 (lvl - 1))) by lia.
      unfold _mblk_status_fetch. cbn [mblk_store bind].
      cbn [forallb] in Hfr. apply andb_prop in Hfr. destruct Hfr as [Hs' Hn].
      destruct s as [sr sl]. unfold frame_ok in Hs'.
      cbn [store_mblk_reply] in Hs'. intros H.
      eapply completed_settled in H;
        [apply H|reflexivity|reflexivity|reflexivity|reflexivity|].
      right. unfold in_array, nested, depth. fields.
      split_and; auto; try lia.
      destruct sr; [discriminate|discriminate Hs'].
  - destruct buf as [|op rest]; [change (sv_len []) with 0 in Hl; lia|].
    destruct rest as [|c rest']; [change (sv_len [op]) with 1 in Hl; lia|].
    rewrite (body_wait_bucks _ op (c :: rest'))
      by (try reflexivity; discriminate).
    destruct (op_state op) as [s|] eqn:O; [|discriminate].
    destruct Hwf as ((Hlvl & Hfr) & Hmr). unfold depth in Hlvl.
    cbn [mblk_level mblk_store mblk_reply] in Hlvl, Hfr, Hmr.
    intros H. injection H as <- <-. split; [|discriminate].
    destruct (op =? "*")%char eqn:E; [reflexivity|].
    destruct (op_state_scalar op s O E) as [-> | [-> | [-> | ->]]];
      fields; intros Z0; lia.
Qed.

Lemma loop_body_settled p o p' :
  settled p -> state p <> RDBP_CLEAN ->
  depth p + sv_len (buffer p) <= INT_MAX ->
  loop_body p = Ok (o, p') ->
  settled p' /\ (o = Some 1 -> exists w, delivers p w p').
Proof.
  intros Hs Hst Hmax H.
  pose proof (loop_body_within p (proj1 Hs) Hst Hmax) as W. rewrite H in W.
  destruct W as (W & _). cbn [snd] in W.
  destruct (loop_body_delivers p o p' Hs Hst Hmax H) as (N & D).
  split; [split; assumption|exact D].
Qed.


Lemma loops_settled p r :
  loops p r ->
  settled p -> state p <> RDBP_CLEAN ->
  depth p + sv_len (buffer p) <= INT_MAX ->
  forall rv p', r = Ok (rv, p') ->
  settled p' /\ (rv = 1 -> exists w, delivers p w p').
Proof.
  induction 1 as [p rv0 p0 H|p p1 r H L IH|p m H|p f H];
    intros Hs Hst Hmax rv p' R; try discriminate.
  - injection R as -> ->.
    destruct (loop_body_settled p _ _ Hs Hst Hmax H) as (S & D).
    split; [exact S|]. intros ->. now apply D.
  - destruct (loop_body_settled p _ _ Hs Hst Hmax H) as (S & _).
    pose proof (loop_body_within p (proj1 Hs) Hst Hmax) as W.
    rewrite H in W. destruct W as (_ & W). cbn [snd] in W.
    pose proof (depth_nonneg p). pose proof (depth_nonneg p1).
    apply loop_body_step in H; auto; [|lia|apply Hs].
    destruct H as (_ & R1 & _ & _ & H & _ & (U1 & U2 & U3)).
    destruct (IH S H ltac:(lia) rv p' R) as (I1 & I2).
    split; [exact I1|]. intros E. destruct (I2 E) as (w & D).
    exists w. now apply (delivers_ext p p1).
Qed.

Lemma enter_settled p p1 :
  settled p -> buffer p <> [] -> enter p = Ok p1 -> settled p1.
Proof.
  intros (Hw & Hnp) B E.
  pose proof (enter_within p Hw B) as W. rewrite E in W.
  destruct W as ((W & _) & _). split; [exact W|].
  unfold enter in E. destruct (state p) eqn:S;
    try (injection E as <-; rewrite S; exact Hnp).
  destruct (buffer p) as [|op rest] eqn:Bp; [congruence|].
  rewrite (read_op_eq p op rest Bp) in E.
  destruct (op_state op) as [s|] eqn:O; [|discriminate].
  injection E as <-.
  destruct p as [u self cbs d buf st lvl mr ms ml bl cl].
  cbn [mblk_reply] in Hnp. subst mr.
  destruct (op =? "*")%char eqn:Es; [reflexivity|].
  destruct (op_state_scalar op s O Es) as [-> | [-> | [-> | ->]]];
    fields; auto.
Qed.

Lemma parse_reply_settled p rv p' :
  settled p -> depth p + sv_len (buffer p) <= INT_MAX ->
  rdb_parser__parse_reply p = Ok (rv, p') ->
  settled p' /\ (rv = 1 -> exists w, delivers p w p').
Proof.
  intros Hs Hmax H. pose proof (depth_nonneg p) as Hd.
  destruct (buffer p) as [|c b] eqn:B.
  { rewrite parse_reply_empty in H by exact B. injection H as <- <-.
    split; [exact Hs|discriminate]. }
  assert (B' : buffer p <> []) by (rewrite B; discriminate).
  rewrite <- B in *. clear B.
  destruct (parse_reply_loops p _ B' ltac:(lia) (proj1 (proj1 Hs)) H)
    as [p1 [[E L]|[E N]]].
  2: { destruct (enter p) as [x| | |];
       [now specialize (N x)|discriminate..]. }
  pose proof (enter_settled p p1 Hs B' E) as S1.
  pose proof (enter_within p (proj1 Hs) B') as W. rewrite E in W.
  destruct W as ((_ & W) & St).
  pose proof (enter_result p p1 B' (proj1 (proj1 Hs)) E)
    as (_ & _ & _ & _ & R1 & _ & (U1 & U2 & U3)).
  destruct (loops_settled p1 _ L S1 St ltac:(lia) rv p' eq_refl) as (I1 & I2).
  split; [exact I1|]. intros Ev. destruct (I2 Ev) as (w & D).
  exists w. now apply (delivers_ext p p1).
Qed.

Lemma run_settled ops : forall p n pf,
  settled p -> depth p + sv_len (buffer p) + appended ops <= INT_MAX ->
  run ops p = Ok (n, pf) -> settled pf.
Proof.
  induction ops as [|op ops IH]; intros p n pf Hs Hmax H.
  - cbn in H. injection H as <- <-. exact Hs.
  - pose proof (appended_nonneg ops) as Ha.
    destruct op as [chunk|cb|cb| ]; cbn [run appended] in *.
    + refine (IH _ _ _ _ _ H).
      * destruct p. exact Hs.
      * unfold depth in *. cbn [append set_buffer buffer mblk_store].
        rewrite sv_len_app. lia.
    + refine (IH _ _ _ _ _ H); [destruct p; exact Hs|].
      unfold depth in *. cbn [set_callbacks buffer mblk_store]. lia.
    + refine (IH _ _ _ _ _ H); [destruct p; exact Hs|].
      unfold depth in *. cbn [set_default_cb buffer mblk_store]. lia.
    + destruct (rdb_parser__parse_reply p) as [[rv p1]| | |] eqn:P;
        try discriminate.
      cbn [bind] in H.
      destruct (run ops p1) as [[n' pf']| | |] eqn:Rn; try discriminate.
      cbn [bind] in H. injection H as <- <-.
      destruct (parse_reply_settled p rv p1 Hs ltac:(lia) P) as (S1 & _).
      pose proof (parse_reply_within p (proj1 Hs) ltac:(lia)) as W.
      rewrite P in W. destruct W as (_ & W). cbn [snd] in W.
      apply (IH p1 n' pf'); auto. lia.
Qed.

(** ** A call that resumes a valid reply *)

Lemma valid_reply_resumed r u self cbs d rest lvl mr ms ml bl cl b1 b2 pf :
  valid_reply u r = true -> sv_len (encode r ++ rest) <= INT_MAX ->
  b1 ++ b2 = encode r ++ rest ->
  (List.length b1 < List.length (encode r))%nat ->
  rdb_parser__parse_reply
    (Parser u self cbs d (encode r ++ rest) RDBP_CLEAN lvl mr ms ml bl cl) =
  Ok (1, pf) ->
  exists q,
    rdb_parser__parse_reply
      (Parser u self cbs d b1 RDBP_CLEAN lvl mr ms ml bl cl) = Ok (0, q) /\
    callbacks q = cbs /\ default_cb q = d /\ calls q = cl /\
    rdb_parser__parse_reply (append q b2) = Ok (1, pf).
Proof.
  intros V Hmax Hb Hlen H.
  set (P := Parser u self cbs d b1 RDBP_CLEAN lvl mr ms ml bl cl).
  assert (Bf : buffer pf = rest).
  { rewrite parse_reply_valid in H by assumption.
    unfold deliver in H. cbv zeta in H.
    cbn [set_state callbacks default_cb] in H.
    destruct cbs as [|cb cbs']; [destruct d as [cb|]|]; try discriminate;
      injection H as <-; reflexivity. }
  assert (HP : sv_len (buffer P ++ b2) <= INT_MAX).
  { cbn [buffer P]. now rewrite Hb. }
  assert (bP : bulk_ok P) by apply bulk_ok_clean.
  assert (Hw : rdb_parser__parse_reply (append P b2) = Ok (1, pf)).
  { unfold append. cbn [P buffer set_buffer]. rewrite Hb. exact H. }
  destruct (parse_prefix P b2 pf HP bP Hw)
    as [(q' & Q1 & Q2)|(q' & Q1 & _ & _ & _ & Q5)].
  - exfalso.
    assert (HP' : sv_len (buffer P) <= INT_MAX).
    { rewrite sv_len_app in HP. pose proof (sv_len_nonneg b2). lia. }
    destruct (parse_reply_result P _ _ HP' bP Q1) as (L & _).
    apply (f_equal buffer) in Q2. rewrite Bf in Q2.
    cbn [buffer append set_buffer] in Q2.
    apply (f_equal (@List.length ascii)) in Q2, Hb.
    rewrite !length_app in *. cbn [buffer P] in L. lia.
  - exists q'. split; [exact Q1|].
    assert (HP' : sv_len (buffer P) <= INT_MAX).
    { rewrite sv_len_app in HP. pose proof (sv_len_nonneg b2). lia. }
    destruct (parse_reply_result P _ _ HP' bP Q1)
      as (_ & _ & _ & _ & [(_ & (U1 & U2 & U3) & _)|(E & _)]);
      [|discriminate].
    auto.
Qed.


Lemma run_depth ops : forall p n pf,
  well_formed p -> depth p + sv_len (buffer p) + appended ops <= INT_MAX ->
  run ops p = Ok (n, pf) ->
  depth pf + sv_len (buffer pf) <=
  depth p + sv_len (buffer p) + appended ops.
Proof.
  induction ops as [|op ops IH]; intros p n pf Hw Hmax H.
  - cbn [run appended] in *. injection H as <- <-. lia.
  - pose proof (appended_nonneg ops) as Ha.
    destruct op as [chunk|cb|cb| ]; cbn [run appended] in *.
    + assert (W : well_formed (append p chunk)) by (destruct p; exact Hw).
      assert (B : depth (append p chunk) + sv_len (buffer (append p chunk)) =
                  depth p + sv_len (buffer p) + sv_len chunk).
      { unfold depth. cbn [append set_buffer buffer mblk_store].
        rewrite sv_len_app. lia. }
      pose proof (IH _ _ _ W ltac:(lia) H). lia.
    + assert (W : well_formed (set_callbacks p (callbacks p ++ [cb])))
        by (destruct p; exact Hw).
      exact (IH _ _ _ W Hmax H).
    + assert (W : well_formed (set_default_cb p cb)) by (destruct p; exact Hw).
      exact (IH _ _ _ W Hmax H).
    + destruct (rdb_parser__parse_reply p) as [[rv p1]| | |] eqn:P;
        try discriminate.
      cbn [bind] in H.
      destruct (run ops p1) as [[n' pf']| | |] eqn:Rn; try discriminate.
      cbn [bind] in H. injection H as <- <-.
      pose proof (parse_reply_within p Hw ltac:(lia)) as W.
      rewrite P in W. destruct W as (W1 & W2). cbn [snd] in W1, W2.
      pose proof (IH _ _ _ W1 ltac:(lia) Rn). lia.
Qed.

Lemma level_after_value u r : level_after r = level_of_value (reply_sv u r).
Proof. destruct r as [| | | | |[|i items]|]; reflexivity. Qed.

Lemma deliveries_length self vs : forall cbs d cs,
  deliveries self cbs d vs = Some cs -> List.length cs = List.length vs.
Proof.
  induction vs as [|v vs IH]; intros cbs d cs H.
  - cbn in H. injection H as <-. reflexivity.
  - cbn [deliveries] in H. destruct cbs as [|cb cbs'].
    + destruct d as [cb|]; [|discriminate].
      destruct (deliveries self [] (Some cb) vs) as [cs'|] eqn:E;
        [|discriminate].
      injection H as <-. cbn [List.length]. f_equal. now apply (IH _ _ _ E).
    + destruct (deliveries self cbs' d vs) as [cs'|] eqn:E; [|discriminate].
      injection H as <-. cbn [List.length]. f_equal. now apply (IH _ _ _ E).
Qed.

(** * The claims on deliveries *)

(** C2, as amended.  A valid reply that [rdb_parser__parse_reply] delivers
    from the state [RDBP_CLEAN] leaves the state [RDBP_CLEAN], the bytes
    after the reply in the buffer, the stack of outer frames as it was and
    no array if none was held before; [mblk_level] is 1 after an array with
    items and 0 after any other reply.  The same parser is left when the
    reply arrives in pieces: a call on part of its bytes returns 0, the call
    that resumes with the other bytes delivers and leaves that parser, and so
    does feeding the bytes in any chunks.  On any bytes at all, every call
    that returns 1 on a settled parser, resumed or not, leaves the state
    [RDBP_CLEAN], an empty stack, no array and [mblk_level] at 1 exactly when
    the delivered value is an array with items; every parser that is reached
    from [rdb_parser__init] is settled, and holds neither a frame nor an
    array while it is in [RDBP_CLEAN].  The level left behind does not
    matter to the next call: entered in [RDBP_CLEAN] with bytes in the
    buffer, it behaves the same whatever [mblk_level] holds. *)
Theorem delivered_state_and_level r u self cbs d rest lvl mr ms ml bl cl rv p' :
  valid_reply u r = true ->
  sv_len (encode r ++ rest) <= INT_MAX ->
  rdb_parser__parse_reply
    (Parser u self cbs d (encode r ++ rest) RDBP_CLEAN lvl mr ms ml bl cl) =
  Ok (rv, p') ->
  (rv = 1 /\ state p' = RDBP_CLEAN /\ buffer p' = rest /\
   mblk_level p' = level_after r /\ mblk_store p' = ms /\
   mblk_reply p' = mblk_reply_after r mr) /\
  level_after r = level_of_value (reply_sv u r) /\
  (forall b1 b2,
     b1 ++ b2 = encode r ++ rest ->
     (List.length b1 < List.length (encode r))%nat ->
     exists q,
       rdb_parser__parse_reply
         (Parser u self cbs d b1 RDBP_CLEAN lvl mr ms ml bl cl) = Ok (0, q) /\
       rdb_parser__parse_reply (append q b2) = Ok (1, p')) /\
  (forall chunks,
     rest = [] -> List.concat chunks = encode r ->
     feed_all (Parser u self cbs d [] RDBP_CLEAN lvl mr ms ml bl cl) chunks =
     Ok p') /\
  (forall q rv' q',
     settled q -> depth q + sv_len (buffer q) <= INT_MAX ->
     rdb_parser__parse_reply q = Ok (rv', q') ->
     settled q' /\ (rv' = 1 -> exists v, delivers q v q')) /\
  (forall redisdb utf8 junk ops n q,
     appended ops <= INT_MAX ->
     run ops (rdb_parser__init redisdb utf8 junk) = Ok (n, q) ->
     settled q /\ depth q + sv_len (buffer q) <= INT_MAX /\
     (state q = RDBP_CLEAN -> mblk_store q = [] /\ mblk_reply q = None)) /\
  (forall q lvl', state q = RDBP_CLEAN -> buffer q <> [] ->
     rdb_parser__parse_reply (set_mblk_level q lvl') =
     rdb_parser__parse_reply q).
Proof.
  intros V Hmax H.
  assert (F : rv = 1 /\ state p' = RDBP_CLEAN /\ buffer p' = rest /\
              mblk_level p' = level_after r /\ mblk_store p' = ms /\
              mblk_reply p' = mblk_reply_after r mr).
  { pose proof H as H'. rewrite parse_reply_valid in H' by assumption.
    unfold deliver in H'. cbv zeta in H'.
    cbn [set_state callbacks default_cb] in H'.
    destruct cbs as [|cb cbs'].
    - destruct d as [cb|]; [|discriminate].
      injection H' as <- <-. cbn. auto 10.
    - injection H' as <- <-. cbn. auto 10. }
  destruct F as (-> & F2 & F3 & F4 & F5 & F6).
  split_and; auto.
  - apply level_after_value.
  - intros b1 b2 Hb Hlen.
    destruct (valid_reply_resumed r u self cbs d rest lvl mr ms ml bl cl b1 b2
                p' V Hmax Hb Hlen H) as (q & Q1 & _ & _ & _ & Q2).
    exists q. auto.
  - intros chunks -> C. rewrite app_nil_r in *.
    set (p0 := Parser u self cbs d [] RDBP_CLEAN lvl mr ms ml bl cl).
    assert (D : drains (append p0 (encode r)) (Ok p')).
    { eapply drains_more; [exact H|discriminate|].
      apply drains_done. now apply parse_reply_empty. }
    apply feed_all_whole; auto.
    + now apply parse_reply_empty.
    + apply bulk_ok_clean.
    + cbn [buffer p0 app]. now rewrite C.
    + rewrite C. unfold feed. apply drains_drain; auto.
      apply bulk_ok_clean.
  - intros q rv' q'. apply parse_reply_settled.
  - intros c u' junk ops n q Ha R.
    destruct junk as [[l m] b].
    set (p0 := rdb_parser__init c u' (l, m, b)) in *.
    assert (S0 : settled p0).
    { split; [|reflexivity]. split; [intros E; discriminate E|reflexivity]. }
    assert (B0 : depth p0 + sv_len (buffer p0) + appended ops <= INT_MAX).
    { unfold depth, p0, rdb_parser__init. cbn [mblk_store buffer List.length].
      change (sv_len []) with 0. lia. }
    pose proof (run_settled ops p0 n q S0 B0 R) as Sq.
    pose proof (run_depth ops p0 n q (proj1 S0) B0 R) as Dq.
    split_and.
    + exact Sq.
    + revert Dq. unfold depth, p0, rdb_parser__init.
      cbn [mblk_store buffer List.length]. change (sv_len []) with 0.
      pose proof (appended_nonneg ops). lia.
    + intros St. destruct Sq as ((_ & W) & N). rewrite St in W, N. auto.
  - intros q lvl'. apply parse_reply_level.
Qed.


(** C5.  A completed top-level reply makes exactly one call, with the client
    and the value of the whole reply: entered in [RDBP_CLEAN] at a valid
    reply, [rdb_parser__parse_reply] returns 1 having called the head of the
    queue, which it removes, or, the queue being empty, the default
    callback, which stays; with neither it croaks.  The items of an array
    call nothing: the one call is given the array.  Nothing is called before
    the reply is complete: on part of its bytes the call returns 0 and
    leaves the queue, the default callback and the calls as they are, and
    the call that resumes with the other bytes delivers as the call on all
    the bytes does.  So for any stream of valid replies, in whatever chunks
    it is fed, the calls are one for each top-level reply, in order, each
    with the value of its reply, and the queue has lost one callback for
    each call it served.  On any bytes, a call that returns 1 has made
    exactly one call and a call that returns 0 none, so over any run the
    calls made are as many as the calls that returned 1. *)
Theorem one_callback_per_reply p rv p' :
  sv_len (buffer p) <= INT_MAX -> bulk_ok p ->
  rdb_parser__parse_reply p = Ok (rv, p') ->
  ((rv = 0 /\ undelivered p p') \/ (rv = 1 /\ delivered p p')) /\
  (forall r u self cbs d rest lvl mr ms ml bl cl,
     valid_reply u r = true -> sv_len (encode r ++ rest) <= INT_MAX ->
     rdb_parser__parse_reply
       (Parser u self cbs d (encode r ++ rest) RDBP_CLEAN lvl mr ms ml bl cl) =
     match cbs, d with
     | cb :: cbs', _ =>
         Ok (1, Parser u self cbs' d rest RDBP_CLEAN (level_after r)
                       (mblk_reply_after r mr) ms (mblk_len_after r ml)
                       (bulk_len_after r bl)
                       (cl ++ [Call cb self (reply_sv u r)]))
     | [], Some cb =>
         Ok (1, Parser u self [] (Some cb) rest RDBP_CLEAN (level_after r)
                       (mblk_reply_after r mr) ms (mblk_len_after r ml)
                       (bulk_len_after r bl)
                       (cl ++ [Call cb self (reply_sv u r)]))
     | [], None =>
         Croak "No callbacks in the queue and no default callback set"
     end) /\
  (forall r u self cbs d rest lvl mr ms ml bl cl b1 b2 pf,
     valid_reply u r = true -> sv_len (encode r ++ rest) <= INT_MAX ->
     b1 ++ b2 = encode r ++ rest ->
     (List.length b1 < List.length (encode r))%nat ->
     rdb_parser__parse_reply
       (Parser u self cbs d (encode r ++ rest) RDBP_CLEAN lvl mr ms ml bl cl) =
     Ok (1, pf) ->
     exists q,
       rdb_parser__parse_reply
         (Parser u self cbs d b1 RDBP_CLEAN lvl mr ms ml bl cl) = Ok (0, q) /\
       callbacks q = cbs /\ default_cb q = d /\ calls q = cl /\
       rdb_parser__parse_reply (append q b2) = Ok (1, pf)) /\
  (forall rs chunks q cs,
     state q = RDBP_CLEAN -> buffer q = [] ->
     forallb (valid_reply (utf8 q)) rs = true ->
     sv_len (stream rs) <= INT_MAX ->
     deliveries (redisdb q) (callbacks q) (default_cb q)
                (map (reply_sv (utf8 q)) rs) = Some cs ->
     List.concat chunks = stream rs ->
     exists qf,
       feed_all q chunks = Ok qf /\ calls qf = calls q ++ cs /\
       List.length cs = List.length rs /\
       callbacks qf = skipn (List.length rs) (callbacks q) /\
       default_cb qf = default_cb q) /\
  (forall ops q n qf,
     bulk_ok q -> sv_len (buffer q) + appended ops <= INT_MAX ->
     run ops q = Ok (n, qf) ->
     List.length (calls qf) = (List.length (calls q) + n)%nat).
Proof.
  intros Hmax Hb H. split_and.
  - destruct (parse_reply_result p rv p' Hmax Hb H)
      as (_ & _ & _ & _ & [(-> & U & _)|(-> & _ & Dl & _)]); auto.
  - intros r u self cbs d rest lvl mr ms ml bl cl V Hr.
    rewrite parse_reply_valid by assumption.
    unfold deliver. cbv zeta. cbn [set_state callbacks default_cb].
    destruct cbs as [|cb cbs']; [destruct d as [cb|]|]; reflexivity.
  - intros r u self cbs d rest lvl mr ms ml bl cl b1 b2 pf.
    apply valid_reply_resumed.
  - intros rs chunks q cs St B V Hs D C.
    destruct q as [u self cbs d buf st lvl mr ms ml bl cl].
    cbn [state buffer utf8 redisdb callbacks default_cb calls] in *.
    subst st buf.
    destruct (drains_stream rs u self cbs d lvl mr ms ml bl cl cs V Hs D)
      as (qf & I1 & I2 & I3 & I4 & I5 & I6 & _).
    set (q := Parser u self cbs d [] RDBP_CLEAN lvl mr ms ml bl cl) in *.
    assert (F : feed q (stream rs) = Ok qf).
    { unfold feed. apply drains_drain; [exact I1|exact Hs|].
      apply bulk_ok_clean. }
    exists qf. split_and; auto.
    + apply feed_all_whole; auto.
      * apply parse_reply_empty. reflexivity.
      * apply bulk_ok_clean.
      * rewrite C. exact Hs.
      * rewrite C. exact F.
    + rewrite (deliveries_length _ _ _ _ _ D). apply length_map.
  - intros ops q n qf. apply run_counts.
Qed.

End Parser.

(** * The claims at concrete inputs *)

(** The stream of [sample_replies], one byte per chunk. *)
Lemma chunks_deliver_as_whole_witness :
  exists pf,
    feed seven_bit (sample_parser [10%nat] (Some 1%nat) [])
         (stream sample_replies) = Ok pf /\
    feed_all seven_bit (sample_parser [10%nat] (Some 1%nat) [])
             (map (fun c => [c]) (stream sample_replies)) = Ok pf /\
    calls pf =
    [Call 10%nat 7%nat
          (SVrv_av [SVrv_av [SViv 1; SViv 2]; SVpv (bytes_of "foo") false; SVundef]);
     Call 1%nat 7%nat (SVpv (bytes_of "A") false);
     Call 1%nat 7%nat (SViv (-7))] /\
    state pf = RDBP_CLEAN /\ buffer pf = [].
Proof.
  apply (chunks_deliver_as_whole seven_bit sample_replies
           (map (fun c => [c]) (stream sample_replies))
           (sample_parser [10%nat] (Some 1%nat) [])).
  - reflexivity.
  - reflexivity.
  - reflexivity.
  - vm_compute. intros H. discriminate H.
  - reflexivity.
  - vm_compute. reflexivity.
Defined.

(** After the array [*1 CR LF :1 CR LF] has been delivered, [mblk_level]
    is 1. *)
Lemma delivered_array_level_counterexample :
  ~ (forall rv p',
       rdb_parser__parse_reply seven_bit
         (sample_parser [] (Some 1%nat)
            (bytes_of "*1" ++ CRLF ++ bytes_of ":1" ++ CRLF)) = Ok (rv, p') ->
       rv = 1 -> state p' = RDBP_CLEAN /\ mblk_level p' = 0).
Proof.
  intros H.
  destruct (H 1
    (Parser false 7%nat [] (Some 1%nat) [] RDBP_CLEAN 1 None [] 1 7
            [Call 1%nat 7%nat (SVrv_av [SViv 1])])) as [_ L].
  - vm_compute. reflexivity.
  - reflexivity.
  - discriminate L.
Qed.

Lemma delivered_state_and_level_witness :
  (state sample_after_array = RDBP_CLEAN /\
   buffer sample_after_array = bytes_of "+OK" /\
   mblk_level sample_after_array = 1 /\
   mblk_store sample_after_array = [] /\
   mblk_reply sample_after_array = None) /\
  exists q,
    rdb_parser__parse_reply seven_bit
      (Parser false 7%nat [] (Some 1%nat)
              (bytes_of "*1" ++ CRLF ++ bytes_of ":") RDBP_CLEAN 5 None [] 6 7
              []) = Ok (0, q) /\
    rdb_parser__parse_reply seven_bit
      (append q (bytes_of "1" ++ CRLF ++ bytes_of "+OK")) =
    Ok (1, sample_after_array).
Proof.
  destruct (delivered_state_and_level seven_bit (Array [Integer 1]) false
              7%nat [] (Some 1%nat) (bytes_of "+OK") 5 None [] 6 7 [] 1
              sample_after_array) as ((_ & H1) & _ & H2 & _).
  - reflexivity.
  - vm_compute. intros E. discriminate E.
  - vm_compute. reflexivity.
  - split; [exact H1|].
    apply (H2 (bytes_of "*1" ++ CRLF ++ bytes_of ":")
              (bytes_of "1" ++ CRLF ++ bytes_of "+OK")).
    + reflexivity.
    + cbn. lia.
Defined.

(** [$5 CR LF a CR LF b CR LF] announces five bytes and holds four before
    its last CR LF: the call returns 0 and delivers nothing. *)
Lemma bulk_length_five_counterexample :
  ~ (exists p',
       rdb_parser__parse_reply seven_bit
         (sample_parser [] (Some 1%nat)
            (bytes_of "$5" ++ CRLF ++ ["a"; CR; LF; "b"]%char ++ CRLF))
       = Ok (1, p') /\
       calls p' = [Call 1%nat 7%nat (SVpv ["a"; CR; LF; "b"]%char false)]).
Proof.
  intros (p' & H & _). vm_compute in H. discriminate H.
Qed.

Lemma bulk_reply_by_length_witness :
  rdb_parser__parse_reply seven_bit
    (sample_parser [] (Some 1%nat)
       (bytes_of "$4" ++ CRLF ++ ["a"; CR; LF; "b"]%char ++ CRLF)) =
  Ok (1, Parser false 7%nat [] (Some 1%nat) [] RDBP_CLEAN 0 None [] 6 4
                [Call 1%nat 7%nat (SVpv ["a"; CR; LF; "b"]%char false)]).
Proof.
  destruct (bulk_reply_by_length seven_bit ["a"; CR; LF; "b"]%char false 7%nat
              [] (Some 1%nat) [] 5 None [] 6 7 []) as (_ & H & _).
  - reflexivity.
  - vm_compute. intros E. discriminate E.
  - vm_compute in H. vm_compute. exact H.
Defined.

Lemma mblk_header_witness :
  loop_body seven_bit sample_nested_header =
  Ok (None, Parser false 7%nat [] (Some 1%nat) (bytes_of ":5" ++ CRLF)
                   RDBP_WAIT_BUCKS 1 (Some [SViv 4; SVundef]) [] 1 7 []).
Proof.
  destruct (mblk_header seven_bit (-1) sample_nested_header
              (bytes_of ":5" ++ CRLF)) as (_ & H).
  - reflexivity.
  - reflexivity.
  - vm_compute. intros E. discriminate E.
  - vm_compute. split; intros E; discriminate E.
  - destruct (H (or_intror eq_refl)) as (_ & H').
    destruct (H' (MblkStore (Some [SViv 4]) 2) [] [SViv 4]) as (_ & H'').
    + vm_compute. split; [reflexivity|]. intros E. discriminate E.
    + reflexivity.
    + reflexivity.
    + apply H''. reflexivity.
Defined.

Lemma one_callback_per_reply_witness :
  rdb_parser__parse_reply seven_bit
    (sample_parser [10%nat] (Some 1%nat)
       (encode (Array [Integer 1; Array [Integer 2]]) ++ [])) =
  Ok (1, Parser false 7%nat [] (Some 1%nat) [] RDBP_CLEAN 1 None [] 1 7
                ([] ++ [Call 10%nat 7%nat (SVrv_av [SViv 1; SVrv_av [SViv 2]])])).
Proof.
  destruct (one_callback_per_reply seven_bit
              (sample_parser [10%nat] (Some 1%nat) (bytes_of "+OK" ++ CRLF)) 1
              (Parser false 7%nat [] (Some 1%nat) [] RDBP_CLEAN 0 None [] 6 7
                      [Call 10%nat 7%nat (SVpv (bytes_of "OK") false)]))
    as (_ & H & _).
  - vm_compute. intros E. discriminate E.
  - intros E. discriminate E.
  - vm_compute. reflexivity.
  - apply (H (Array [Integer 1; Array [Integer 2]]) false 7%nat [10%nat]
             (Some 1%nat) [] 5 None [] 6 7 []).
    + reflexivity.
    + vm_compute. intros E. discriminate E.
Defined.

(** [rdb_parser__propagate_reply] on three queued callbacks and a default
    callback: the four are called in order with the same value and none is
    left. *)
Lemma propagate_reply_drains_witness :
  rdb_parser__propagate_reply
    (sample_parser [1%nat; 2%nat; 3%nat] (Some 4%nat) []) (SVerror SVundef) =
  Ok (Parser false 7%nat [] None [] RDBP_CLEAN 5 None [] 6 7
             [Call 1%nat 7%nat (SVerror SVundef);
              Call 2%nat 7%nat (SVerror SVundef);
              Call 3%nat 7%nat (SVerror SVundef);
              Call 4%nat 7%nat (SVerror SVundef)]).
Proof.
  destruct (propagate_reply_drains
              (sample_parser [1%nat; 2%nat; 3%nat] (Some 4%nat) [])
              (SVerror SVundef)) as (H & _).
  exact H.
Defined.

Lemma type_tag_dispatch_witness :
  loop_body seven_bit sample_waiting =
  Ok (None, Parser false 7%nat [] None (bytes_of "2" ++ CRLF) RDBP_READ_MBLK_LEN
                   2 None [MblkStore (Some [SViv 4]) 2] 2 7 []).
Proof.
  apply (type_tag_dispatch seven_bit sample_waiting "*"%char
           (bytes_of "2" ++ CRLF)).
  - reflexivity.
  - reflexivity.
  - discriminate.
Defined.

Lemma line_readers_atomic_witness :
  _read_line (bytes_of "OK" ++ CRLF ++ bytes_of ":1") =
  Ok (Some (SVpv (bytes_of "OK") false), bytes_of ":1").
Proof.
  destruct (line_readers_atomic seven_bit
              (bytes_of "OK" ++ CRLF ++ bytes_of ":1")) as (H & _).
  - discriminate.
  - vm_compute. intros E. discriminate E.
  - destruct (H 2%nat) as (H1 & _).
    + split; reflexivity.
    + intros j Hj [C1 C2].
      destruct j as [|[|j]]; [discriminate C1|discriminate C1|lia].
    + exact H1.
Defined.

Lemma read_number_value_witness :
  rdb_parser__parse_reply seven_bit
    (sample_parser [] (Some 1%nat) (bytes_of ":123" ++ CRLF)) =
  Ok (1, Parser false 7%nat [] (Some 1%nat) [] RDBP_CLEAN 0 None [] 6 7
                [Call 1%nat 7%nat (SViv 123)]).
Proof.
  apply (read_number_value seven_bit (bytes_of "123") false 7%nat []
           (Some 1%nat) [] 5 None [] 6 7 []).
  - reflexivity.
  - vm_compute. intros E. discriminate E.
Defined.

Lemma parse_reply_empty_buffer_witness :
  rdb_parser__parse_reply seven_bit (sample_parser [10%nat] None []) =
  Ok (0, sample_parser [10%nat] None []).
Proof.
  apply (parse_reply_empty_buffer seven_bit (sample_parser [10%nat] None [])).
  reflexivity.
Defined.

(** * The UTF-8 test *)

Lemma loop_body_byte_mode (f g : list ascii -> bool) p :
  utf8 p = false -> loop_body f p = loop_body g p.
Proof.
  intros H. unfold loop_body.
  destruct (sv_len (buffer p) <? 2); [reflexivity|].
  destruct (state p); try reflexivity.
  destruct (sv_len (buffer p) <? ulong_of (2 + bulk_len p)); [reflexivity|].
  cbv zeta. change (utf8 (set_buffer p _)) with (utf8 p).
  rewrite H. reflexivity.
Qed.

Lemma parse_loop_byte_mode (f g : list ascii -> bool) n : forall p,
  utf8 p = false -> parse_loop f n p = parse_loop g n p.
Proof.
  induction n as [|n IH]; intros p H; [reflexivity|].
  cbn [parse_loop]. rewrite (loop_body_byte_mode f g p H).
  destruct (loop_body g p) as [[o p1]| | |] eqn:E; try reflexivity.
  cbn [bind]. destruct o as [rv|]; [reflexivity|].
  apply IH. apply loop_body_frame in E. destruct E as (_ & U & _).
  congruence.
Qed.

(** X15.  A parser in byte mode never tests a string for UTF-8: whatever
    the test would answer, [rdb_parser__parse_reply] does the same, on any
    bytes and in any state. *)
Theorem byte_mode_never_validates (f g : list ascii -> bool) p :
  utf8 p = false ->
  rdb_parser__parse_reply f p = rdb_parser__parse_reply g p.
Proof.
  intros H. unfold rdb_parser__parse_reply.
  destruct (sv_len (buffer p) =? 0); [reflexivity|].
  destruct (state p); cbn [bind]; try (now apply parse_loop_byte_mode).
  destruct (read_op p) as [p1| | |] eqn:E; try reflexivity.
  cbn [bind]. apply parse_loop_byte_mode.
  apply read_op_frame in E. destruct E as (_ & U & _). congruence.
Qed.

(** * Further properties at concrete inputs *)

Lemma parse_reply_drops_a_prefix_witness :
  (1 = 0 \/ 1 = 1) /\
  (exists k, buffer sample_integer_done = skipn k (buffer sample_integer)) /\
  utf8 sample_integer_done = utf8 sample_integer /\
  redisdb sample_integer_done = redisdb sample_integer.
Proof.
  apply (parse_reply_drops_a_prefix seven_bit sample_integer 1
           sample_integer_done).
  vm_compute. reflexivity.
Defined.

Lemma line_length_of_nothing_witness :
  _line_length (bytes_of "OK") 0 = Fault OutOfBounds.
Proof.
  apply (line_length_of_nothing (bytes_of "OK")).
  vm_compute. intros E. discriminate E.
Defined.

Lemma length_below_minus_one_dropped_witness :
  rdb_parser__parse_reply seven_bit sample_bad_length =
  Ok (0, sample_bad_length_dropped) /\
  rdb_parser__parse_reply seven_bit sample_bad_length_dropped =
  Ok (1, sample_bad_length_next).
Proof.
  split; [|vm_compute; reflexivity].
  destruct (length_below_minus_one_dropped seven_bit (bytes_of "-2")
              (bytes_of "3" ++ CRLF ++ bytes_of "abc" ++ CRLF)
              sample_bad_length) as (_ & H).
  - reflexivity.
  - vm_compute. reflexivity.
  - vm_compute. intros E. discriminate E.
  - destruct (H eq_refl) as (H1 & _). exact (H1 eq_refl).
Defined.

Lemma array_item_appended_witness :
  rdb_parser__parse_reply seven_bit
    (Parser false 7%nat [] None
            (encode (Array [Integer 1; Bulk (bytes_of "ab")]) ++ bytes_of ":5")
            RDBP_WAIT_BUCKS 1 (Some [SViv 4]) [] 2 7 []) =
  rdb_parser__parse_reply seven_bit
    (Parser false 7%nat [] None (bytes_of ":5") RDBP_WAIT_BUCKS 1
            (Some ([SViv 4] ++
                   [reply_sv false (Array [Integer 1; Bulk (bytes_of "ab")])]))
            [] (2 - 1)
            (bulk_len_after (Array [Integer 1; Bulk (bytes_of "ab")]) 7) []).
Proof.
  apply (array_item_appended seven_bit
           (Array [Integer 1; Bulk (bytes_of "ab")]) false 7%nat [] None
           (bytes_of ":5") 1 [SViv 4] [] 2 7 []).
  - reflexivity.
  - lia.
  - lia.
  - vm_compute. intros E. discriminate E.
Defined.

Lemma chunks_as_whole_any_bytes_witness :
  feed_all seven_bit (sample_parser [] (Some 1%nat) []) sample_chunks =
  Ok sample_chunks_fed /\
  buffer sample_chunks_fed = [].
Proof.
  apply (chunks_as_whole_any_bytes seven_bit sample_chunks
           (sample_parser [] (Some 1%nat) []) sample_chunks_fed).
  - reflexivity.
  - reflexivity.
  - vm_compute. intros E. discriminate E.
  - vm_compute. reflexivity.
  - reflexivity.
Defined.

Lemma return_0_waits_or_dropped_a_header_witness :
  rdb_parser__parse_reply seven_bit sample_bad_length_dropped =
  Ok (0, sample_bad_length_dropped) \/
  ((state sample_bad_length_dropped = RDBP_READ_BULK_LEN \/
    state sample_bad_length_dropped = RDBP_READ_MBLK_LEN) /\
   exists pre line,
     buffer sample_bad_length =
     pre ++ line ++ CRLF ++ buffer sample_bad_length_dropped /\
     atol line < -1).
Proof.
  apply (return_0_waits_or_dropped_a_header seven_bit sample_bad_length
           sample_bad_length_dropped).
  - vm_compute. intros E. discriminate E.
  - intros E. discriminate E.
  - vm_compute. reflexivity.
Defined.

Lemma parse_reply_keeps_well_formed_witness :
  well_formed sample_nested_done /\
  depth sample_nested_done + sv_len (buffer sample_nested_done) <=
  depth sample_nested_header + sv_len (buffer sample_nested_header).
Proof.
  apply (parse_reply_keeps_well_formed seven_bit sample_nested_header 1
           sample_nested_done).
  - split; [intros E; discriminate E|]. split; reflexivity.
  - vm_compute. intros E. discriminate E.
  - vm_compute. reflexivity.
Defined.

Lemma run_from_init_is_safe_witness :
  well_formed (rdb_parser__init 7%nat false (5, 6, 7)) /\
  safely (fun x => well_formed (snd x))
         (run seven_bit sample_ops (rdb_parser__init 7%nat false (5, 6, 7))).
Proof.
  apply (run_from_init_is_safe seven_bit 7%nat false (5, 6, 7) sample_ops).
  vm_compute. intros E. discriminate E.
Defined.

Lemma byte_mode_never_validates_witness :
  rdb_parser__parse_reply seven_bit sample_bytes =
  rdb_parser__parse_reply (fun _ => false) sample_bytes.
Proof.
  apply (byte_mode_never_validates seven_bit (fun _ => false) sample_bytes).
  reflexivity.
Defined.

Lemma parse_loop_ends_witness :
  parse_loop seven_bit 100 sample_waiting =
  parse_loop seven_bit 5 sample_waiting.
Proof.
  destruct (parse_loop_ends seven_bit sample_waiting 100) as (H & _).
  - vm_compute. intros E. discriminate E.
  - intros E. discriminate E.
  - cbn. lia.
  - destruct H as (H & _); [discriminate|]. exact H.
Defined.

Lemma callbacks_read_on_delivery_only_witness :
  rdb_parser__parse_reply seven_bit
    (set_default_cb (set_callbacks sample_waiting [5%nat]) (Some 6%nat)) =
  Ok (0, set_default_cb (set_callbacks sample_waiting_nested [5%nat])
                        (Some 6%nat)).
Proof.
  apply (callbacks_read_on_delivery_only seven_bit sample_waiting
           sample_waiting_nested [5%nat] (Some 6%nat)).
  vm_compute. reflexivity.
Defined.

Lemma mblk_status_round_trip_witness :
  _mblk_status_fetch (_mblk_status_store sample_waiting_nested) =
  Ok sample_waiting_nested.
Proof.
  destruct (mblk_status_round_trip sample_waiting_nested) as (H & _).
  exact H.
Defined.

Lemma propagate_reply_twice_witness :
  exists p1,
    rdb_parser__propagate_reply
      (sample_parser [1%nat; 2%nat] (Some 3%nat) (encode (Integer 5)))
      (SVerror SVundef) = Ok p1 /\
    rdb_parser__parse_reply seven_bit p1 =
    Croak "No callbacks in the queue and no default callback set".
Proof.
  destruct (propagate_reply_twice seven_bit
              (sample_parser [1%nat; 2%nat] (Some 3%nat) (encode (Integer 5)))
              (SVerror SVundef) (SVerror SVundef))
    as (p1 & H1 & _ & _ & _ & _ & _ & H).
  exists p1. split; [exact H1|].
  apply (H (Integer 5) []).
  - reflexivity.
  - vm_compute. reflexivity.
  - reflexivity.
  - vm_compute. intros E. discriminate E.
Defined.

Lemma init_junk_is_never_read_witness :
  rmap (on_parser live)
       (run seven_bit sample_ops_array (rdb_parser__init 7%nat false (5, 6, 7))) =
  rmap (on_parser live)
       (run seven_bit sample_ops_array (rdb_parser__init 7%nat false (0, 0, 0))).
Proof.
  apply (init_junk_is_never_read seven_bit 7%nat false (5, 6, 7) (0, 0, 0)
           sample_ops_array).
Defined.

Lemma mblk_item_on_a_stack_witness :
  exists rv p',
    _mblk_item sample_last_items (SViv 9) = Ok (rv, p') /\
    buffer p' = buffer sample_last_items /\
    callbacks p' = callbacks sample_last_items /\
    default_cb p' = default_cb sample_last_items /\
    calls p' = calls sample_last_items /\
    ((rv = 1 /\ state p' = RDBP_WAIT_BUCKS /\ in_array p' /\
      depth p' <= depth sample_last_items) \/
     (rv = 0 /\ state p' = state sample_last_items /\ mblk_level p' = 1 /\
      mblk_store p' = [] /\ mblk_reply p' <> None)).
Proof.
  destruct (mblk_item_on_a_stack seven_bit sample_last_items (SViv 9))
    as (H & _).
  apply H. split; [split; reflexivity|discriminate].
Defined.
